(** * DriftGuard: session state machine, scope claims, integrity and risk

    A shallow embedding of the DriftGuard engine ([state.ts], [scope.ts],
    [risk.ts], [types.ts]) and the properties of its specification.

    Conventions of the embedding:
    - a JavaScript object used as a map ([Record<string, T>]) is an
      association list of its own properties in insertion order, which is
      the order [Object.values] and [Object.entries] enumerate string keys
      that are not array indices (the generated ids [task_...] and
      [sub_...] never are); the objects keyed by file names are read and
      enumerated as JavaScript does it, array indices first and
      [Object.prototype] behind the own properties;
    - a string is held as its UTF-8 bytes; where JavaScript counts UTF-16
      code units ([slice]) or looks for white space characters ([trim]), the
      model does so on these bytes;
    - an optional field ([x?: T]) is an [option];
    - the singleton's mutable [state] is threaded explicitly: an operation is
      a function from the state to an outcome (value or thrown error) and the
      state it leaves behind;
    - what comes from outside the process (clock, uuid generator, git, the
      file system, the test command) is read from an [Env] record;
    - [minimatch] is a library function: a variable of the development. *)

From Stdlib Require Import List String Ascii ZArith Bool Lia PeanoNat DecimalString.
Import ListNotations.
Open Scope string_scope.

Set Implicit Arguments.

(* ================================================================= *)
(** ** JavaScript objects as insertion-ordered maps *)

Module JsObject.

Definition t (V : Type) : Type := list (string * V).

Definition empty {V : Type} : t V := [].

(** [o[k]] *)
Fixpoint get {V : Type} (o : t V) (k : string) : option V :=
  match o with
  | [] => None
  | (k', v) :: rest => if String.eqb k' k then Some v else get rest k
  end.

(** [o[k] = v]: an existing key keeps its place, a new key goes last. *)
Fixpoint set {V : Type} (o : t V) (k : string) (v : V) : t V :=
  match o with
  | [] => [(k, v)]
  | (k', v') :: rest =>
      if String.eqb k' k then (k', v) :: rest else (k', v') :: set rest k v
  end.

(** [Object.keys(o)], [Object.values(o)], [Object.entries(o)] of an object
    none of whose keys is an array index *)
Definition keys {V : Type} (o : t V) : list string := map fst o.
Definition values {V : Type} (o : t V) : list V := map snd o.
Definition entries {V : Type} (o : t V) : list (string * V) := o.

(** An array index is the canonical decimal form of an integer from 0 to
    2^32 - 2: digits only, with no leading zero. *)
Definition digit (c : ascii) : option N :=
  if (48 <=? N_of_ascii c)%N && (N_of_ascii c <=? 57)%N
  then Some (N_of_ascii c - 48)%N else None.

Fixpoint decimal (acc : N) (s : string) : option N :=
  match s with
  | EmptyString => Some acc
  | String c rest =>
      match digit c with
      | Some d => decimal (acc * 10 + d) rest
      | None => None
      end
  end.

Definition arrayIndex (k : string) : option N :=
  match k with
  | EmptyString => None
  | String c rest =>
      match decimal 0 k with
      | Some n =>
          if (N_of_ascii c =? 48)%N && negb (String.eqb rest "") then None
          else if (n <=? 4294967294)%N then Some n else None
      | None => None
      end
  end.

Fixpoint insertIndexed {V : Type} (i : N) (kv : string * V)
  (sorted : list (N * (string * V))) : list (N * (string * V)) :=
  match sorted with
  | [] => [(i, kv)]
  | (j, kv') :: rest =>
      if (i <? j)%N then (i, kv) :: sorted else (j, kv') :: insertIndexed i kv rest
  end.

(** The properties whose keys are array indices, in ascending order. *)
Definition indexed {V : Type} (o : t V) : list (N * (string * V)) :=
  fold_right
    (fun kv acc =>
       match arrayIndex (fst kv) with
       | Some i => insertIndexed i kv acc
       | None => acc
       end)
    [] o.

(** The other properties, in insertion order. *)
Definition named {V : Type} (o : t V) : list (string * V) :=
  filter (fun kv => match arrayIndex (fst kv) with Some _ => false | None => true end) o.

(** [Object.entries(o)] in general: array indices first, in ascending order,
    then the other keys in insertion order. *)
Definition enumerate {V : Type} (o : t V) : list (string * V) :=
  (map snd (indexed o) ++ named o)%list.

(** [{...a, ...b}] *)
Definition spread {V : Type} (a b : t V) : t V :=
  fold_left (fun acc kv => set acc (fst kv) (snd kv)) b a.

(** Keys are unique, as in every JavaScript object. *)
Definition wf {V : Type} (o : t V) : Prop := NoDup (keys o).

End JsObject.

(* ================================================================= *)
(** ** Data contracts ([types.ts]) *)

Inductive StrictnessLevel : Type :=
| L1_VIBE | L2_LOGGED | L3_BALANCED | L4_ENGINEERED | L5_CRITICAL.

Definition StrictnessLevel_value (l : StrictnessLevel) : Z :=
  match l with
  | L1_VIBE => 1 | L2_LOGGED => 2 | L3_BALANCED => 3
  | L4_ENGINEERED => 4 | L5_CRITICAL => 5
  end.

Inductive FocusState : Type :=
| IDLE | PLANNING | EXECUTING | VALIDATING | PANIC.

Definition FocusState_eqb (a b : FocusState) : bool :=
  match a, b with
  | IDLE, IDLE | PLANNING, PLANNING | EXECUTING, EXECUTING
  | VALIDATING, VALIDATING | PANIC, PANIC => true
  | _, _ => false
  end.

Inductive ItemStatus : Type := todo | done.

Record ChecklistItem : Type := mkChecklistItem {
  id : string;
  text : string;
  status : ItemStatus
}.

Record ScopeClaim : Type := mkScopeClaim {
  path : string;
  exclusive : bool;
  ownerTaskId : string;
  claimCreatedAt : Z
}.

Record TaskContract : Type := mkTaskContract {
  taskId : string;
  title : string;
  goal : string;
  allowedScopes : list string;
  checklist : list ChecklistItem;
  strictness : StrictnessLevel;
  testCommand : option string;
  lastIntent : option string;
  filesToTouch : option (list string);
  parentTaskId : option string;
  subTaskIds : option (list string);
  claims : option (list ScopeClaim);
  riskScore : option Z;
  createdAt : string;
  updatedAt : string
}.

Definition Hashes : Type := JsObject.t string.

Record DriftSession : Type := mkDriftSession {
  sessionId : string;
  startTime : Z;
  currentState : FocusState;
  activeTaskId : option string;
  activeStepId : option string;
  isVerified : bool;
  intentFiled : bool;
  activeClaims : option (list ScopeClaim);
  lastKnownFileHashes : option Hashes
}.

Record LogEntry : Type := mkLogEntry {
  timestamp : string;
  action : string;
  logTaskId : option string;
  details : option string
}.

Definition Tasks : Type := JsObject.t TaskContract.

Record DriftGuardState : Type := mkDriftGuardState {
  version : string;
  session : DriftSession;
  tasks : Tasks;
  logs : list LogEntry
}.

(** Errors an operation can throw. [TypeError] is what JavaScript raises on
    reading a property of [undefined]. *)
Inductive Error : Type :=
| StateTransitionError (act : string) (fromState : FocusState)
    (allowedFromStates : list FocusState)
| IntentMissingError
| PlainError (message : string)
| TypeError.

(* ----------------------------------------------------------------- *)
(** *** Field updates *)

Definition with_claims (t : TaskContract) (c : option (list ScopeClaim)) : TaskContract :=
  mkTaskContract (taskId t) (title t) (goal t) (allowedScopes t) (checklist t)
    (strictness t) (testCommand t) (lastIntent t) (filesToTouch t)
    (parentTaskId t) (subTaskIds t) c (riskScore t) (createdAt t) (updatedAt t).

Definition with_checklist (t : TaskContract) (c : list ChecklistItem) : TaskContract :=
  mkTaskContract (taskId t) (title t) (goal t) (allowedScopes t) c
    (strictness t) (testCommand t) (lastIntent t) (filesToTouch t)
    (parentTaskId t) (subTaskIds t) (claims t) (riskScore t) (createdAt t) (updatedAt t).

Definition with_updatedAt (t : TaskContract) (u : string) : TaskContract :=
  mkTaskContract (taskId t) (title t) (goal t) (allowedScopes t) (checklist t)
    (strictness t) (testCommand t) (lastIntent t) (filesToTouch t)
    (parentTaskId t) (subTaskIds t) (claims t) (riskScore t) (createdAt t) u.

Definition with_intent (t : TaskContract) (i : string) (f : list string) : TaskContract :=
  mkTaskContract (taskId t) (title t) (goal t) (allowedScopes t) (checklist t)
    (strictness t) (testCommand t) (Some i) (Some f)
    (parentTaskId t) (subTaskIds t) (claims t) (riskScore t) (createdAt t) (updatedAt t).

Definition with_testCommand (t : TaskContract) (c : string) : TaskContract :=
  mkTaskContract (taskId t) (title t) (goal t) (allowedScopes t) (checklist t)
    (strictness t) (Some c) (lastIntent t) (filesToTouch t)
    (parentTaskId t) (subTaskIds t) (claims t) (riskScore t) (createdAt t) (updatedAt t).

Definition with_subTaskIds (t : TaskContract) (s : list string) : TaskContract :=
  mkTaskContract (taskId t) (title t) (goal t) (allowedScopes t) (checklist t)
    (strictness t) (testCommand t) (lastIntent t) (filesToTouch t)
    (parentTaskId t) (Some s) (claims t) (riskScore t) (createdAt t) (updatedAt t).

Definition with_riskScore (t : TaskContract) (r : Z) : TaskContract :=
  mkTaskContract (taskId t) (title t) (goal t) (allowedScopes t) (checklist t)
    (strictness t) (testCommand t) (lastIntent t) (filesToTouch t)
    (parentTaskId t) (subTaskIds t) (claims t) (Some r) (createdAt t) (updatedAt t).

Definition with_status (i : ChecklistItem) (s : ItemStatus) : ChecklistItem :=
  mkChecklistItem (id i) (text i) s.

Definition with_currentState (s : DriftSession) (f : FocusState) : DriftSession :=
  mkDriftSession (sessionId s) (startTime s) f (activeTaskId s) (activeStepId s)
    (isVerified s) (intentFiled s) (activeClaims s) (lastKnownFileHashes s).

Definition with_activeTaskId (s : DriftSession) (a : option string) : DriftSession :=
  mkDriftSession (sessionId s) (startTime s) (currentState s) a (activeStepId s)
    (isVerified s) (intentFiled s) (activeClaims s) (lastKnownFileHashes s).

Definition with_activeStepId (s : DriftSession) (a : option string) : DriftSession :=
  mkDriftSession (sessionId s) (startTime s) (currentState s) (activeTaskId s) a
    (isVerified s) (intentFiled s) (activeClaims s) (lastKnownFileHashes s).

Definition with_isVerified (s : DriftSession) (b : bool) : DriftSession :=
  mkDriftSession (sessionId s) (startTime s) (currentState s) (activeTaskId s)
    (activeStepId s) b (intentFiled s) (activeClaims s) (lastKnownFileHashes s).

Definition with_intentFiled (s : DriftSession) (b : bool) : DriftSession :=
  mkDriftSession (sessionId s) (startTime s) (currentState s) (activeTaskId s)
    (activeStepId s) (isVerified s) b (activeClaims s) (lastKnownFileHashes s).

Definition with_activeClaims (s : DriftSession) (c : option (list ScopeClaim)) : DriftSession :=
  mkDriftSession (sessionId s) (startTime s) (currentState s) (activeTaskId s)
    (activeStepId s) (isVerified s) (intentFiled s) c (lastKnownFileHashes s).

Definition with_lastKnownFileHashes (s : DriftSession) (h : option Hashes) : DriftSession :=
  mkDriftSession (sessionId s) (startTime s) (currentState s) (activeTaskId s)
    (activeStepId s) (isVerified s) (intentFiled s) (activeClaims s) h.

Definition with_session (st : DriftGuardState) (s : DriftSession) : DriftGuardState :=
  mkDriftGuardState (version st) s (tasks st) (logs st).

Definition with_tasks (st : DriftGuardState) (t : Tasks) : DriftGuardState :=
  mkDriftGuardState (version st) (session st) t (logs st).

Definition with_logs (st : DriftGuardState) (l : list LogEntry) : DriftGuardState :=
  mkDriftGuardState (version st) (session st) (tasks st) l.

(* ----------------------------------------------------------------- *)
(** *** JavaScript idioms *)

(** Truthiness of an optional string: [undefined] and [""] are falsy. *)
Definition truthy (s : option string) : bool :=
  match s with
  | None => false
  | Some s => negb (String.eqb s "")
  end.

(** [a === b] where [a] may be [undefined] and [b] is a string. *)
Definition opt_strict_eq (a : option string) (b : string) : bool :=
  match a with
  | None => false
  | Some a => String.eqb a b
  end.

(** The hash objects ([lastKnownFileHashes], the result of
    [calculateFileHashes]) are object literals or come from [JSON.parse]:
    behind their own properties stands [Object.prototype], with the
    properties named here. *)
Definition prototypeNames : list string :=
  ["constructor"; "__defineGetter__"; "__defineSetter__"; "hasOwnProperty";
   "__lookupGetter__"; "__lookupSetter__"; "isPrototypeOf"; "propertyIsEnumerable";
   "toString"; "valueOf"; "__proto__"; "toLocaleString"].

Definition inherited (k : string) : bool := existsb (String.eqb k) prototypeNames.

(** What reading [o[k]] gives: the own property, else the property of
    [Object.prototype] (a function, and the prototype object itself for
    [__proto__]), else [undefined]. *)
Inductive Lookup : Type :=
| Own (v : string)
| Inherited
| Undefined.

Definition lookup (o : Hashes) (k : string) : Lookup :=
  match JsObject.get o k with
  | Some v => Own v
  | None => if inherited k then Inherited else Undefined
  end.

(** [!x]: [undefined] and [""] are falsy, functions and objects are not. *)
Definition falsy (x : Lookup) : bool :=
  match x with
  | Own v => String.eqb v ""
  | Inherited => false
  | Undefined => true
  end.

(** [x !== s] for a string [s] *)
Definition differs (x : Lookup) (s : string) : bool :=
  match x with
  | Own v => negb (String.eqb v s)
  | Inherited | Undefined => true
  end.

(** [o[k] = v] for a string [v]. A name that is not an own property is
    created, except [__proto__]: that assignment runs the setter of
    [Object.prototype], which ignores a string. *)
Definition assign (o : Hashes) (k v : string) : Hashes :=
  match JsObject.get o k with
  | Some _ => JsObject.set o k v
  | None => if String.eqb k "__proto__" then o else JsObject.set o k v
  end.

(** [x || []], [x?.map(f) || []] on an optional array. *)
Definition orEmpty {A : Type} (x : option (list A)) : list A :=
  match x with
  | None => []
  | Some l => l
  end.

(** [l.slice(-n)] *)
Definition slice_last {A : Type} (n : nat) (l : list A) : list A :=
  skipn (List.length l - n) l.

(** Text is held as its UTF-8 bytes, while JavaScript measures and cuts a
    string in UTF-16 code units. In UTF-8 a byte of the form 10xxxxxx
    continues a character and any other byte starts one; the character takes
    two code units when that byte is 11110xxx (a supplementary character, of
    four bytes) and one code unit otherwise. *)
Definition isContinuation (c : ascii) : bool :=
  (128 <=? N_of_ascii c)%N && (N_of_ascii c <? 192)%N.

Definition codeUnits (c : ascii) : nat :=
  if isContinuation c then 0%nat
  else if (240 <=? N_of_ascii c)%N then 2%nat else 1%nat.

(** [s.length] *)
Fixpoint utf16_length (s : string) : nat :=
  match s with
  | EmptyString => 0%nat
  | String c rest => (codeUnits c + utf16_length rest)%nat
  end.

Definition byteAt (i : nat) (s : string) : N :=
  match String.get i s with
  | Some c => N_of_ascii c
  | None => 0%N
  end.

(** The first code unit of the supplementary character whose bytes are [b0]
    followed by the start of [rest]: the high surrogate U+D800 + t, where t
    is the ten upper bits of the character's offset from U+10000. Standing
    alone it is held as the three bytes 11101101, 1010xxxx, 10xxxxxx. *)
Definition highSurrogate (b0 : ascii) (rest : string) : string :=
  let t := ((N_of_ascii b0 mod 8) * 256 + (byteAt 0 rest mod 64) * 4
            + (byteAt 1 rest mod 64) / 16 - 64)%N in
  String (ascii_of_N 237)
    (String (ascii_of_N (160 + (t / 64) mod 16))
       (String (ascii_of_N (128 + t mod 64)) EmptyString)).

(** [s.slice(0, n)] on a string: its first [n] code units. A character is
    copied with the bytes that continue it; when only one unit is left and
    the next character takes two, its first unit alone is kept. *)
Fixpoint str_slice0 (n : nat) (s : string) : string :=
  match s with
  | EmptyString => EmptyString
  | String c rest =>
      if isContinuation c then String c (str_slice0 n rest)
      else if (codeUnits c <=? n)%nat then String c (str_slice0 (n - codeUnits c) rest)
      else if (n =? 1)%nat then highSurrogate c rest
      else EmptyString
  end.

(** Text without any byte above 127. *)
Fixpoint isAsciiText (s : string) : bool :=
  match s with
  | EmptyString => true
  | String c rest => (N_of_ascii c <? 128)%N && isAsciiText rest
  end.

(** [s.includes(sub)] *)
Fixpoint includes (sub s : string) : bool :=
  if prefix sub s then true
  else match s with
       | EmptyString => false
       | String _ rest => includes sub rest
       end.

(** [s.toLowerCase()] on ASCII text. *)
Definition lower_ascii (c : ascii) : ascii :=
  let n := nat_of_ascii c in
  if (65 <=? n)%nat && (n <=? 90)%nat then ascii_of_nat (n + 32) else c.

Fixpoint toLowerCase (s : string) : string :=
  match s with
  | EmptyString => EmptyString
  | String c rest => String (lower_ascii c) (toLowerCase rest)
  end.

(** [l.join(sep)] *)
Fixpoint join (sep : string) (l : list string) : string :=
  match l with
  | [] => ""
  | [x] => x
  | x :: rest => x ++ sep ++ join sep rest
  end.

(** A table-driven stand-in for [minimatch], used to evaluate the model on
    concrete inputs: [facts] lists the (path, pattern) pairs that the matcher
    accepts, everything else is rejected. *)
Definition minimatch_of (facts : list (string * string)) (p pattern : string) : bool :=
  existsb (fun f => String.eqb (fst f) p && String.eqb (snd f) pattern) facts.

(* ================================================================= *)
(** ** The outside world *)

(** Result of [git log] as simple-git returns it: the author e-mail of every
    listed commit, and the commit count. *)
Record LogResult : Type := mkLogResult {
  all : list string;
  total : Z
}.

(** Outcome of [execAsync(command, ...)]: it resolves with the two output
    streams or rejects with an error carrying what it has. *)
Inductive ExecOutcome : Type :=
| ExecResolved (stdout stderr : string)
| ExecRejected (code : option Z) (stdout stderr : option string) (message : string).

(** Content of [.driftguard/] on disk, for a directory whose [tasks.json]
    is one [syncToDisk] wrote: when it parses, it holds a state. *)
Inductive Disk : Type :=
| NoDirectory
| Unreadable                       (* no [tasks.json], or it does not parse *)
| Snapshot (parsed : DriftGuardState).



Record Env : Type := mkEnv {
  now : string;                               (* [new Date().toISOString()] *)
  nowMs : Z;                                  (* [Date.now()] *)
  uuid : string;                              (* [uuidv4()] *)
  isGitRepo : bool;                           (* [gitManager.isGitRepo()] *)
  getChangedFiles : list string;              (* [gitManager.getChangedFiles()] *)
  getDiffStat : string;                       (* [gitManager.getDiffStat()] *)
  writeNote : bool;                           (* [gitManager.writeNote(...)] *)
  listFiles : list string -> list string;     (* [gitManager.listFiles(patterns)] *)
  readHash : string -> option string;         (* md5 of a file, [None] if unreadable *)
  gitLog : string -> option LogResult;        (* [git.log(...)], [None] if it throws *)
  execAsync : string -> ExecOutcome;
  disk : Disk;
  driftGuardPath : string;
  scanForStrictness : StrictnessLevel * string
}.

(* ================================================================= *)
(** ** Operations: state passing with exceptions *)

Inductive Outcome (A : Type) : Type :=
| Return (a : A)
| Throw (e : Error).

Arguments Return {A} a.
Arguments Throw {A} e.

Definition Op (A : Type) : Type := DriftGuardState -> Outcome A * DriftGuardState.

Definition ret {A : Type} (a : A) : Op A := fun st => (Return a, st).

Definition throw {A : Type} (e : Error) : Op A := fun st => (Throw e, st).

Definition bind {A B : Type} (m : Op A) (f : A -> Op B) : Op B :=
  fun st =>
    match m st with
    | (Return a, st') => f a st'
    | (Throw e, st') => (Throw e, st')
    end.

Definition getState : Op DriftGuardState := fun st => (Return st, st).

Definition putState (st' : DriftGuardState) : Op unit := fun _ => (Return tt, st').

Definition modify (f : DriftGuardState -> DriftGuardState) : Op unit :=
  fun st => (Return tt, f st).

Definition modifySession (f : DriftSession -> DriftSession) : Op unit :=
  modify (fun st => with_session st (f (session st))).

Declare Scope op_scope.
Delimit Scope op_scope with op.
Notation "x <- c1 ;; c2" := (bind c1 (fun x => c2))
  (at level 61, c1 at next level, right associativity) : op_scope.
Notation "c1 ;; c2" := (bind c1 (fun _ => c2))
  (at level 61, right associativity) : op_scope.
Open Scope op_scope.

Definition outcome {A : Type} (r : Outcome A * DriftGuardState) : Outcome A := fst r.
Definition after {A : Type} (r : Outcome A * DriftGuardState) : DriftGuardState := snd r.

Definition nat_to_string (n : nat) : string :=
  DecimalString.NilZero.string_of_uint (Nat.to_uint n).

Definition Z_to_string (z : Z) : string :=
  DecimalString.NilZero.string_of_int (Z.to_int z).

(* ================================================================= *)
(** ** Risk analyzer ([risk.ts]) *)

Record RiskResult : Type := mkRiskResult {
  score : Z;
  reason : string
}.

(** [new Set(xs).size] *)
Definition distinct_count (xs : list string) : Z :=
  Z.of_nat (List.length (nodup string_dec xs)).

Definition isTestPath (targetPath : string) : bool :=
  includes "test" (toLowerCase targetPath) || includes "spec" (toLowerCase targetPath).

(** The score computed from a commit count and an author count, in the order
    the code applies its steps: base, deduction for tests, cap. *)
Definition riskScoreOf (commitCount authors : Z) (isTest : bool) : Z :=
  let score := (commitCount * 2 + authors * 5)%Z in
  let score := if isTest then Z.max 0 (score - 20) else score in
  Z.min 100 score.

Definition riskReason (commitCount authors score : Z) : string :=
  if (70 <? score)%Z then
    "🔥 CRITICAL HOTSPOT: " ++ Z_to_string commitCount ++ " commits, "
      ++ Z_to_string authors ++ " authors"
  else if (40 <? score)%Z then
    "⚠️ High activity: " ++ Z_to_string commitCount ++ " commits"
  else if (20 <? score)%Z then "Moderate activity"
  else "Low activity (" ++ Z_to_string commitCount ++ " commits)".

Definition calculateRisk (e : Env) (targetPath : string) : RiskResult :=
  if negb (isGitRepo e) then mkRiskResult 0 "Not a git repository"
  else
    match gitLog e targetPath with
    | Some logs =>
        let commitCount := total logs in
        let authors := distinct_count (all logs) in
        let score := riskScoreOf commitCount authors (isTestPath targetPath) in
        mkRiskResult score (riskReason commitCount authors score)
    | None => mkRiskResult 0 "Error accessing git logs"
    end.

(* ================================================================= *)
(** ** The engine, for a given glob matcher *)

Section DriftGuard.

(** [minimatch(path, pattern)] *)
Variable minimatch : string -> string -> bool.

(* ----------------------------------------------------------------- *)
(** *** Scope manager ([scope.ts]) *)

Definition checkOverlap (pathA pathB : string) : bool :=
  if String.eqb pathA pathB then true
  else if minimatch pathA pathB then true
  else if minimatch pathB pathA then true
  else false.

(** The two [continue] guards of [checkConflict]: the claim is the
    requestor's own, or it belongs to the requestor's parent task. *)
Definition ownedByRequestor (requestorTaskId : string) (claim : ScopeClaim) : bool :=
  String.eqb (ownerTaskId claim) requestorTaskId.

Definition ownedByParent (requestorTaskId : string) (tasks : Tasks) (claim : ScopeClaim) : bool :=
  match JsObject.get tasks requestorTaskId with
  | Some requestorTask => opt_strict_eq (parentTaskId requestorTask) (ownerTaskId claim)
  | None => false
  end.

Fixpoint checkConflict (requestedPath requestorTaskId : string)
  (activeClaims : list ScopeClaim) (tasks : Tasks) : option ScopeClaim :=
  match activeClaims with
  | [] => None
  | claim :: rest =>
      if ownedByRequestor requestorTaskId claim then
        checkConflict requestedPath requestorTaskId rest tasks
      else if ownedByParent requestorTaskId tasks claim then
        checkConflict requestedPath requestorTaskId rest tasks
      else if checkOverlap requestedPath (path claim) then
        (if exclusive claim then Some claim else Some claim)
      else checkConflict requestedPath requestorTaskId rest tasks
  end.

(** The inner loop of [validateDelegation]: is [childPath] covered by one of
    the parent patterns? *)
Fixpoint covered (childPath : string) (parentScope : list string) : bool :=
  match parentScope with
  | [] => false
  | parentPath :: rest =>
      if minimatch childPath parentPath || String.eqb childPath parentPath then true
      else covered childPath rest
  end.

Fixpoint validateDelegation (parentScope childScope : list string) : bool :=
  match childScope with
  | [] => true
  | childPath :: rest =>
      if covered childPath parentScope then validateDelegation parentScope rest
      else false
  end.

(* ----------------------------------------------------------------- *)
(** *** State manager ([state.ts]): private helpers *)

Definition STATE_VERSION : string := "3.0.0".

Definition createInitialState (e : Env) : DriftGuardState :=
  mkDriftGuardState STATE_VERSION
    (mkDriftSession (uuid e) (nowMs e) IDLE None None false false
       (Some []) (Some JsObject.empty))
    JsObject.empty [].

Definition log (e : Env) (action : string) (taskId details : option string) : Op unit :=
  modify (fun st =>
    let pushed := (logs st ++ [mkLogEntry (now e) action taskId details])%list in
    with_logs st
      (if (100 <? List.length pushed)%nat then slice_last 100 pushed else pushed)).

(** [syncToDisk] writes [tasks.json] and [ACTIVE_PLAN.md]; the in-memory
    state is left as it is. *)
Definition syncToDisk : Op unit := ret tt.

Definition validateTransition (action : string) (allowedFrom : list FocusState) : Op unit :=
  st <- getState ;;
  if existsb (FocusState_eqb (currentState (session st))) allowedFrom then ret tt
  else throw (StateTransitionError action (currentState (session st)) allowedFrom).

Definition refreshActiveClaims : Op unit :=
  modify (fun st =>
    let claims :=
      fold_left
        (fun acc task =>
           match claims task with
           | Some cs => (acc ++ cs)%list
           | None => acc
           end)
        (JsObject.values (tasks st)) [] in
    with_session st (with_activeClaims (session st) (Some claims))).

Definition calculateFileHashes (e : Env) (patterns : list string) : Hashes :=
  match patterns with
  | [] => JsObject.empty
  | _ =>
      fold_left
        (fun hashes file =>
           match readHash e file with
           | Some hash => assign hashes file hash
           | None => hashes
           end)
        (listFiles e patterns) JsObject.empty
  end.

(** [this.state.session.lastKnownFileHashes = {...(old || {}), ...hashes}] *)
Definition mergeKnownHashes (hashes : Hashes) : Op unit :=
  modifySession (fun s =>
    with_lastKnownFileHashes s
      (Some (JsObject.spread
               (match lastKnownFileHashes s with Some h => h | None => JsObject.empty end)
               hashes))).

(** In-place mutation of the task object stored under [key]. *)
Definition mutateTask (key : string) (f : TaskContract -> TaskContract) : Op unit :=
  modify (fun st =>
    match JsObject.get (tasks st) key with
    | Some task => with_tasks st (JsObject.set (tasks st) key (f task))
    | None => st
    end).

(** [const taskId = activeTaskId; if (!taskId || !tasks[taskId]) throw ...] *)
Definition requireActiveTask : Op (string * TaskContract) :=
  st <- getState ;;
  match activeTaskId (session st) with
  | Some taskId =>
      if String.eqb taskId "" then throw (PlainError "No active task found")
      else match JsObject.get (tasks st) taskId with
           | Some task => ret (taskId, task)
           | None => throw (PlainError "No active task found")
           end
  | None => throw (PlainError "No active task found")
  end.

(* ----------------------------------------------------------------- *)
(** *** State manager: public API *)

Record ChecklistInput : Type := mkChecklistInput {
  item_id : string;
  item_text : string
}.

(** [allowedScopes || ['**']] is [allowedScopes]: an array is never falsy. *)
Definition proposeTask (e : Env) (title goal : string) (allowedScopes : list string)
  (checklist : list ChecklistInput) (strictness : option StrictnessLevel)
  : Op TaskContract :=
  validateTransition "dg_propose_task" [IDLE] ;;
  let taskId := "task_" ++ str_slice0 8 (uuid e) in
  let newTask :=
    mkTaskContract taskId title goal allowedScopes
      (map (fun item => mkChecklistItem (item_id item) (item_text item) todo) checklist)
      (match strictness with Some s => s | None => L2_LOGGED end)
      None None None None (Some []) (Some []) None (now e) (now e) in
  modify (fun st => with_tasks st (JsObject.set (tasks st) taskId newTask)) ;;
  modifySession (fun s => with_activeTaskId s (Some taskId)) ;;
  log e "dg_propose_task" (Some taskId) (Some ("Task proposed: " ++ title)) ;;
  syncToDisk ;;
  ret newTask.

Record StepResult : Type := mkStepResult {
  step_taskId : string;
  step_stepId : string;
  step_state : FocusState
}.

Definition beginStep (e : Env) (stepId : option string) : Op StepResult :=
  validateTransition "dg_begin_step" [PLANNING; IDLE] ;;
  st <- getState ;;
  if negb (truthy (activeTaskId (session st))) then
    throw (PlainError "No active task. Use dg_propose_task first.")
  else
    let taskId := match activeTaskId (session st) with Some i => i | None => "" end in
    let activeStepId :=
      match stepId with
      | Some s => s
      | None => "step_" ++ str_slice0 8 (uuid e)
      end in
    modifySession (fun s => with_activeStepId s (Some activeStepId)) ;;
    modifySession (fun s => with_currentState s EXECUTING) ;;
    log e "dg_begin_step" (Some taskId) (Some ("Started step: " ++ activeStepId)) ;;
    syncToDisk ;;
    ret (mkStepResult taskId activeStepId EXECUTING).

Record CheckpointResult : Type := mkCheckpointResult {
  cp_taskId : string;
  completedItems : nat;
  totalItems : nat;
  gitNoteWritten : bool
}.

(** [const item = checklist.find(i => i.id === id); if (item) item.status = 'done'] *)
Fixpoint markDone (completedId : string) (items : list ChecklistItem) : list ChecklistItem :=
  match items with
  | [] => []
  | item :: rest =>
      if String.eqb (id item) completedId then with_status item done :: rest
      else item :: markDone completedId rest
  end.

Definition isDone (item : ChecklistItem) : bool :=
  match status item with done => true | todo => false end.

Definition checkpoint (e : Env) (summary : string) (completedChecklistIds : list string)
  : Op CheckpointResult :=
  validateTransition "dg_checkpoint" [EXECUTING] ;;
  st <- getState ;;
  if negb (intentFiled (session st)) then throw IntentMissingError
  else
    active <- requireActiveTask ;;
    let taskId := fst active in
    let task := snd active in
    let items := fold_left (fun items cid => markDone cid items) completedChecklistIds (checklist task) in
    mutateTask taskId (fun t => with_updatedAt (with_checklist t items) (now e)) ;;
    let allDone := forallb isDone items in
    let changedFiles := getChangedFiles e in
    let result :=
      mkCheckpointResult taskId (List.length (filter isDone items)) (List.length items)
        (if isGitRepo e && negb (List.length changedFiles =? 0)%nat then writeNote e else false) in
    match claims task with
    | Some cs =>
        mergeKnownHashes (calculateFileHashes e (map path cs)) ;;
        mutateTask taskId (fun t => with_claims t (Some [])) ;;
        refreshActiveClaims
    | None => ret tt
    end ;;
    modifySession (fun s => with_currentState s IDLE) ;;
    modifySession (fun s => with_activeStepId s None) ;;
    modifySession (fun s => with_intentFiled s false) ;;
    modifySession (fun s => with_isVerified s false) ;;
    (if allDone then modifySession (fun s => with_activeTaskId s None) else ret tt) ;;
    log e "dg_checkpoint" (Some taskId) (Some summary) ;;
    syncToDisk ;;
    ret result.

Record HelpPacket : Type := mkHelpPacket {
  currentTaskGoal : option string;
  lastLogs : list LogEntry;
  panicReason : string;
  hp_currentState : FocusState
}.

Definition panic (e : Env) (reason : string) : Op HelpPacket :=
  st <- getState ;;
  let taskId := activeTaskId (session st) in
  let task :=
    if truthy taskId
    then match taskId with Some i => JsObject.get (tasks st) i | None => None end
    else None in
  modifySession (fun s => with_currentState s PANIC) ;;
  log e "dg_panic" taskId (Some reason) ;;
  syncToDisk ;;
  st' <- getState ;;
  ret (mkHelpPacket
         (match task with Some t => Some (goal t) | None => None end)
         (slice_last 3 (logs st')) reason PANIC).

Definition reportIntent (e : Env) (intent : string) (filesToTouch : list string)
  : Op StepResult :=
  validateTransition "dg_report_intent" [PLANNING; IDLE] ;;
  st <- getState ;;
  if negb (truthy (activeTaskId (session st))) then
    throw (PlainError "No active task. Use dg_propose_task first.")
  else
    let taskId := match activeTaskId (session st) with Some i => i | None => "" end in
    match JsObject.get (tasks st) taskId with
    | None => throw TypeError
    | Some _ =>
        mutateTask taskId (fun t => with_updatedAt (with_intent t intent filesToTouch) (now e)) ;;
        let stepId := "step_" ++ str_slice0 8 (uuid e) in
        modifySession (fun s => with_activeStepId s (Some stepId)) ;;
        modifySession (fun s => with_currentState s EXECUTING) ;;
        modifySession (fun s => with_intentFiled s true) ;;
        log e "dg_report_intent" (Some taskId) (Some (str_slice0 100 intent)) ;;
        syncToDisk ;;
        ret (mkStepResult taskId stepId EXECUTING)
    end.

Record VerifyResult : Type := mkVerifyResult {
  success : bool;
  command : string;
  vr_stdout : string;
  vr_stderr : string;
  exitCode : Z
}.

(** [echo "No test command configured"] *)
Definition NO_TEST_COMMAND : string :=
  "echo " ++ String (ascii_of_nat 34) "No test command configured"
    ++ String (ascii_of_nat 34) "".

Definition orDefault (s : option string) (d : string) : string :=
  if truthy s then match s with Some x => x | None => d end else d.

Definition verify (e : Env) : Op VerifyResult :=
  validateTransition "dg_verify" [EXECUTING] ;;
  active <- requireActiveTask ;;
  let taskId := fst active in
  let task := snd active in
  let command := orDefault (testCommand task) NO_TEST_COMMAND in
  let result :=
    match execAsync e command with
    | ExecResolved out err => mkVerifyResult true command out err 0
    | ExecRejected code out err message =>
        mkVerifyResult false command (orDefault out "")
          (orDefault err (orDefault (Some message) ""))
          (match code with
           | Some c => if (c =? 0)%Z then 1%Z else c
           | None => 1%Z
           end)
    end in
  modifySession (fun s => with_isVerified s (success result)) ;;
  log e "dg_verify" (Some taskId) (Some (if success result then "PASS" else "FAIL")) ;;
  syncToDisk ;;
  ret result.

Record ExplainResult : Type := mkExplainResult {
  er_intent : string;
  changes : string;
  verification : string;
  diffSummary : string
}.

Definition explainChange (e : Env) : Op ExplainResult :=
  validateTransition "dg_explain_change" [EXECUTING] ;;
  active <- requireActiveTask ;;
  let taskId := fst active in
  let task := snd active in
  let diffSummary := getDiffStat e in
  let changedFiles := getChangedFiles e in
  let n := List.length changedFiles in
  let intent := orDefault (lastIntent task) "No intent was declared" in
  let changes :=
    if (0 <? n)%nat then
      "Modified " ++ nat_to_string n ++ " file(s): " ++ join ", " (firstn 5 changedFiles)
        ++ (if (5 <? n)%nat then "..." else "")
    else "No files changed" in
  let verification :=
    if truthy (testCommand task) then
      "Run: `" ++ orDefault (testCommand task) "" ++ "`"
    else "No test command configured. Consider adding one with dg_propose_task." in
  log e "dg_explain_change" (Some taskId) (Some (nat_to_string n ++ " files changed")) ;;
  ret (mkExplainResult intent changes verification diffSummary).

Definition setTestCommand (e : Env) (command : string) : Op unit :=
  active <- requireActiveTask ;;
  let taskId := fst active in
  mutateTask taskId (fun t => with_updatedAt (with_testCommand t command) (now e)) ;;
  log e "set_test_command" (Some taskId) (Some command) ;;
  syncToDisk.

Record ClaimResult : Type := mkClaimResult {
  granted : bool;
  conflicts : list ScopeClaim
}.

(** The [for (const path of paths)] loop of [claimScope]: the conflicts found
    and the claims prepared, both in request order. *)
Fixpoint claimLoop (e : Env) (exclusive : bool) (taskId : string)
  (allActiveClaims : list ScopeClaim) (tasks : Tasks) (paths : list string)
  : list ScopeClaim * list ScopeClaim :=
  match paths with
  | [] => ([], [])
  | path :: rest =>
      let r := claimLoop e exclusive taskId allActiveClaims tasks rest in
      match checkConflict path taskId allActiveClaims tasks with
      | Some conflict => (conflict :: fst r, snd r)
      | None => (fst r, mkScopeClaim path exclusive taskId (nowMs e) :: snd r)
      end
  end.

Definition claimScope (e : Env) (paths : list string) (exclusive : bool) : Op ClaimResult :=
  st <- getState ;;
  if negb (truthy (activeTaskId (session st))) then
    throw (PlainError "No active task to claim scope for.")
  else
    let taskId := match activeTaskId (session st) with Some i => i | None => "" end in
    match JsObject.get (tasks st) taskId with
    | None => throw TypeError
    | Some task =>
        (match claims task with
         | Some _ => ret tt
         | None => mutateTask taskId (fun t => with_claims t (Some []))
         end) ;;
        st1 <- getState ;;
        let allActiveClaims := orEmpty (activeClaims (session st1)) in
        let r := claimLoop e exclusive taskId allActiveClaims (tasks st1) paths in
        let conflicts := fst r in
        let newClaims := snd r in
        if (0 <? List.length conflicts)%nat then ret (mkClaimResult false conflicts)
        else
          mutateTask taskId
            (fun t => with_claims t (Some (orEmpty (claims t) ++ newClaims)%list)) ;;
          refreshActiveClaims ;;
          st2 <- getState ;;
          let activePatterns :=
            match JsObject.get (tasks st2) taskId with
            | Some t => map path (orEmpty (claims t))
            | None => []
            end in
          mergeKnownHashes (calculateFileHashes e activePatterns) ;;
          log e "dg_claim_scope" (Some taskId)
            (Some ("Granted active claims: " ++ join ", " (map path newClaims))) ;;
          syncToDisk ;;
          ret (mkClaimResult true [])
    end.

Definition delegateTask (e : Env) (subTaskTitle subTaskGoal : string) (subScope : list string)
  : Op TaskContract :=
  validateTransition "dg_delegate" [EXECUTING] ;;
  st <- getState ;;
  (* [tasks[activeTaskId!]]: an unset id indexes the property "undefined" *)
  let parentKey := match activeTaskId (session st) with Some i => i | None => "undefined" end in
  match JsObject.get (tasks st) parentKey with
  | None => throw TypeError
  | Some parentTask =>
      let parentClaims := map path (orEmpty (claims parentTask)) in
      if negb (validateDelegation parentClaims subScope)
         && (0 <? List.length parentClaims)%nat
      then throw (PlainError
        "Delegation Failed: Child scope is not contained within Parent's active claims.")
      else
        let subTaskId := "sub_" ++ str_slice0 8 (uuid e) in
        let subTask :=
          mkTaskContract subTaskId subTaskTitle subTaskGoal subScope []
            (strictness parentTask) None None None
            (activeTaskId (session st)) (Some []) (Some []) None (now e) (now e) in
        mutateTask parentKey
          (fun t => with_subTaskIds t (orEmpty (subTaskIds t) ++ [subTaskId])%list) ;;
        modify (fun st => with_tasks st (JsObject.set (tasks st) subTaskId subTask)) ;;
        log e "dg_delegate" (activeTaskId (session st))
          (Some ("Delegated sub-task " ++ subTaskId ++ ": " ++ subTaskTitle)) ;;
        syncToDisk ;;
        ret subTask
  end.

Definition analyzeRisk (e : Env) (targetPath : string) : Op RiskResult :=
  let result := calculateRisk e targetPath in
  st <- getState ;;
  if truthy (activeTaskId (session st)) then
    let taskId := match activeTaskId (session st) with Some i => i | None => "" end in
    match JsObject.get (tasks st) taskId with
    | None => throw TypeError
    | Some _ =>
        mutateTask taskId
          (fun t => with_riskScore t
             (Z.max (match riskScore t with Some r => r | None => 0%Z end) (score result))) ;;
        ret result
    end
  else ret result.

Inductive HealthStatus : Type := CLEAN | DIRTY | NO_CLAIMS.

Record HealthResult : Type := mkHealthResult {
  health_status : HealthStatus;
  dirtyFiles : list string
}.

(** First loop of [healthCheck], over [Object.entries(currentHashes)]. *)
Definition modifiedOrNew (knownHashes : Hashes) (entry : string * string) : list string :=
  let file := fst entry in
  let currentHash := snd entry in
  let known := lookup knownHashes file in
  if falsy known then [file ++ " (NEW)"]
  else if differs known currentHash then [file ++ " (MODIFIED)"]
  else [].

(** Second loop of [healthCheck], over [Object.entries(knownHashes)]. *)
Definition deletedInScope (currentHashes : Hashes) (patterns : list string)
  (entry : string * string) : list string :=
  let file := fst entry in
  if falsy (lookup currentHashes file) then
    if existsb (fun p => minimatch file p) patterns then [file ++ " (DELETED)"] else []
  else [].

Definition healthCheck (e : Env) : Op HealthResult :=
  st <- getState ;;
  let claims := orEmpty (activeClaims (session st)) in
  if (List.length claims =? 0)%nat then ret (mkHealthResult NO_CLAIMS [])
  else
    let patterns := map path claims in
    let currentHashes := calculateFileHashes e patterns in
    let knownHashes :=
      match lastKnownFileHashes (session st) with
      | Some h => h
      | None => JsObject.empty
      end in
    let dirtyFiles :=
      (flat_map (modifiedOrNew knownHashes) (JsObject.enumerate currentHashes)
       ++ flat_map (deletedInScope currentHashes patterns)
            (JsObject.enumerate knownHashes))%list in
    if (0 <? List.length dirtyFiles)%nat then ret (mkHealthResult DIRTY dirtyFiles)
    else ret (mkHealthResult CLEAN []).

Record HandoffPacket : Type := mkHandoffPacket {
  ho_taskId : string;
  ho_status : FocusState;
  planSummary : string;
  ho_activeClaims : list string;
  lastSteps : list string;
  verificationStatus : string
}.

Definition generateHandoff : Op HandoffPacket :=
  st <- getState ;;
  let taskId := activeTaskId (session st) in
  let task :=
    if truthy taskId
    then match taskId with Some i => JsObject.get (tasks st) i | None => None end
    else None in
  let planSummary :=
    match task with
    | Some t =>
        nat_to_string (List.length (filter isDone (checklist t))) ++ " of "
          ++ nat_to_string (List.length (checklist t)) ++ " items completed. Goal: " ++ goal t
    | None => "No active task"
    end in
  ret (mkHandoffPacket (orDefault taskId "None") (currentState (session st)) planSummary
         (map path (orEmpty (activeClaims (session st))))
         (map (fun l => "[" ++ action l ++ "] " ++ orDefault (details l) "")
              (slice_last 3 (logs st)))
         (if isVerified (session st) then "VERIFIED" else "PENDING")).

(** [hydrate] on the directories [Disk] describes; [hydrateFrom] below is
    the method on any content of the directory. *)
Definition hydrate (e : Env) : Op bool :=
  match disk e with
  | Snapshot parsed =>
      (if negb (String.eqb (version parsed) STATE_VERSION) then
         log e "hydrate" None
           (Some ("Version mismatch: " ++ version parsed ++ " vs " ++ STATE_VERSION))
       else ret tt) ;;
      putState parsed ;;
      log e "hydrate" None (Some "Session restored from disk") ;;
      ret true
  | _ => ret false
  end.

Inductive InitStatus : Type := created | exists_.

Record InitResult : Type := mkInitResult {
  init_status : InitStatus;
  init_path : string;
  recommendedStrictness : StrictnessLevel;
  init_reason : string
}.

(** [initialize(projectPath?)]: the [Env] describes the project directory the
    call ends up looking at, one of those [Disk] describes; [initializeOn]
    below is the method on any content of the directory. *)
Definition initialize (e : Env) : Op InitResult :=
  let status := match disk e with NoDirectory => created | _ => exists_ end in
  (match status with
   | exists_ => hydrate e ;; ret tt
   | created => ret tt
   end) ;;
  (match status with
   | created => putState (createInitialState e)
   | exists_ => ret tt
   end) ;;
  log e "dg_init" None (Some ("Initialized at " ++ driftGuardPath e)) ;;
  syncToDisk ;;
  ret (mkInitResult status (driftGuardPath e)
         (fst (scanForStrictness e)) (snd (scanForStrictness e))).

Definition reset (e : Env) : Op unit :=
  putState (createInitialState e) ;;
  log e "reset" None (Some "State reset") ;;
  syncToDisk.




(* ----------------------------------------------------------------- *)
(** *** The public API as one request type *)

(** One constructor per public method that reads or writes the state. The
    getters ([getState], [getSession], [getProjectPath], [isInitialized])
    and [getTimeline], which only queries git, are left out. *)
Inductive Request : Type :=
| Initialize
| Hydrate
| ProposeTask (title goal : string) (allowedScopes : list string)
    (checklist : list ChecklistInput) (strictness : option StrictnessLevel)
| BeginStep (stepId : option string)
| Checkpoint (summary : string) (completedChecklistIds : list string)
| Panic (reason : string)
| ReportIntent (intent : string) (filesToTouch : list string)
| Verify
| ExplainChange
| SetTestCommand (command : string)
| ClaimScope (paths : list string) (exclusive : bool)
| DelegateTask (subTaskTitle subTaskGoal : string) (subScope : list string)
| AnalyzeRisk (targetPath : string)
| HealthCheck
| GenerateHandoff
| ResetState.

Definition discard {A : Type} (m : Op A) : Op unit := _ <- m ;; ret tt.

(** Runs a request for its effect on the state. *)
Definition perform (e : Env) (r : Request) : Op unit :=
  match r with
  | Initialize => discard (initialize e)
  | Hydrate => discard (hydrate e)
  | ProposeTask t g a c s => discard (proposeTask e t g a c s)
  | BeginStep s => discard (beginStep e s)
  | Checkpoint s c => discard (checkpoint e s c)
  | Panic r => discard (panic e r)
  | ReportIntent i f => discard (reportIntent e i f)
  | Verify => discard (verify e)
  | ExplainChange => discard (explainChange e)
  | SetTestCommand c => discard (setTestCommand e c)
  | ClaimScope p x => discard (claimScope e p x)
  | DelegateTask t g s => discard (delegateTask e t g s)
  | AnalyzeRisk p => discard (analyzeRisk e p)
  | HealthCheck => discard (healthCheck e)
  | GenerateHandoff => discard generateHandoff
  | ResetState => reset e
  end.

(** The operations that the transition table guards, and the one that is
    allowed everywhere. *)
Definition guarded (r : Request) : bool :=
  match r with
  | ProposeTask _ _ _ _ _ | BeginStep _ | ReportIntent _ _ | Checkpoint _ _
  | Verify | ExplainChange | DelegateTask _ _ _ => true
  | _ => false
  end.

(* ================================================================= *)
(** ** Vocabulary of the specification *)

(** A claim takes part in the conflict test when neither guard skips it. *)
Definition considered (requestorTaskId : string) (tasks : Tasks) (claim : ScopeClaim) : bool :=
  negb (ownedByRequestor requestorTaskId claim)
  && negb (ownedByParent requestorTaskId tasks claim).

(** The exclusivity flag of a claim, rewritten. *)
Definition with_exclusive (c : ScopeClaim) (x : bool) : ScopeClaim :=
  mkScopeClaim (path c) x (ownerTaskId c) (claimCreatedAt c).

(** Every child pattern is covered by some parent pattern. *)
Definition contained (parentScope childScope : list string) : Prop :=
  Forall (fun childPath =>
            Exists (fun parentPath =>
                      childPath = parentPath \/ minimatch childPath parentPath = true)
                   parentScope)
         childScope.

(** [m] relates every state to the state it leaves behind, whether it
    returns or throws. *)
Definition respects {A : Type} (R : DriftGuardState -> DriftGuardState -> Prop)
  (m : Op A) : Prop :=
  forall st, R st (after (m st)).

(** Either the log is untouched, or it holds at most 100 entries. *)
Definition logKept (st st' : DriftGuardState) : Prop :=
  logs st' = logs st \/ (List.length (logs st') <= 100)%nat.

(** Requests that replace the whole state: a reset, or a (re)load of the
    snapshot on disk. *)
Definition reloads (r : Request) : bool :=
  match r with
  | Initialize | Hydrate | ResetState => true
  | _ => false
  end.


(** Once in PANIC, still in PANIC. *)
Definition staysInPanic (st st' : DriftGuardState) : Prop :=
  currentState (session st) = PANIC -> currentState (session st') = PANIC.

(** The conflicting claims of a request, in request order. *)
Definition conflictsFound (conflictOf : string -> option ScopeClaim) (paths : list string)
  : list ScopeClaim :=
  flat_map (fun p => match conflictOf p with Some c => [c] | None => [] end) paths.

(** The claim list of every task, an absent list read as empty. *)
Definition claimLists (tasks : Tasks) : list (string * list ScopeClaim) :=
  map (fun kv => (fst kv, orEmpty (claims (snd kv)))) tasks.

(** [if (!task.claims) task.claims = []], as a state. *)
Definition withClaimsArray (st : DriftGuardState) (tid : string) (task : TaskContract)
  : DriftGuardState :=
  match claims task with
  | Some _ => st
  | None => with_tasks st (JsObject.set (tasks st) tid (with_claims task (Some [])))
  end.

(** The session with its focus state replaced. *)
Definition inFocus (st : DriftGuardState) (f : FocusState) : DriftGuardState :=
  with_session st (with_currentState (session st) f).

(** The data-model invariant: the active task id, when set, is a non-empty
    key of the task registry. *)
Definition sessionInvariant (st : DriftGuardState) : Prop :=
  forall tid, activeTaskId (session st) = Some tid ->
    tid <> "" /\ exists task, JsObject.get (tasks st) tid = Some task.

Definition DELEGATION_FAILED : string :=
  "Delegation Failed: Child scope is not contained within Parent's active claims.".

(** The task record [delegateTask] builds. *)
Definition subTaskOf (e : Env) (subTaskTitle subTaskGoal : string) (subScope : list string)
  (parentTaskId : string) (parentTask : TaskContract) : TaskContract :=
  mkTaskContract ("sub_" ++ str_slice0 8 (uuid e)) subTaskTitle subTaskGoal subScope []
    (strictness parentTask) None None None (Some parentTaskId) (Some []) (Some []) None
    (now e) (now e).

Inductive Drift : Type := NEW | MODIFIED | DELETED.

Definition driftLabel (d : Drift) : string :=
  match d with
  | NEW => "NEW"
  | MODIFIED => "MODIFIED"
  | DELETED => "DELETED"
  end.

(** [`${file} (LABEL)`] *)
Definition annotate (finding : string * Drift) : string :=
  fst finding ++ " (" ++ driftLabel (snd finding) ++ ")".

(** The drift report in the specification's words: a path present now and
    absent from the cache is NEW, one present in both with a different hash
    is MODIFIED, one present in the cache, absent now and matched by an
    active claim pattern is DELETED. Present and absent are said of the
    object's own properties. *)
Definition driftFindings (known current : Hashes) (patterns : list string)
  : list (string * Drift) :=
  (flat_map
     (fun entry =>
        match JsObject.get known (fst entry) with
        | None => [(fst entry, NEW)]
        | Some k => if String.eqb k (snd entry) then [] else [(fst entry, MODIFIED)]
        end)
     (JsObject.enumerate current)
   ++ flat_map
        (fun entry =>
           match JsObject.get current (fst entry) with
           | None =>
               if existsb (fun p => minimatch (fst entry) p) patterns
               then [(fst entry, DELETED)] else []
           | Some _ => []
           end)
        (JsObject.enumerate known))%list.

(** The findings of [healthCheck], before they are printed. *)
Definition reportedDrift (known current : Hashes) (patterns : list string)
  : list (string * Drift) :=
  (flat_map
     (fun entry =>
        if falsy (lookup known (fst entry)) then [(fst entry, NEW)]
        else if differs (lookup known (fst entry)) (snd entry)
             then [(fst entry, MODIFIED)] else [])
     (JsObject.enumerate current)
   ++ flat_map
        (fun entry =>
           if falsy (lookup current (fst entry)) then
             if existsb (fun p => minimatch (fst entry) p) patterns
             then [(fst entry, DELETED)] else []
           else [])
        (JsObject.enumerate known))%list.

(** No file of the two hash objects bears a name of [Object.prototype]. *)
Definition plainNames (known current : Hashes) : Prop :=
  forall file, In file (JsObject.keys current ++ JsObject.keys known)%list ->
    inherited file = false.

(** Every recorded hash is a non-empty string, as every digest is. *)
Definition nonEmptyHashes (h : Hashes) : Prop :=
  forall file hash, In (file, hash) h -> hash <> "".

(** The md5 digests the file system hands out are non-empty. *)
Definition digestsNonEmpty (e : Env) : Prop :=
  forall file hash, readHash e file = Some hash -> hash <> "".

Definition knownHashes (st : DriftGuardState) : Hashes :=
  match lastKnownFileHashes (session st) with
  | Some h => h
  | None => JsObject.empty
  end.

(** What every session built by the operations satisfies: the data-model
    invariant on the active task, and a cache of non-empty hashes. *)
Definition wellFormed (st : DriftGuardState) : Prop :=
  sessionInvariant st /\ nonEmptyHashes (knownHashes st).

(** The snapshot on disk, if any, is a well-formed session. *)
Definition diskWellFormed (e : Env) : Prop :=
  match disk e with
  | Snapshot parsed => wellFormed parsed
  | _ => True
  end.

Definition keepsWellFormed (st st' : DriftGuardState) : Prop :=
  wellFormed st -> wellFormed st'.

(** The score in the claim's words: capped at 100 first, then 20 taken off
    for a test or spec file, not going below 0. *)
Definition claimedRiskScore (c a : Z) (isTest : bool) : Z :=
  let score := Z.min 100 (2 * c + 5 * a) in
  if isTest then Z.max 0 (score - 20) else score.

(* ----------------------------------------------------------------- *)
(** *** Transition table and errors *)

(** The action name a guarded method passes to [validateTransition]. *)
Definition actionName (r : Request) : string :=
  match r with
  | ProposeTask _ _ _ _ _ => "dg_propose_task"
  | BeginStep _ => "dg_begin_step"
  | ReportIntent _ _ => "dg_report_intent"
  | Checkpoint _ _ => "dg_checkpoint"
  | Verify => "dg_verify"
  | ExplainChange => "dg_explain_change"
  | DelegateTask _ _ _ => "dg_delegate"
  | _ => ""
  end.

(** The states a guarded method passes to [validateTransition]. *)
Definition allowedFrom (r : Request) : list FocusState :=
  match r with
  | ProposeTask _ _ _ _ _ => [IDLE]
  | BeginStep _ | ReportIntent _ _ => [PLANNING; IDLE]
  | Checkpoint _ _ | Verify | ExplainChange | DelegateTask _ _ _ => [EXECUTING]
  | _ => [IDLE; PLANNING; EXECUTING; VALIDATING; PANIC]
  end.

(** Every error [m] can throw satisfies [P]. *)
Definition throwsOnly {A : Type} (P : Error -> Prop) (m : Op A) : Prop :=
  forall st err, outcome (m st) = Throw err -> P err.





Definition isStateTransitionError (err : Error) : bool :=
  match err with
  | StateTransitionError _ _ _ => true
  | _ => false
  end.

(* ----------------------------------------------------------------- *)
(** *** Steps, intents and checkpoints *)

(** [completedChecklistIds.forEach(id => ...)] of [checkpoint]. *)
Definition markAllDone (completedChecklistIds : list string) (items : list ChecklistItem)
  : list ChecklistItem :=
  fold_left (fun items cid => markDone cid items) completedChecklistIds items.

Definition doneCount (items : list ChecklistItem) : nat :=
  List.length (filter isDone items).

(** A step is open and no intent is filed. *)
Definition executingWithoutIntent (st : DriftGuardState) : Prop :=
  currentState (session st) = EXECUTING /\ intentFiled (session st) = false.

Definition staysWithoutIntent (st st' : DriftGuardState) : Prop :=
  executingWithoutIntent st -> executingWithoutIntent st'.

Definition isPanic (r : Request) : bool :=
  match r with
  | Panic _ => true
  | _ => false
  end.

(* ----------------------------------------------------------------- *)
(** *** Exclusion of scopes *)

(** The claims the tasks hold, task after task. *)
Definition heldClaims (tasks : Tasks) : list ScopeClaim :=
  flat_map (fun t => orEmpty (claims t)) (JsObject.values tasks).

Definition parentOf (tasks : Tasks) (child parent : string) : Prop :=
  exists t, JsObject.get tasks child = Some t /\ parentTaskId t = Some parent.

(** The same task, or a task and its parent. *)
Definition related (tasks : Tasks) (a b : string) : Prop :=
  a = b \/ parentOf tasks a b \/ parentOf tasks b a.

(** Every claim a task holds is in the session's list of active claims, and
    two claims of that list that overlap belong to related tasks. *)
Definition scopesExclusive (st : DriftGuardState) : Prop :=
  (forall c, In c (heldClaims (tasks st)) -> In c (orEmpty (activeClaims (session st))))
  /\ (forall c1 c2,
        In c1 (orEmpty (activeClaims (session st))) ->
        In c2 (orEmpty (activeClaims (session st))) ->
        checkOverlap (path c1) (path c2) = true ->
        related (tasks st) (ownerTaskId c1) (ownerTaskId c2)).

Definition keepsExclusive (st st' : DriftGuardState) : Prop :=
  scopesExclusive st -> scopesExclusive st'.

(** The snapshot on disk, if any, has exclusive scopes. *)
Definition diskExclusive (e : Env) : Prop :=
  match disk e with
  | Snapshot parsed => scopesExclusive parsed
  | _ => True
  end.

(** The task id a request generates from [uuidv4()]. *)
Definition mintedId (e : Env) (r : Request) : option string :=
  match r with
  | ProposeTask _ _ _ _ _ => Some ("task_" ++ str_slice0 8 (uuid e))
  | DelegateTask _ _ _ => Some ("sub_" ++ str_slice0 8 (uuid e))
  | _ => None
  end.

(** Ids generated by [proposeTask]: [`task_${...}`]. *)
Definition isRootId (k : string) : bool := String.prefix "task_" k.

(** The task registered under [k] holds the claim [c]: [c] is in
    [tasks[k].claims]. *)
Definition holds (tasks : Tasks) (k : string) (c : ScopeClaim) : Prop :=
  exists t, JsObject.get tasks k = Some t /\ In c (orEmpty (claims t)).

(** A session in which only proposed tasks act: the active task id, when
    set, is a proposed task's id; the tasks registered under such ids have no
    parent; every claim a task holds is in the session's list of active
    claims; two claims of that list that overlap have one owner; and the
    owner of a claim is the task that holds it. *)
Definition rootsOnly (st : DriftGuardState) : Prop :=
  (forall tid, activeTaskId (session st) = Some tid -> isRootId tid = true)
  /\ (forall k t, isRootId k = true -> JsObject.get (tasks st) k = Some t ->
        parentTaskId t = None)
  /\ (forall c, In c (heldClaims (tasks st)) -> In c (orEmpty (activeClaims (session st))))
  /\ (forall c1 c2,
        In c1 (orEmpty (activeClaims (session st))) ->
        In c2 (orEmpty (activeClaims (session st))) ->
        checkOverlap (path c1) (path c2) = true ->
        ownerTaskId c1 = ownerTaskId c2)
  /\ (forall k c, holds (tasks st) k c -> ownerTaskId c = k).

Definition keepsRootsOnly (st st' : DriftGuardState) : Prop :=
  rootsOnly st -> rootsOnly st'.

Definition diskRootsOnly (e : Env) : Prop :=
  match disk e with
  | Snapshot parsed => rootsOnly parsed
  | _ => True
  end.

(* ----------------------------------------------------------------- *)
(** *** What a request writes *)

(** The parts of the state. *)
Inductive Part : Type :=
| VersionPart          (* [version] *)
| IdentityPart         (* [session.sessionId], [session.startTime] *)
| FocusPart            (* [session.currentState] *)
| ActiveTaskPart       (* [session.activeTaskId] *)
| StepPart             (* [session.activeStepId] *)
| VerifiedPart         (* [session.isVerified] *)
| IntentPart           (* [session.intentFiled] *)
| ClaimsPart           (* [session.activeClaims] *)
| HashesPart           (* [session.lastKnownFileHashes] *)
| TasksPart            (* [tasks] *)
| LogPart.             (* [logs] *)

Definition agreeOn (p : Part) (st st' : DriftGuardState) : Prop :=
  match p with
  | VersionPart => version st' = version st
  | IdentityPart =>
      sessionId (session st') = sessionId (session st)
      /\ startTime (session st') = startTime (session st)
  | FocusPart => currentState (session st') = currentState (session st)
  | ActiveTaskPart => activeTaskId (session st') = activeTaskId (session st)
  | StepPart => activeStepId (session st') = activeStepId (session st)
  | VerifiedPart => isVerified (session st') = isVerified (session st)
  | IntentPart => intentFiled (session st') = intentFiled (session st)
  | ClaimsPart => activeClaims (session st') = activeClaims (session st)
  | HashesPart => lastKnownFileHashes (session st') = lastKnownFileHashes (session st)
  | TasksPart => tasks st' = tasks st
  | LogPart => logs st' = logs st
  end.

(** The parts a method assigns to, read off its body. *)
Definition writes (r : Request) : list Part :=
  match r with
  | Initialize | Hydrate | ResetState =>
      [VersionPart; IdentityPart; FocusPart; ActiveTaskPart; StepPart; VerifiedPart;
       IntentPart; ClaimsPart; HashesPart; TasksPart; LogPart]
  | ProposeTask _ _ _ _ _ => [TasksPart; ActiveTaskPart; LogPart]
  | BeginStep _ => [StepPart; FocusPart; LogPart]
  | Checkpoint _ _ =>
      [TasksPart; HashesPart; ClaimsPart; FocusPart; StepPart; IntentPart; VerifiedPart;
       ActiveTaskPart; LogPart]
  | Panic _ => [FocusPart; LogPart]
  | ReportIntent _ _ => [TasksPart; StepPart; FocusPart; IntentPart; LogPart]
  | Verify => [VerifiedPart; LogPart]
  | ExplainChange => [LogPart]
  | SetTestCommand _ => [TasksPart; LogPart]
  | ClaimScope _ _ => [TasksPart; ClaimsPart; HashesPart; LogPart]
  | DelegateTask _ _ _ => [TasksPart; LogPart]
  | AnalyzeRisk _ => [TasksPart]
  | HealthCheck | GenerateHandoff => []
  end.

(* ----------------------------------------------------------------- *)
(** *** The task registry over time *)

(** A checklist item later on: same id and text, and done if it was done. *)
Definition itemProgress (i i' : ChecklistItem) : Prop :=
  id i' = id i /\ text i' = text i /\ (isDone i = true -> isDone i' = true).

(** A task later on: what identifies it is unchanged, its checklist has
    progressed, its list of sub-tasks has been appended to at most, and its
    risk score has not gone down. *)
Definition evolves (t t' : TaskContract) : Prop :=
  taskId t' = taskId t /\ title t' = title t /\ goal t' = goal t
  /\ allowedScopes t' = allowedScopes t /\ strictness t' = strictness t
  /\ parentTaskId t' = parentTaskId t /\ createdAt t' = createdAt t
  /\ Forall2 itemProgress (checklist t) (checklist t')
  /\ (exists added, orEmpty (subTaskIds t') = (orEmpty (subTaskIds t) ++ added)%list)
  /\ (forall s, riskScore t = Some s -> exists s', riskScore t' = Some s' /\ (s <= s')%Z).

(** Every registered task is still registered, under the same key, and has
    evolved. *)
Definition registryGrows (st st' : DriftGuardState) : Prop :=
  forall k t, JsObject.get (tasks st) k = Some t ->
    exists t', JsObject.get (tasks st') k = Some t' /\ evolves t t'.

(* ----------------------------------------------------------------- *)
(** *** State manager: what [initialize] does to the project directory *)

Definition DRIFTGUARD_DIR : string := ".driftguard".

(** The line feed, [\n]. *)
Definition LF : string := String (ascii_of_nat 10) "".

(** [s.endsWith(suffix)] *)
Fixpoint endsWith (suffix s : string) : bool :=
  if String.eqb s suffix then true
  else match s with
       | EmptyString => false
       | String _ rest => endsWith suffix rest
       end.

(** [updateGitignore]: [file] is the content of [.gitignore], [None] when it
    cannot be read; [writable] tells whether [fs.writeFile] succeeds. The
    result is the file afterwards. *)
Definition updateGitignore (writable : bool) (file : option string) : option string :=
  let entry := DRIFTGUARD_DIR in
  let content := match file with Some c => c | None => "" end in
  if negb (includes entry content) then
    let newContent := content ++ (if endsWith LF content then "" else LF) ++ entry ++ LF in
    if writable then Some newContent else file
  else file.

(** [echo "Error: no test specified" && exit 1], the script [npm init] writes. *)
Definition NO_TEST_SPECIFIED : string :=
  "echo " ++ String (ascii_of_nat 34) "Error: no test specified"
    ++ String (ascii_of_nat 34) " && exit 1".

(** [pkg.scripts?.test] of a parsed [package.json]. *)
Inductive TestEntry : Type :=
| NoTest                          (* [undefined], or a falsy value that is not a string *)
| Script (script : string)        (* a string *)
| OtherEntry.                     (* a truthy value that is not a string *)

(** What [JSON.parse(await fs.readFile(packageJsonPath))] gives. *)
Inductive PackageJson : Type :=
| NotRead                         (* [fs.readFile] throws *)
| NotJson                         (* [JSON.parse] throws *)
| JsonNull                        (* the value [null]: reading [pkg.scripts] throws *)
| Json (test : TestEntry).        (* any other value, with its [scripts?.test] *)

(** What [scanForStrictness] looks at: [package.json] and the paths that
    [fs.access] finds. *)
Record Project : Type := mkProject {
  packageJson : PackageJson;
  accessible : string -> bool
}.

Definition ciPaths : list string := [".github/workflows"; ".gitlab-ci.yml"; "Jenkinsfile"].

(** [pkg.scripts?.test && pkg.scripts.test !== NO_TEST_SPECIFIED] *)
Definition hasTestScript (test : TestEntry) : bool :=
  match test with
  | NoTest => false
  | Script script => negb (String.eqb script "") && negb (String.eqb script NO_TEST_SPECIFIED)
  | OtherEntry => true
  end.

Definition scanForStrictnessOf (p : Project) : StrictnessLevel * string :=
  match packageJson p with
  | Json test =>
      if hasTestScript test then
        (L3_BALANCED,
         "Detected test scripts in package.json - recommending L3 (Intent + Basic Linting)")
      else
        match find (accessible p) ciPaths with
        | Some ciPath =>
            (L4_ENGINEERED,
             "Detected CI configuration (" ++ ciPath
               ++ ") - recommending L4 (Test Passing Required)")
        | None =>
            (L2_LOGGED,
             "Basic project structure detected - recommending L2 (Requires Checklists)")
        end
  | NotRead | NotJson | JsonNull =>
      (* the outer [catch] *)
      (L1_VIBE, "New or simple project - recommending L1 (Simple Logging)")
  end.

(** The [try] block of [scanForStrictness] runs to its end: [package.json]
    is read, parses, and the value has properties to read. *)
Definition scanned (p : Project) : Prop :=
  exists test, packageJson p = Json test.

(* ----------------------------------------------------------------- *)
(** *** Completing a checklist *)

(** The marking of [checkpoint] in the words of the checklist: an item ends
    up done when it was done, or when its id is among the completed ids and
    no earlier item has the same id; [seen] holds the ids of the earlier
    items. *)
Fixpoint marked (seen completedChecklistIds : list string) (items : list ChecklistItem)
  : list bool :=
  match items with
  | [] => []
  | item :: rest =>
      (isDone item
       || (existsb (String.eqb (id item)) completedChecklistIds
           && negb (existsb (String.eqb (id item)) seen)))
      :: marked (id item :: seen) completedChecklistIds rest
  end.

End DriftGuard.

(* ================================================================= *)
(** ** Git manager ([git.ts]) *)

Module Git.

(** [git status] as simple-git returns it; a renamed file is a pair of its
    old and its new name. *)
Record StatusResult : Type := mkStatusResult {
  modified : list string;
  created : list string;
  deleted : list string;
  renamed : list (string * string)
}.

(** What the [git] binary answers at the time of a call. *)
Record Repo : Type := mkRepo {
  revparseGitDir : bool;              (* [git rev-parse --git-dir] succeeds *)
  status : option StatusResult;      (* [git status], [None] if it throws *)
  notesList : option string;         (* [git notes --ref ... list], [None] if it throws *)
  lsFiles : list string -> option string   (* [git ls-files ... -- patterns] *)
}.

Record GitManager : Type := mkGitManager {
  projectPath : string;
  _isRepo : option bool
}.

Definition isGitRepo (w : Repo) (g : GitManager) : bool * GitManager :=
  match _isRepo g with
  | Some b => (b, g)
  | None => (revparseGitDir w, mkGitManager (projectPath g) (Some (revparseGitDir w)))
  end.

Definition setProjectPath (path : string) (g : GitManager) : GitManager :=
  mkGitManager path None.

(** [[...new Set(files)]]: the first occurrence of every file, in order. *)
Fixpoint dedupe (files : list string) : list string :=
  match files with
  | [] => []
  | f :: rest => f :: filter (fun x => negb (String.eqb x f)) (dedupe rest)
  end.

Definition getChangedFiles (w : Repo) (g : GitManager) : list string * GitManager :=
  let r := isGitRepo w g in
  if negb (fst r) then ([], snd r)
  else
    match status w with
    | Some s =>
        (dedupe (modified s ++ created s ++ deleted s ++ map snd (renamed s))%list, snd r)
    | None => ([], snd r)
    end.

(** [s.split(sep)] for a separator of one character. *)
Fixpoint split (sep : ascii) (s : string) : list string :=
  match s with
  | EmptyString => [EmptyString]
  | String c rest =>
      if Ascii.eqb c sep then EmptyString :: split sep rest
      else match split sep rest with
           | [] => [String c EmptyString]
           | first :: others => String c first :: others
           end
  end.

(** The characters [trim] removes are the white space and the line
    terminators of ECMAScript. In UTF-8 they take one byte: U+0009 to U+000D
    and U+0020; *)
Definition space1 (a : nat) : bool :=
  ((9 <=? a)%nat && (a <=? 13)%nat) || (a =? 32)%nat.

(** two bytes: U+00A0 (C2 A0); *)
Definition space2 (a b : nat) : bool := (a =? 194)%nat && (b =? 160)%nat.

(** or three bytes: U+1680 (E1 9A 80), U+2000 to U+200A, U+2028, U+2029 and
    U+202F (E2 80 80 to 8A, A8, A9, AF), U+205F (E2 81 9F), U+3000
    (E3 80 80) and U+FEFF (EF BB BF). *)
Definition space3 (a b c : nat) : bool :=
  ((a =? 225)%nat && (b =? 154)%nat && (c =? 128)%nat)
  || ((a =? 226)%nat && (b =? 128)%nat
      && (((128 <=? c)%nat && (c <=? 138)%nat)
          || (c =? 168)%nat || (c =? 169)%nat || (c =? 175)%nat))
  || ((a =? 226)%nat && (b =? 129)%nat && (c =? 159)%nat)
  || ((a =? 227)%nat && (b =? 128)%nat && (c =? 128)%nat)
  || ((a =? 239)%nat && (b =? 187)%nat && (c =? 191)%nat).

(** The number of bytes of the white space character [s] starts with, 0 when
    it starts with none. *)
Definition spaceBytes (s : string) : nat :=
  match s with
  | EmptyString => 0
  | String a rest =>
      if space1 (nat_of_ascii a) then 1
      else
        match rest with
        | EmptyString => 0
        | String b rest' =>
            if space2 (nat_of_ascii a) (nat_of_ascii b) then 2
            else
              match rest' with
              | EmptyString => 0
              | String c _ =>
                  if space3 (nat_of_ascii a) (nat_of_ascii b) (nat_of_ascii c) then 3
                  else 0
              end
        end
  end.

(** The first [n] bytes of [s] are there and none of them is an ASCII byte,
    as it is of the bytes that follow the first one of a white space
    character. *)
Fixpoint continues (n : nat) (s : string) : Prop :=
  match n with
  | O => True
  | S k =>
      match s with
      | EmptyString => False
      | String c rest => (128 <= nat_of_ascii c)%nat /\ continues k rest
      end
  end.

(** [s.trimStart()]: [skip] counts the bytes still to drop of the white space
    character being removed. *)
Fixpoint trimStartFrom (skip : nat) (s : string) : string :=
  match s with
  | EmptyString => EmptyString
  | String _ rest =>
      match skip with
      | S k => trimStartFrom k rest
      | O =>
          match spaceBytes s with
          | O => s
          | S k => trimStartFrom k rest
          end
      end
  end.

Definition trimStart (s : string) : string := trimStartFrom 0 s.

(** Nothing but white space. *)
Definition blank (s : string) : bool := String.eqb (trimStart s) "".

(** [s.trimEnd()]: the text up to the point from which only white space
    follows. *)
Fixpoint trimEnd (s : string) : string :=
  match s with
  | EmptyString => EmptyString
  | String c rest => if blank s then EmptyString else String c (trimEnd rest)
  end.

(** [s.trim()] *)
Definition trim (s : string) : string := trimEnd (trimStart s).

Definition space : ascii := ascii_of_nat 32.
Definition newline : ascii := ascii_of_nat 10.

(** [const parts = line.split(' '); return parts[1] || parts[0]] *)
Definition commitOf (line : string) : string :=
  match split space line with
  | first :: second :: _ => if String.eqb second "" then first else second
  | first :: [] => first
  | [] => ""
  end.

Definition listNotedCommits (w : Repo) (g : GitManager) : list string * GitManager :=
  let r := isGitRepo w g in
  if negb (fst r) then ([], snd r)
  else
    match notesList w with
    | Some output =>
        (map commitOf
           (filter (fun l => negb (String.eqb l "")) (split newline (trim output))),
         snd r)
    | None => ([], snd r)
    end.

Definition listFiles (w : Repo) (patterns : list string) (g : GitManager)
  : list string * GitManager :=
  let r := isGitRepo w g in
  if negb (fst r) then ([], snd r)
  else
    match lsFiles w patterns with
    | Some output =>
        (filter (fun s => (0 <? String.length (trim s))%nat) (split newline output), snd r)
    | None => ([], snd r)
    end.

(** Text without white space (no white space character starts anywhere in
    it), and lines as git prints them. *)
Fixpoint noSpace (s : string) : bool :=
  match s with
  | EmptyString => true
  | String _ rest => (spaceBytes s =? 0)%nat && noSpace rest
  end.

Definition isWord (s : string) : bool := negb (String.eqb s "") && noSpace s.

Fixpoint noNewline (s : string) : bool :=
  match s with
  | EmptyString => true
  | String c rest => negb (Ascii.eqb c newline) && noNewline rest
  end.

(** Every line followed by a line feed. *)
Fixpoint printed (lines : list string) : string :=
  match lines with
  | [] => ""
  | line :: rest => line ++ String newline (printed rest)
  end.

(** A line of [git notes list]: the note object, a space, the commit. *)
Definition noteLine (entry : string * string) : string :=
  fst entry ++ String space (snd entry).

(** Successive calls of [isGitRepo], each with the repository as it is then. *)
Fixpoint isGitRepoCalls (ws : list Repo) (g : GitManager) : list bool * GitManager :=
  match ws with
  | [] => ([], g)
  | w :: rest =>
      let r := isGitRepo w g in
      let rs := isGitRepoCalls rest (snd r) in
      (fst r :: fst rs, snd rs)
  end.

End Git.

(* ================================================================= *)
(** ** Concrete scenarios *)

Module Scenario.

(** The matcher facts the scenarios rely on, all of them true of minimatch:
    a [dir/**] pattern accepts the files below [dir]. *)
Definition matcher : string -> string -> bool :=
  minimatch_of [("src/index.ts", "src/**"); ("src/gone.ts", "src/**");
                ("src/new.ts", "src/**")].

Definition authors : list string :=
  ["ann@example.org"; "bob@example.org"; "cyd@example.org"; "dee@example.org";
   "eve@example.org"].

Definition env (id : string) : Env :=
  mkEnv "2024-05-01T10:00:00.000Z" 1714557600000 id
    true ["src/index.ts"] " src/index.ts | 2 +-" true
    (fun _ => ["src/index.ts"; "src/new.ts"])
    (fun file =>
       if String.eqb file "src/index.ts" then Some "9e107d9d372bb6826bd81d3542a419d6"
       else if String.eqb file "src/new.ts" then Some "e4d909c290d0fb1ca068ffaddf22cbd0"
       else None)
    (fun _ => Some (mkLogResult (List.concat (repeat authors 8)) 40))
    (fun _ => ExecResolved "" "")
    NoDirectory ".driftguard" (L2_LOGGED, "Basic project structure detected").

Definition envA : Env := env "aaaaaaaa-0000-4000-8000-000000000000".
Definition envB : Env := env "bbbbbbbb-0000-4000-8000-000000000000".

Definition fresh : DriftGuardState := createInitialState envA.

(** [proposeTask("Parent Task", "Manage scope", ["src/**"], [{1, work}])] *)
Definition proposed : DriftGuardState :=
  after (proposeTask envA "Parent Task" "Manage scope" ["src/**"]
           [mkChecklistInput "1" "work"] None fresh).

(** ... then [claimScope(["src/**"], false)]: a shared claim *)
Definition claimed : DriftGuardState :=
  after (claimScope matcher envA ["src/**"] false proposed).

(** ... then a second task is proposed and becomes the active one *)
Definition rogue : DriftGuardState :=
  after (proposeTask envB "Rogue Task" "Steal scope" ["src/index.ts"]
           [mkChecklistInput "1" "steal"] None claimed).

(** ... while the first task, had it begun a step instead *)
Definition executing : DriftGuardState :=
  after (beginStep envA None claimed).

Definition sharedClaim : ScopeClaim :=
  mkScopeClaim "src/**" false "task_aaaaaaaa" 1714557600000.

(** The project some time after the claim was granted: [src/index.ts] was
    edited, [src/added.ts] was created and [src/new.ts] was removed, all
    behind the engine's back. *)
Definition envLater : Env :=
  mkEnv "2024-05-01T11:00:00.000Z" 1714561200000 "cccccccc-0000-4000-8000-000000000000"
    true ["src/index.ts"] "" true
    (fun _ => ["src/index.ts"; "src/added.ts"])
    (fun file =>
       if String.eqb file "src/index.ts" then Some "0cc175b9c0f1b6a831c399e269772661"
       else if String.eqb file "src/added.ts" then Some "92eb5ffee6ae2fec3ad71c777531578f"
       else None)
    (fun _ => None)
    (fun _ => ExecResolved "" "")
    NoDirectory ".driftguard" (L2_LOGGED, "Basic project structure detected").

(** A project whose root holds [README.md] and a file named [toString],
    with a matcher for the pattern [*] on the names used below. *)
Definition rootMatcher : string -> string -> bool :=
  minimatch_of [("README.md", "*"); ("toString", "*"); ("constructor", "*")].

Definition envRoot : Env :=
  mkEnv "2024-05-02T09:00:00.000Z" 1714640400000 "dddddddd-0000-4000-8000-000000000000"
    true [] "" true
    (fun _ => ["README.md"; "toString"])
    (fun file =>
       if String.eqb file "README.md" then Some "d41d8cd98f00b204e9800998ecf8427e"
       else if String.eqb file "toString" then Some "7215ee9c7d9dc229d2921a40e899ec5f"
       else None)
    (fun _ => None)
    (fun _ => ExecResolved "" "")
    NoDirectory ".driftguard" (L2_LOGGED, "Basic project structure detected").

(** [proposeTask("Root", "Tidy the root", ["*"], [{1, tidy}])], then
    [claimScope(["*"], true)]: both files are in the hash cache. *)
Definition rootClaimed : DriftGuardState :=
  after (claimScope rootMatcher envRoot ["*"] true
           (after (proposeTask envRoot "Root" "Tidy the root" ["*"]
                     [mkChecklistInput "1" "tidy"] None (createInitialState envRoot)))).

(** The same project later: [toString] was removed and a file named
    [constructor] was created, [README.md] is as it was. *)
Definition envRootLater : Env :=
  mkEnv "2024-05-02T10:00:00.000Z" 1714644000000 "eeeeeeee-0000-4000-8000-000000000000"
    true [] "" true
    (fun _ => ["README.md"; "constructor"])
    (fun file =>
       if String.eqb file "README.md" then Some "d41d8cd98f00b204e9800998ecf8427e"
       else if String.eqb file "constructor" then Some "b026324c6904b2a9cb4b88d6d61c81d1"
       else None)
    (fun _ => None)
    (fun _ => ExecResolved "" "")
    NoDirectory ".driftguard" (L2_LOGGED, "Basic project structure detected").

(** ... while the first task, had it filed its intent instead *)
Definition working : DriftGuardState :=
  after (reportIntent envA "do work" ["src/index.ts"] claimed).

(** The first task as [proposed], [claimed] and [working] hold it. *)
Definition proposedTask : TaskContract :=
  mkTaskContract "task_aaaaaaaa" "Parent Task" "Manage scope" ["src/**"]
    [mkChecklistItem "1" "work" todo] L2_LOGGED None None None None
    (Some []) (Some []) None (now envA) (now envA).

Definition claimedTask : TaskContract := with_claims proposedTask (Some [sharedClaim]).

Definition workingTask : TaskContract :=
  with_updatedAt (with_intent claimedTask "do work" ["src/index.ts"]) (now envA).

(** A checklist with two items under one id. *)
Definition twins : list ChecklistItem :=
  [mkChecklistItem "1" "write" todo; mkChecklistItem "1" "review" todo].

(** A project with a test script and a CI configuration. *)
Definition testedProject : Project :=
  mkProject (Json (Script "vitest run")) (fun p => String.eqb p ".github/workflows").

(** A project whose [package.json] holds the single word [null], with a CI
    configuration. *)
Definition nullProject : Project :=
  mkProject JsonNull (fun p => String.eqb p ".github/workflows").

(** A directory that is not a repository when first looked at, and is one
    with changes later. *)
Definition outside : Git.Repo := Git.mkRepo false None None (fun _ => None).

Definition notes : list (string * string) :=
  [("5f2a9c1", "e83c517"); ("0b7d4e2", "a94a8fe")].

Definition inside : Git.Repo :=
  Git.mkRepo true
    (Some (Git.mkStatusResult ["a.ts"; "b.ts"] ["b.ts"] [] [("old.ts", "a.ts")]))
    (Some (Git.printed (map Git.noteLine notes)))
    (fun _ => Some (Git.printed ["src/index.ts"; "docs/read me.md"])).

Definition manager : Git.GitManager := Git.mkGitManager "/project" None.

End Scenario.

(* ================================================================= *)
(** ** Properties *)

Section Properties.

(** The properties hold for every glob matcher. *)
Variable minimatch : string -> string -> bool.

(* ----------------------------------------------------------------- *)
(** *** Objects *)

Lemma get_set_same (V : Type) (o : JsObject.t V) (k : string) (v : V) :
  JsObject.get (JsObject.set o k v) k = Some v.
Proof.
  induction o as [|[k' v'] rest IH]; simpl.
  - now rewrite String.eqb_refl.
  - destruct (String.eqb k' k) eqn:E; simpl; rewrite E; auto.
Qed.

Lemma get_set_other (V : Type) (o : JsObject.t V) (k k' : string) (v : V) :
  k <> k' -> JsObject.get (JsObject.set o k v) k' = JsObject.get o k'.
Proof.
  intros Hne; induction o as [|[k0 v0] rest IH]; simpl.
  - destruct (String.eqb_spec k k'); congruence.
  - destruct (String.eqb_spec k0 k) as [->|Hk]; simpl.
    + destruct (String.eqb_spec k k'); congruence.
    + now rewrite IH.
Qed.

(** Overwriting the value of an existing key is invisible to a view [g] of
    the entries that the old and the new value share. *)
Lemma map_set_same_view (V W : Type) (g : string * V -> W)
  (o : JsObject.t V) (k : string) (v0 v : V) :
  JsObject.get o k = Some v0 ->
  (forall k', g (k', v) = g (k', v0)) ->
  map g (JsObject.set o k v) = map g o.
Proof.
  intros Hget Hg; induction o as [|[k' v'] rest IH]; simpl in *; [discriminate|].
  destruct (String.eqb k' k) eqn:E; simpl.
  - inversion Hget; subst. now rewrite Hg.
  - now rewrite IH.
Qed.

Lemma get_In (V : Type) (o : JsObject.t V) (k : string) (v : V) :
  JsObject.get o k = Some v -> In (k, v) o.
Proof.
  induction o as [|[k' v'] rest IH]; simpl; [discriminate|].
  destruct (String.eqb_spec k' k) as [->|Hk]; intros H.
  - inversion H; auto.
  - auto.
Qed.

Lemma get_None_not_key (V : Type) (o : JsObject.t V) (k : string) :
  JsObject.get o k = None <-> ~ In k (JsObject.keys o).
Proof.
  clear minimatch.
  induction o as [|[k' v'] rest IH]; simpl.
  - tauto.
  - destruct (String.eqb_spec k' k) as [->|Hk].
    + split; [discriminate | intros H; exfalso; apply H; auto].
    + rewrite IH. tauto.
Qed.

Lemma fold_left_app_claims (ts : list TaskContract) (acc : list ScopeClaim) :
  fold_left
    (fun acc task => match claims task with Some cs => (acc ++ cs)%list | None => acc end)
    ts acc
  = (acc ++ flat_map (fun t => orEmpty (claims t)) ts)%list.
Proof.
  revert acc; induction ts as [|t ts IH]; intros acc; simpl.
  - now rewrite app_nil_r.
  - rewrite IH. destruct (claims t); simpl.
    + now rewrite app_assoc.
    + reflexivity.
Qed.

(* ----------------------------------------------------------------- *)
(** *** Scope manager *)

Lemma checkOverlap_true (a b : string) :
  checkOverlap minimatch a b = true <-> a = b \/ minimatch a b = true \/ minimatch b a = true.
Proof.
  unfold checkOverlap.
  destruct (String.eqb_spec a b); [tauto|].
  destruct (minimatch a b); [tauto|].
  destruct (minimatch b a); [tauto|].
  intuition congruence.
Qed.

Lemma checkConflict_find (p r : string) (cs : list ScopeClaim) (tasks : Tasks) :
  checkConflict minimatch p r cs tasks
  = find (fun c => considered r tasks c && checkOverlap minimatch p (path c)) cs.
Proof.
  induction cs as [|c cs IH]; simpl; [reflexivity|].
  unfold considered.
  destruct (ownedByRequestor r c); simpl; [exact IH|].
  destruct (ownedByParent r tasks c); simpl; [exact IH|].
  destruct (checkOverlap minimatch p (path c)); simpl; [|exact IH].
  now destruct (exclusive c).
Qed.

(** C1, as the code has it: among the active claims that belong neither to
    the requestor nor to the requestor's parent, [checkConflict] reports a
    conflict exactly when one of them overlaps the requested path under the
    overlap test (same text, or one pattern accepting the other's text); the
    claim reported is such a claim, and flipping the exclusivity flag of any
    claim changes nothing but the flag in the answer: a shared claim blocks
    as an exclusive one does. *)
Theorem checkConflict_any_overlap_blocks
  (p r : string) (cs : list ScopeClaim) (tasks : Tasks) :
  ((exists c, checkConflict minimatch p r cs tasks = Some c)
   <-> (exists c, In c cs /\ considered r tasks c = true
                  /\ checkOverlap minimatch p (path c) = true))
  /\ (forall c, checkConflict minimatch p r cs tasks = Some c ->
        In c cs /\ considered r tasks c = true /\ checkOverlap minimatch p (path c) = true)
  /\ (forall x : bool,
        checkConflict minimatch p r (map (fun c => with_exclusive c x) cs) tasks
        = option_map (fun c => with_exclusive c x) (checkConflict minimatch p r cs tasks))
  /\ checkConflict minimatch p r cs tasks
     = find (fun c => considered r tasks c && checkOverlap minimatch p (path c)) cs.
Proof.
  rewrite checkConflict_find.
  assert (Hsome : forall c,
    find (fun c => considered r tasks c && checkOverlap minimatch p (path c)) cs = Some c ->
    In c cs /\ considered r tasks c = true /\ checkOverlap minimatch p (path c) = true).
  { intros c H. apply find_some in H as [Hin Hb].
    apply andb_true_iff in Hb. tauto. }
  split; [split|split; [|split]].
  - intros [c H]. exists c. auto.
  - intros [c (Hin & Hc & Ho)].
    destruct (find _ cs) as [c'|] eqn:E; [eauto|].
    apply (find_none _ _ E) in Hin. rewrite Hc, Ho in Hin. discriminate.
  - exact Hsome.
  - intros x. rewrite checkConflict_find.
    clear Hsome. induction cs as [|c cs IH]; simpl; [reflexivity|].
    unfold considered, ownedByRequestor, ownedByParent in *; simpl.
    destruct (_ && checkOverlap minimatch p (path c)); simpl; [reflexivity|exact IH].
  - reflexivity.
Qed.

Lemma covered_true (childPath : string) (parentScope : list string) :
  covered minimatch childPath parentScope = true
  <-> Exists (fun parentPath => childPath = parentPath \/ minimatch childPath parentPath = true)
        parentScope.
Proof.
  induction parentScope as [|q qs IH]; simpl.
  - split; [discriminate | intros H; inversion H].
  - destruct (minimatch childPath q) eqn:Em; simpl.
    + split; auto.
    + destruct (String.eqb_spec childPath q) as [->|Hne].
      * split; auto.
      * rewrite IH. split; intros H.
        -- now apply Exists_cons_tl.
        -- inversion H as [? ? [Heq|Hm]|]; subst; [congruence|congruence|assumption].
Qed.

Lemma validateDelegation_true (parentScope childScope : list string) :
  validateDelegation minimatch parentScope childScope = true <-> contained minimatch parentScope childScope.
Proof.
  unfold contained. induction childScope as [|c cs IH]; simpl.
  - split; auto.
  - destruct (covered minimatch c parentScope) eqn:E.
    + rewrite IH. apply covered_true in E. split; intros H.
      * now constructor.
      * now inversion H.
    + split; [discriminate|]. intros H. inversion H; subst.
      apply covered_true in H2. congruence.
Qed.

(* ----------------------------------------------------------------- *)
(** *** Reasoning about operations *)

Section Respects.

Variable R : DriftGuardState -> DriftGuardState -> Prop.
Hypothesis R_refl : forall st, R st st.
Hypothesis R_trans : forall a b c, R a b -> R b c -> R a c.

Lemma respects_ret (A : Type) (a : A) : respects R (ret a).
Proof. intros st; apply R_refl. Qed.

Lemma respects_throw (A : Type) (err : Error) : respects R (@throw A err).
Proof. intros st; apply R_refl. Qed.

Lemma respects_getState : respects R getState.
Proof. intros st; apply R_refl. Qed.

Lemma respects_bind (A B : Type) (m : Op A) (f : A -> Op B) :
  respects R m -> (forall a, respects R (f a)) -> respects R (bind m f).
Proof.
  intros Hm Hf st. unfold bind, after.
  specialize (Hm st). unfold after in Hm.
  destruct (m st) as [[a|err] st']; simpl in *; [|assumption].
  eapply R_trans; [eassumption|]. apply Hf.
Qed.

Lemma respects_modify (f : DriftGuardState -> DriftGuardState) :
  (forall st, R st (f st)) -> respects R (modify f).
Proof. intros H st; apply H. Qed.

Lemma respects_validateTransition (action : string) (allowedFrom : list FocusState) :
  respects R (validateTransition action allowedFrom).
Proof.
  intros st. unfold validateTransition, bind, getState, after; simpl.
  destruct (existsb _ allowedFrom); apply R_refl.
Qed.

Lemma respects_requireActiveTask : respects R requireActiveTask.
Proof.
  intros st. unfold requireActiveTask, bind, getState, after; simpl.
  destruct (activeTaskId (session st)) as [i|]; [|apply R_refl].
  destruct (String.eqb i ""); [apply R_refl|].
  destruct (JsObject.get (tasks st) i); apply R_refl.
Qed.

Lemma respects_discard (A : Type) (m : Op A) : respects R m -> respects R (discard m).
Proof.
  intros H. unfold discard. apply respects_bind; [assumption|].
  intros a; apply respects_ret.
Qed.

End Respects.

Lemma validateTransition_run (action : string) (allowedFrom : list FocusState)
  (st : DriftGuardState) :
  validateTransition action allowedFrom st
  = if existsb (FocusState_eqb (currentState (session st))) allowedFrom
    then (Return tt, st)
    else (Throw (StateTransitionError action (currentState (session st)) allowedFrom), st).
Proof.
  unfold validateTransition, bind, getState.
  now destruct (existsb _ allowedFrom).
Qed.

(** Breaks an operation down to its primitive steps; [leaf] closes those. *)
Ltac respects_steps leaf :=
  repeat first
    [ progress lazy beta zeta
    | match goal with
      | |- forall _ : DriftGuardState, _ => solve [eauto]
      | |- forall _, respects _ _ => intros ?
      | |- respects _ (ret _) => apply respects_ret
      | |- respects _ syncToDisk => apply respects_ret
      | |- respects _ (throw _) => apply respects_throw
      | |- respects _ getState => apply respects_getState
      | |- respects _ (validateTransition _ _) => apply respects_validateTransition
      | |- respects _ requireActiveTask => apply respects_requireActiveTask
      | |- respects _ (discard _) => apply respects_discard
      | |- respects _ (bind _ _) => apply respects_bind
      | |- respects _ (if ?c then _ else _) => destruct c
      | |- respects _ (match ?x with _ => _ end) => destruct x
      end
    | leaf ].

(* ----------------------------------------------------------------- *)
(** *** The session log *)

Lemma slice_last_length (A : Type) (n : nat) (l : list A) :
  (List.length (slice_last n l) <= n)%nat.
Proof. unfold slice_last. rewrite length_skipn. lia. Qed.

Lemma slice_last_short (A : Type) (n : nat) (l : list A) :
  (List.length l <= n)%nat -> slice_last n l = l.
Proof.
  intros H. unfold slice_last.
  replace (List.length l - n)%nat with 0%nat by lia. apply skipn_0.
Qed.

Lemma log_run (e : Env) (action : string) (taskId details : option string)
  (st : DriftGuardState) :
  log e action taskId details st
  = (Return tt,
     with_logs st
       (slice_last 100 (logs st ++ [mkLogEntry (now e) action taskId details])%list)).
Proof.
  unfold log, modify. f_equal. f_equal.
  destruct (Nat.ltb_spec 100
    (List.length (logs st ++ [mkLogEntry (now e) action taskId details])%list)).
  - reflexivity.
  - symmetry. apply slice_last_short. assumption.
Qed.

Lemma logKept_refl (st : DriftGuardState) : logKept st st.
Proof. now left. Qed.

Lemma logKept_trans (a b c : DriftGuardState) :
  logKept a b -> logKept b c -> logKept a c.
Proof.
  unfold logKept. intros [Hab|Hab] [Hbc|Hbc]; auto.
  - left; congruence.
  - right. rewrite Hbc. assumption.
Qed.

Lemma logKept_log (e : Env) (action : string) (taskId details : option string) :
  respects logKept (log e action taskId details).
Proof.
  intros st. rewrite log_run. right. simpl. apply slice_last_length.
Qed.

Lemma logKept_modifySession (f : DriftSession -> DriftSession) :
  respects logKept (modifySession f).
Proof. intros st. now left. Qed.

Lemma logKept_mutateTask (key : string) (f : TaskContract -> TaskContract) :
  respects logKept (mutateTask key f).
Proof.
  intros st. left. unfold mutateTask, modify, after; simpl.
  now destruct (JsObject.get (tasks st) key).
Qed.

Lemma logKept_refreshActiveClaims : respects logKept refreshActiveClaims.
Proof. intros st. now left. Qed.

Lemma logKept_mergeKnownHashes (h : Hashes) : respects logKept (mergeKnownHashes h).
Proof. intros st. now left. Qed.

Lemma logKept_fresh (e : Env) : respects logKept (putState (createInitialState e)).
Proof. intros st. right. simpl. lia. Qed.

Lemma logKept_hydrate (e : Env) : respects logKept (hydrate e).
Proof.
  intros st. unfold hydrate.
  destruct (disk e) as [| |parsed]; try apply logKept_refl.
  right. unfold bind, after, putState, ret.
  destruct (negb _); rewrite !log_run; simpl; apply slice_last_length.
Qed.

#[local] Hint Resolve logKept_refl logKept_trans : core.

Ltac logKept_leaf :=
  idtac;
  match goal with
  | |- respects _ (log _ _ _ _) => apply logKept_log
  | |- respects _ (modifySession _) => apply logKept_modifySession
  | |- respects _ (mutateTask _ _) => apply logKept_mutateTask
  | |- respects _ refreshActiveClaims => apply logKept_refreshActiveClaims
  | |- respects _ (mergeKnownHashes _) => apply logKept_mergeKnownHashes
  | |- respects _ (putState (createInitialState _)) => apply logKept_fresh
  | |- respects _ (hydrate _) => apply logKept_hydrate
  | |- respects _ (modify _) => apply respects_modify; intros ?; left; reflexivity
  end.

Lemma logKept_perform (e : Env) (r : Request) : respects logKept (perform minimatch e r).
Proof.
  destruct r; unfold perform.
  - unfold initialize. respects_steps logKept_leaf.
  - respects_steps logKept_leaf.
  - unfold proposeTask. respects_steps logKept_leaf.
  - unfold beginStep. respects_steps logKept_leaf.
  - unfold checkpoint. respects_steps logKept_leaf.
  - unfold panic. respects_steps logKept_leaf.
  - unfold reportIntent. respects_steps logKept_leaf.
  - unfold verify. respects_steps logKept_leaf.
  - unfold explainChange. respects_steps logKept_leaf.
  - unfold setTestCommand. respects_steps logKept_leaf.
  - unfold claimScope. respects_steps logKept_leaf.
  - unfold delegateTask. respects_steps logKept_leaf.
  - unfold analyzeRisk. respects_steps logKept_leaf.
  - unfold healthCheck. respects_steps logKept_leaf.
  - unfold generateHandoff. respects_steps logKept_leaf.
  - unfold reset. respects_steps logKept_leaf.
Qed.

(** C9: appending to the log leaves exactly the last 100 entries of the old
    log followed by the new entry, hence at most 100 entries, the new one
    among them; and every public operation either leaves the log as it was
    or leaves one of at most 100 entries, so the bound is preserved. *)
Theorem log_keeps_most_recent_100 (e : Env) (r : Request) (st : DriftGuardState) :
  (forall action taskId details,
      let entry := mkLogEntry (now e) action taskId details in
      let st' := after (log e action taskId details st) in
      logs st' = slice_last 100 (logs st ++ [entry])%list
      /\ (List.length (logs st') <= 100)%nat
      /\ (exists older, logs st' = older ++ [entry])%list)
  /\ logKept st (after (perform minimatch e r st))
  /\ ((List.length (logs st) <= 100)%nat ->
      (List.length (logs (after (perform minimatch e r st))) <= 100)%nat).
Proof.
  split; [|split].
  - intros action taskId details entry st'. subst st'.
    rewrite log_run; simpl. split; [reflexivity|]. split; [apply slice_last_length|].
    unfold slice_last. rewrite skipn_app.
    match goal with
    | |- context [skipn ?n [?x]] =>
        replace n with 0%nat by (rewrite length_app; simpl; lia)
    end.
    rewrite skipn_0. eauto.
  - apply logKept_perform.
  - intros H. destruct (logKept_perform e r st) as [Heq|Hle]; [|exact Hle].
    rewrite Heq. exact H.
Qed.

(* ----------------------------------------------------------------- *)
(** *** The state machine *)

Lemma staysInPanic_refl (st : DriftGuardState) : staysInPanic st st.
Proof. intros H; exact H. Qed.

Lemma staysInPanic_trans (a b c : DriftGuardState) :
  staysInPanic a b -> staysInPanic b c -> staysInPanic a c.
Proof. unfold staysInPanic; auto. Qed.






#[local] Hint Resolve staysInPanic_refl staysInPanic_trans : core.





(** C3, as the code has it: with no intent filed, [checkpoint] changes
    nothing and throws; the error is [IntentMissingError] when the session is
    EXECUTING, and the [StateTransitionError] of the transition table in every
    other state, because the state is validated first. *)
Theorem checkpoint_without_intent
  (e : Env) (summary : string) (completedChecklistIds : list string)
  (st : DriftGuardState) :
  intentFiled (session st) = false ->
  after (checkpoint e summary completedChecklistIds st) = st
  /\ (currentState (session st) = EXECUTING ->
      outcome (checkpoint e summary completedChecklistIds st) = Throw IntentMissingError)
  /\ (currentState (session st) <> EXECUTING ->
      outcome (checkpoint e summary completedChecklistIds st)
      = Throw (StateTransitionError "dg_checkpoint" (currentState (session st)) [EXECUTING])).
Proof.
  intros Hi.
  remember (checkpoint e summary completedChecklistIds st) as r eqn:Hr.
  unfold checkpoint in Hr. unfold bind at 1 in Hr.
  rewrite validateTransition_run in Hr.
  destruct (currentState (session st)) eqn:Hs; simpl in Hr;
    try (subst r; split; [reflexivity | split; intros; [discriminate | reflexivity]]).
  unfold bind, getState in Hr. rewrite Hi in Hr. simpl in Hr.
  subst r. split; [reflexivity | split; intros; [reflexivity | congruence]].
Qed.

(** C4, what the code does: from IDLE, [proposeTask] returns a task whose
    checklist repeats the requested items with status [todo] and whose
    strictness is the requested one or level 2, stores it under its id and
    makes it the active task; the focus state is left at IDLE. *)
Theorem proposeTask_from_IDLE
  (e : Env) (title goal : string) (allowedScopes : list string)
  (items : list ChecklistInput) (level : option StrictnessLevel)
  (st : DriftGuardState) :
  currentState (session st) = IDLE ->
  exists task,
    outcome (proposeTask e title goal allowedScopes items level st) = Return task
    /\ map (fun i => (id i, text i)) (checklist task)
       = map (fun i => (item_id i, item_text i)) items
    /\ Forall (fun i => status i = todo) (checklist task)
    /\ StrictnessLevel_value (strictness task)
       = match level with Some s => StrictnessLevel_value s | None => 2%Z end
    /\ (let st' := after (proposeTask e title goal allowedScopes items level st) in
        JsObject.get (tasks st') (taskId task) = Some task
        /\ activeTaskId (session st') = Some (taskId task)
        /\ currentState (session st') = IDLE).
Proof.
  intros HI.
  remember (proposeTask e title goal allowedScopes items level st) as r eqn:Hr.
  unfold proposeTask in Hr. unfold bind at 1 in Hr.
  rewrite validateTransition_run, HI in Hr. cbn [existsb FocusState_eqb orb] in Hr.
  unfold bind, modifySession, syncToDisk, ret in Hr. unfold modify in Hr.
  rewrite log_run in Hr. simpl in Hr. subst r.
  eexists. split; [reflexivity|]. simpl.
  split; [now rewrite map_map|].
  split; [apply Forall_forall; intros i Hin; apply in_map_iff in Hin as (x & <- & _);
          reflexivity|].
  split; [now destruct level|].
  split; [apply get_set_same|]. split; [reflexivity|exact HI].
Qed.

(* ----------------------------------------------------------------- *)
(** *** Claiming scope *)

Lemma ownedByParent_set_claims (r tid : string) (tasks : Tasks) (task : TaskContract)
  (cs : option (list ScopeClaim)) (c : ScopeClaim) :
  JsObject.get tasks tid = Some task ->
  ownedByParent r (JsObject.set tasks tid (with_claims task cs)) c
  = ownedByParent r tasks c.
Proof.
  intros Hget. unfold ownedByParent.
  destruct (String.eqb_spec tid r) as [->|Hne].
  - now rewrite get_set_same, Hget.
  - now rewrite get_set_other.
Qed.

Lemma checkConflict_set_claims (p r tid : string) (active : list ScopeClaim)
  (tasks : Tasks) (task : TaskContract) (cs : option (list ScopeClaim)) :
  JsObject.get tasks tid = Some task ->
  checkConflict minimatch p r active (JsObject.set tasks tid (with_claims task cs))
  = checkConflict minimatch p r active tasks.
Proof.
  intros Hget. induction active as [|c active IH]; simpl; [reflexivity|].
  rewrite ownedByParent_set_claims by assumption. rewrite IH. reflexivity.
Qed.

Lemma claimLoop_conflicts (e : Env) (x : bool) (tid : string)
  (active : list ScopeClaim) (tasks : Tasks) (paths : list string) :
  fst (claimLoop minimatch e x tid active tasks paths)
  = conflictsFound (fun p => checkConflict minimatch p tid active tasks) paths.
Proof.
  induction paths as [|p paths IH]; simpl; [reflexivity|].
  destruct (checkConflict minimatch p tid active tasks); simpl; now rewrite IH.
Qed.

Lemma claimLoop_newClaims (e : Env) (x : bool) (tid : string)
  (active : list ScopeClaim) (tasks : Tasks) (paths : list string) :
  (forall p, In p paths -> checkConflict minimatch p tid active tasks = None) ->
  snd (claimLoop minimatch e x tid active tasks paths)
  = map (fun p => mkScopeClaim p x tid (nowMs e)) paths.
Proof.
  induction paths as [|p paths IH]; simpl; intros H; [reflexivity|].
  rewrite (H p) by auto. simpl. rewrite IH; auto.
Qed.

Lemma conflictsFound_nil (conflictOf : string -> option ScopeClaim) (paths : list string) :
  conflictsFound conflictOf paths = [] <-> (forall p, In p paths -> conflictOf p = None).
Proof.
  unfold conflictsFound. induction paths as [|p paths IH]; simpl.
  - split; [intros _ q []|reflexivity].
  - destruct (conflictOf p) eqn:E; simpl.
    + split; [discriminate|]. intros H. specialize (H p (or_introl eq_refl)). congruence.
    + rewrite IH. split.
      * intros H q [<-|Hq]; auto.
      * intros H q Hq. auto.
Qed.

Lemma withClaimsArray_claimLists (st : DriftGuardState) (tid : string) (task : TaskContract) :
  JsObject.get (tasks st) tid = Some task ->
  claimLists (tasks (withClaimsArray st tid task)) = claimLists (tasks st).
Proof.
  intros Hget. unfold withClaimsArray.
  destruct (claims task) eqn:Ec; [reflexivity|]. simpl.
  unfold claimLists. apply map_set_same_view with (v0 := task); [assumption|].
  intros k'. simpl. now rewrite Ec.
Qed.

Lemma withClaimsArray_get (st : DriftGuardState) (tid : string) (task : TaskContract) :
  JsObject.get (tasks st) tid = Some task ->
  JsObject.get (tasks (withClaimsArray st tid task)) tid
  = Some (with_claims task (Some (orEmpty (claims task)))).
Proof.
  intros Hget. unfold withClaimsArray.
  destruct (claims task) eqn:Ec; simpl.
  - rewrite Hget. f_equal. destruct task; simpl in *. now subst.
  - now rewrite get_set_same.
Qed.

Lemma withClaimsArray_get_other (st : DriftGuardState) (tid k : string) (task : TaskContract) :
  tid <> k ->
  JsObject.get (tasks (withClaimsArray st tid task)) k = JsObject.get (tasks st) k.
Proof.
  intros Hne. unfold withClaimsArray.
  destruct (claims task); simpl; [reflexivity|]. now apply get_set_other.
Qed.

(** What [claimScope] does once the active task is found. *)
Lemma claimScope_run (e : Env) (paths : list string) (x : bool)
  (st : DriftGuardState) (tid : string) (task : TaskContract) :
  activeTaskId (session st) = Some tid ->
  tid <> "" ->
  JsObject.get (tasks st) tid = Some task ->
  let st1 := withClaimsArray st tid task in
  let found := conflictsFound
    (fun p => checkConflict minimatch p tid (orEmpty (activeClaims (session st))) (tasks st)) paths in
  claimScope minimatch e paths x st
  = match found with
    | _ :: _ => (Return (mkClaimResult false found), st1)
    | [] =>
        let newClaims := map (fun p => mkScopeClaim p x tid (nowMs e)) paths in
        let mine := (orEmpty (claims task) ++ newClaims)%list in
        let tasks2 := JsObject.set (tasks st1) tid (with_claims task (Some mine)) in
        let active2 := flat_map (fun t => orEmpty (claims t)) (JsObject.values tasks2) in
        let known2 :=
          JsObject.spread
            (match lastKnownFileHashes (session st) with
             | Some h => h
             | None => JsObject.empty
             end)
            (calculateFileHashes e (map path mine)) in
        (Return (mkClaimResult true []),
         mkDriftGuardState (version st)
           (with_lastKnownFileHashes (with_activeClaims (session st) (Some active2))
              (Some known2))
           tasks2
           (slice_last 100
              (logs st
               ++ [mkLogEntry (now e) "dg_claim_scope" (Some tid)
                     (Some ("Granted active claims: " ++ join ", " (map path newClaims))%string)])%list))
    end.
Proof.
  intros Hact Hne Hget. cbv zeta.
  assert (Hsess : session (withClaimsArray st tid task) = session st)
    by (unfold withClaimsArray; now destruct (claims task)).
  assert (Hvers : version (withClaimsArray st tid task) = version st)
    by (unfold withClaimsArray; now destruct (claims task)).
  assert (Hlogs : logs (withClaimsArray st tid task) = logs st)
    by (unfold withClaimsArray; now destruct (claims task)).
  assert (Hconf : forall p,
    checkConflict minimatch p tid (orEmpty (activeClaims (session st)))
      (tasks (withClaimsArray st tid task))
    = checkConflict minimatch p tid (orEmpty (activeClaims (session st))) (tasks st)).
  { intros p. unfold withClaimsArray.
    destruct (claims task); [reflexivity|]. simpl.
    now apply checkConflict_set_claims. }
  assert (Hget1 := @withClaimsArray_get st tid task Hget).
  remember (withClaimsArray st tid task) as st1 eqn:Est1.
  assert (Hst1 :
    (match claims task with
     | Some _ => ret tt
     | None => mutateTask tid (fun t => with_claims t (Some []))
     end) st = (Return tt, st1)).
  { subst st1. unfold withClaimsArray, mutateTask, modify, ret.
    destruct (claims task); [reflexivity|]. now rewrite Hget. }
  unfold claimScope. unfold bind at 1. unfold getState.
  rewrite Hact. unfold truthy.
  destruct (String.eqb_spec tid "") as [|_]; [contradiction|].
  cbn [negb]. rewrite Hget.
  unfold bind at 1. rewrite Hst1.
  unfold bind at 1. unfold getState.
  rewrite Hsess.
  rewrite claimLoop_conflicts.
  replace (conflictsFound
             (fun p => checkConflict minimatch p tid (orEmpty (activeClaims (session st))) (tasks st1))
             paths)
    with (conflictsFound
            (fun p => checkConflict minimatch p tid (orEmpty (activeClaims (session st))) (tasks st))
            paths)
    by (unfold conflictsFound; apply flat_map_ext; intros p; now rewrite Hconf).
  remember (conflictsFound
              (fun p => checkConflict minimatch p tid (orEmpty (activeClaims (session st))) (tasks st))
              paths) as found eqn:Ef.
  destruct found as [|c cs]; [|reflexivity].
  cbn [List.length Nat.ltb Nat.leb].
  assert (Hnone : forall p, In p paths ->
    checkConflict minimatch p tid (orEmpty (activeClaims (session st))) (tasks st1) = None).
  { intros p Hp. rewrite Hconf. revert p Hp. apply conflictsFound_nil. now symmetry. }
  rewrite claimLoop_newClaims by assumption.
  unfold bind at 1. unfold mutateTask at 1. unfold modify at 1.
  rewrite Hget1.
  unfold bind at 1. unfold refreshActiveClaims, modify.
  unfold bind at 1. unfold getState. cbn [tasks with_session with_tasks].
  rewrite get_set_same.
  unfold bind at 1. unfold mergeKnownHashes, modifySession, modify.
  unfold bind at 1. rewrite log_run.
  unfold bind, syncToDisk, ret.
  rewrite fold_left_app_claims. cbn [app].
  f_equal. unfold with_logs, with_session, with_tasks.
  cbn [version session tasks logs]. rewrite ?Hsess, ?Hvers, ?Hlogs. reflexivity.
Qed.

(** C2: with an active task, [claimScope] is all or nothing. If some
    requested path conflicts, it returns [granted = false] with the
    conflicting claims (one per conflicting path, in request order), no task's
    claim list changes, and the session (with its active-claim cache and its
    last-known hashes) and the log are as before. If no path conflicts, it
    returns [granted = true], the active task's claims are the old ones
    followed by one claim per requested path, owned by the task and carrying
    the requested exclusivity, every other task is untouched, and the
    active-claim cache is the concatenation of all tasks' claim lists. *)
Theorem claimScope_all_or_nothing
  (e : Env) (paths : list string) (x : bool)
  (st : DriftGuardState) (tid : string) (task : TaskContract) :
  activeTaskId (session st) = Some tid ->
  tid <> "" ->
  JsObject.get (tasks st) tid = Some task ->
  let conflictOf :=
    fun p => checkConflict minimatch p tid (orEmpty (activeClaims (session st))) (tasks st) in
  let r := claimScope minimatch e paths x st in
  ((exists p, In p paths /\ conflictOf p <> None) ->
     outcome r = Return (mkClaimResult false (conflictsFound conflictOf paths))
     /\ conflictsFound conflictOf paths <> []
     /\ (forall c, In c (conflictsFound conflictOf paths)
                   <-> exists p, In p paths /\ conflictOf p = Some c)
     /\ claimLists (tasks (after r)) = claimLists (tasks st)
     /\ session (after r) = session st
     /\ logs (after r) = logs st)
  /\ ((forall p, In p paths -> conflictOf p = None) ->
     outcome r = Return (mkClaimResult true [])
     /\ (exists task',
           JsObject.get (tasks (after r)) tid = Some task'
           /\ claims task'
              = Some (orEmpty (claims task)
                      ++ map (fun p => mkScopeClaim p x tid (nowMs e)) paths)%list)
     /\ (forall k, k <> tid -> JsObject.get (tasks (after r)) k = JsObject.get (tasks st) k)
     /\ activeClaims (session (after r))
        = Some (flat_map (fun t => orEmpty (claims t)) (JsObject.values (tasks (after r))))).
Proof.
  intros Hact Hne Hget conflictOf r.
  pose proof (@claimScope_run e paths x st tid task Hact Hne Hget) as Hrun.
  cbv zeta in Hrun. fold conflictOf in Hrun. fold r in Hrun.
  assert (Hmem : forall c, In c (conflictsFound conflictOf paths)
                           <-> exists p, In p paths /\ conflictOf p = Some c).
  { intros c. unfold conflictsFound. rewrite in_flat_map. split.
    - intros (p & Hp & Hc). exists p. split; [assumption|].
      destruct (conflictOf p); simpl in Hc; [|contradiction].
      destruct Hc as [->|[]]. reflexivity.
    - intros (p & Hp & Hc). exists p. split; [assumption|]. rewrite Hc. now left. }
  split.
  - intros (p & Hp & Hc).
    destruct (conflictsFound conflictOf paths) as [|c cs] eqn:Ef.
    + exfalso. apply Hc. apply (proj1 (conflictsFound_nil conflictOf paths) Ef p Hp).
    + rewrite Hrun. unfold outcome, after; simpl.
      split; [reflexivity|]. split; [discriminate|]. split; [exact Hmem|].
      split; [now apply withClaimsArray_claimLists|].
      unfold withClaimsArray. now destruct (claims task).
  - intros Hnone.
    apply conflictsFound_nil in Hnone. rewrite Hnone in Hrun.
    rewrite Hrun. unfold outcome, after; simpl.
    split; [reflexivity|]. split; [|split].
    + eexists. split; [apply get_set_same|reflexivity].
    + intros k Hk. rewrite get_set_other by congruence.
      apply withClaimsArray_get_other. congruence.
    + reflexivity.
Qed.

(** C10: [claimScope] does not read the focus state: run in any focus state
    it gives the same outcome and the same resulting state up to that focus
    state; it never throws a [StateTransitionError]; and on a session that
    satisfies the data-model invariant it throws exactly when no active task
    is set. *)
Theorem claimScope_ignores_focus
  (e : Env) (paths : list string) (x : bool) (st : DriftGuardState) :
  (forall f,
      claimScope minimatch e paths x (inFocus st f)
      = (outcome (claimScope minimatch e paths x st), inFocus (after (claimScope minimatch e paths x st)) f))
  /\ (forall action from allowedFrom,
        outcome (claimScope minimatch e paths x st)
        <> Throw (StateTransitionError action from allowedFrom))
  /\ (sessionInvariant st ->
      ((exists err, outcome (claimScope minimatch e paths x st) = Throw err)
       <-> activeTaskId (session st) = None)).
Proof.
  destruct (activeTaskId (session st)) as [tid|] eqn:Hact.
  - destruct (String.eqb_spec tid "") as [->|Hne].
    + (* the empty id is falsy *)
      assert (Hrun : forall s, activeTaskId (session s) = Some "" ->
                claimScope minimatch e paths x s
                = (Throw (PlainError "No active task to claim scope for."), s)).
      { intros s Hs. unfold claimScope, bind, getState. now rewrite Hs. }
      split; [|split].
      * intros f. rewrite !Hrun by assumption. reflexivity.
      * intros a fr al. rewrite Hrun by assumption. discriminate.
      * intros Hinv. destruct (Hinv "" Hact) as [Hbad _]. now contradiction Hbad.
    + destruct (JsObject.get (tasks st) tid) as [task|] eqn:Hget.
      * pose proof (fun f =>
          @claimScope_run e paths x (inFocus st f) tid task Hact Hne Hget) as HrunF.
        pose proof (@claimScope_run e paths x st tid task Hact Hne Hget) as Hrun.
        cbv zeta in HrunF, Hrun. simpl in HrunF.
        split; [|split].
        -- intros f. rewrite HrunF, Hrun.
           destruct (conflictsFound _ paths); unfold outcome, after; simpl.
           ++ f_equal. unfold inFocus, withClaimsArray; simpl.
              destruct (claims task); reflexivity.
           ++ f_equal. unfold inFocus, withClaimsArray; simpl.
              destruct (claims task); reflexivity.
        -- intros a fr al. rewrite Hrun.
           destruct (conflictsFound _ paths); discriminate.
        -- intros _. rewrite Hrun. split; [|discriminate].
           intros [err Herr]. destruct (conflictsFound _ paths); discriminate.
      * assert (Hrun : forall s, activeTaskId (session s) = Some tid ->
                  JsObject.get (tasks s) tid = None ->
                  claimScope minimatch e paths x s = (Throw TypeError, s)).
        { intros s Hs Hg. unfold claimScope, bind, getState. rewrite Hs. unfold truthy.
          destruct (String.eqb_spec tid ""); [contradiction|]. simpl. now rewrite Hg. }
        split; [|split].
        -- intros f. rewrite !Hrun by assumption. reflexivity.
        -- intros a fr al. rewrite Hrun by assumption. discriminate.
        -- intros Hinv. destruct (Hinv tid Hact) as [_ [task Ht]]. congruence.
  - assert (Hrun : forall s, activeTaskId (session s) = None ->
              claimScope minimatch e paths x s
              = (Throw (PlainError "No active task to claim scope for."), s)).
    { intros s Hs. unfold claimScope, bind, getState. now rewrite Hs. }
    split; [|split].
    + intros f. rewrite !Hrun by assumption. reflexivity.
    + intros a fr al. rewrite Hrun by assumption. discriminate.
    + intros _. rewrite Hrun by assumption. split; [reflexivity|].
      intros _. eexists. reflexivity.
Qed.

(* ----------------------------------------------------------------- *)
(** *** Delegation *)

Lemma delegateTask_run (e : Env) (subTaskTitle subTaskGoal : string)
  (subScope : list string) (st : DriftGuardState) (pid : string) (parent : TaskContract) :
  currentState (session st) = EXECUTING ->
  activeTaskId (session st) = Some pid ->
  JsObject.get (tasks st) pid = Some parent ->
  delegateTask minimatch e subTaskTitle subTaskGoal subScope st
  = let parentClaims := map path (orEmpty (claims parent)) in
    if negb (validateDelegation minimatch parentClaims subScope) && (0 <? List.length parentClaims)%nat
    then (Throw (PlainError DELEGATION_FAILED), st)
    else
      let sub := subTaskOf e subTaskTitle subTaskGoal subScope pid parent in
      (Return sub,
       mkDriftGuardState (version st) (session st)
         (JsObject.set
            (JsObject.set (tasks st) pid
               (with_subTaskIds parent (orEmpty (subTaskIds parent) ++ [taskId sub])%list))
            (taskId sub) sub)
         (slice_last 100
            (logs st
             ++ [mkLogEntry (now e) "dg_delegate" (Some pid)
                   (Some ("Delegated sub-task " ++ taskId sub ++ ": " ++ subTaskTitle)%string)])%list)).
Proof.
  intros Hstate Hact Hget. cbv zeta.
  unfold delegateTask. unfold bind at 1.
  rewrite validateTransition_run, Hstate. cbn [existsb FocusState_eqb orb].
  unfold bind at 1. unfold getState. rewrite Hact, Hget.
  destruct (negb _ && _); [reflexivity|].
  unfold bind at 1. unfold mutateTask at 1. unfold modify at 1. rewrite Hget.
  unfold bind at 1. unfold modify at 1.
  unfold bind at 1. rewrite log_run.
  unfold bind, syncToDisk, ret. reflexivity.
Qed.

(** C5: in EXECUTING with an active parent task, a parent holding at least
    one claim can delegate exactly when every child pattern is covered by one
    of its claim patterns (same text, or accepted by the parent pattern's
    matcher), and otherwise the call throws the delegation error and changes
    nothing; a parent holding no claim can always delegate. The task returned
    has the parent as [parentTaskId], the requested scope, and no claims; it is
    registered under its id and, its id being a fresh one, that id is the last
    entry of the parent's child list; the session itself is unchanged. *)
Theorem delegateTask_containment
  (e : Env) (subTaskTitle subTaskGoal : string) (subScope : list string)
  (st : DriftGuardState) (pid : string) (parent : TaskContract) :
  currentState (session st) = EXECUTING ->
  activeTaskId (session st) = Some pid ->
  JsObject.get (tasks st) pid = Some parent ->
  let parentClaims := map path (orEmpty (claims parent)) in
  let r := delegateTask minimatch e subTaskTitle subTaskGoal subScope st in
  (parentClaims <> [] ->
     ((exists sub, outcome r = Return sub) <-> contained minimatch parentClaims subScope)
     /\ (~ contained minimatch parentClaims subScope ->
         r = (Throw (PlainError DELEGATION_FAILED), st)))
  /\ (parentClaims = [] -> exists sub, outcome r = Return sub)
  /\ (forall sub, outcome r = Return sub ->
        parentTaskId sub = Some pid
        /\ allowedScopes sub = subScope
        /\ claims sub = Some []
        /\ JsObject.get (tasks (after r)) (taskId sub) = Some sub
        /\ (taskId sub <> pid ->
            exists parent',
              JsObject.get (tasks (after r)) pid = Some parent'
              /\ subTaskIds parent' = Some (orEmpty (subTaskIds parent) ++ [taskId sub])%list
              /\ claims parent' = claims parent)
        /\ session (after r) = session st).
Proof.
  intros Hstate Hact Hget parentClaims r.
  pose proof (@delegateTask_run e subTaskTitle subTaskGoal subScope st pid parent
                Hstate Hact Hget) as Hrun.
  cbv zeta in Hrun. fold parentClaims in Hrun. fold r in Hrun.
  pose proof (validateDelegation_true parentClaims subScope) as Hval.
  split; [|split].
  - intros Hsome.
    assert (Hlen : (0 <? List.length parentClaims)%nat = true)
      by (destruct parentClaims; [congruence|reflexivity]).
    rewrite Hlen, andb_true_r in Hrun.
    destruct (validateDelegation minimatch parentClaims subScope) eqn:Ev; simpl in Hrun.
    + split.
      * split; [intros _; now apply Hval|]. intros _. rewrite Hrun. eexists. reflexivity.
      * intros Hn. exfalso. apply Hn. now apply Hval.
    + assert (Hn : ~ contained minimatch parentClaims subScope)
        by (intros Hc; apply Hval in Hc; congruence).
      split.
      * split; [|intros Hc; contradiction].
        intros [sub Hs]. rewrite Hrun in Hs. discriminate.
      * intros _. exact Hrun.
  - intros Hnil. rewrite Hnil in Hrun. simpl in Hrun. rewrite andb_false_r in Hrun.
    rewrite Hrun. eexists. reflexivity.
  - intros sub Hsub. rewrite Hrun in Hsub |- *.
    destruct (negb _ && _); [discriminate|].
    unfold outcome, after in *. simpl in Hsub. inversion Hsub; subst sub. simpl.
    split; [reflexivity|]. split; [reflexivity|]. split; [reflexivity|].
    split; [apply get_set_same|]. split; [|reflexivity].
    intros Hfresh. eexists. split.
    + rewrite get_set_other by congruence. apply get_set_same.
    + split; reflexivity.
Qed.

(* ----------------------------------------------------------------- *)
(** *** Integrity monitor *)

Lemma In_set (V : Type) (o : JsObject.t V) (k k' : string) (v v' : V) :
  In (k, v) (JsObject.set o k' v') -> (k, v) = (k', v') \/ In (k, v) o.
Proof.
  induction o as [|[k0 v0] rest IH]; simpl.
  - intros [H|[]]. now left.
  - destruct (String.eqb_spec k0 k') as [->|Hne]; simpl.
    + intros [H|H]; [now left | right; now right].
    + intros [H|H]; [right; now left|]. destruct (IH H); auto.
Qed.

Lemma get_set_some (V : Type) (o : JsObject.t V) (k k' : string) (v v' : V) :
  JsObject.get o k' = Some v' -> exists v'', JsObject.get (JsObject.set o k v) k' = Some v''.
Proof.
  intros H. destruct (String.eqb_spec k k') as [->|Hne].
  - rewrite get_set_same. eauto.
  - rewrite get_set_other by assumption. eauto.
Qed.

Lemma nonEmptyHashes_set (h : Hashes) (file hash : string) :
  nonEmptyHashes h -> hash <> "" -> nonEmptyHashes (JsObject.set h file hash).
Proof.
  intros Hh Hne f x Hin. apply In_set in Hin as [Heq|Hin].
  - inversion Heq; subst. assumption.
  - eapply Hh; eassumption.
Qed.

Lemma nonEmptyHashes_assign (h : Hashes) (file hash : string) :
  nonEmptyHashes h -> hash <> "" -> nonEmptyHashes (assign h file hash).
Proof.
  intros Hh Hne. unfold assign.
  destruct (JsObject.get h file); [now apply nonEmptyHashes_set|].
  destruct (String.eqb file "__proto__"); [assumption|now apply nonEmptyHashes_set].
Qed.

Lemma nonEmptyHashes_spread (a b : Hashes) :
  nonEmptyHashes a -> nonEmptyHashes b -> nonEmptyHashes (JsObject.spread a b).
Proof.
  unfold JsObject.spread. revert a.
  induction b as [|[k v] b IH]; intros a Ha Hb; simpl; [assumption|].
  apply IH.
  - apply nonEmptyHashes_set; [assumption|]. apply (Hb k v). now left.
  - intros f x Hin. apply (Hb f x). now right.
Qed.

Lemma calculateFileHashes_nonEmpty (e : Env) (patterns : list string) :
  digestsNonEmpty e -> nonEmptyHashes (calculateFileHashes e patterns).
Proof.
  intros He. unfold calculateFileHashes.
  destruct patterns as [|p ps]; [intros f x []|].
  generalize (listFiles e (p :: ps)).
  assert (Hacc : nonEmptyHashes (@JsObject.empty string)) by (intros f x []).
  revert Hacc. generalize (@JsObject.empty string).
  intros acc Hacc files. revert acc Hacc.
  induction files as [|file files IH]; intros acc Hacc; simpl; [assumption|].
  apply IH. destruct (readHash e file) as [hash|] eqn:E; [|assumption].
  apply nonEmptyHashes_assign; [assumption|]. eapply He; eassumption.
Qed.

(** The files [calculateFileHashes] records: those git lists that can be
    read, except one named [__proto__]. *)
Lemma calculateFileHashes_In (e : Env) (patterns : list string) (file hash : string) :
  patterns <> [] ->
  (In (file, hash) (calculateFileHashes e patterns)
   <-> In file (listFiles e patterns) /\ readHash e file = Some hash
       /\ file <> "__proto__").
Proof.
  intros Hp. unfold calculateFileHashes.
  destruct patterns as [|p ps]; [congruence|]. clear Hp.
  set (step := fun (hashes : Hashes) (f : string) =>
                 match readHash e f with
                 | Some h => assign hashes f h
                 | None => hashes
                 end).
  assert (Hfold : forall files acc,
            (forall f h, In (f, h) acc -> readHash e f = Some h /\ f <> "__proto__") ->
            (In (file, hash) (fold_left step files acc)
             <-> In (file, hash) acc
                 \/ (In file files /\ readHash e file = Some hash
                     /\ file <> "__proto__"))).
  { induction files as [|f files IH]; intros acc Hacc; simpl.
    - tauto.
    - assert (Hstep : forall x h, In (x, h) (step acc f)
                        <-> In (x, h) acc
                            \/ (x = f /\ readHash e f = Some h /\ f <> "__proto__")).
      { intros x h. unfold step. destruct (readHash e f) as [hf|] eqn:Ef.
        2:{ split; [auto|]. intros [H|(_ & H & _)]; [assumption|discriminate]. }
        unfold assign.
        assert (Hset : In (x, h) (JsObject.set acc f hf)
                       <-> In (x, h) acc \/ (x = f /\ Some hf = Some h)).
        { split.
          - intros H. apply In_set in H as [H|H]; [|auto].
            inversion H; subst. auto.
          - intros [H|[-> H]].
            + destruct (String.eqb_spec f x) as [<-|Hne].
              * destruct (Hacc f h H) as [Hr _].
                assert (h = hf) by congruence. subst h.
                apply get_In, get_set_same.
              * clear - H Hne. induction acc as [|[k0 v0] acc IHacc]; [destruct H|].
                simpl. destruct (String.eqb_spec k0 f) as [->|Hk].
                -- destruct H as [H|H]; [inversion H; congruence|now right].
                -- destruct H as [H|H]; [now left|right; auto].
            + inversion H; subst h. apply get_In, get_set_same. }
        destruct (JsObject.get acc f) as [old|] eqn:Eg.
        - rewrite Hset. split.
          + intros [H|[-> H]]; [auto|]. left.
            apply get_In in Eg. destruct (Hacc f old Eg) as [Hr _].
            assert (old = h) by congruence. now subst.
          + intros [H|(-> & H & _)]; auto.
        - destruct (String.eqb_spec f "__proto__") as [->|Hne].
          + split; [auto|]. intros [H|(_ & _ & H)]; [assumption|congruence].
          + rewrite Hset. split.
            * intros [H|[-> H]]; auto.
            * intros [H|(-> & H & _)]; auto. }
      rewrite IH.
      + rewrite Hstep. split.
        * intros [[H|(-> & H1 & H2)]|H]; [auto| |tauto].
          right. split; [now left|auto].
        * intros [H|([<-|H0] & H1 & H2)]; [auto| |tauto].
          left. right. auto.
      + intros x h Hin. apply Hstep in Hin as [Hin|(-> & H1 & H2)]; auto. }
  rewrite Hfold by (intros f h []).
  split; [intros [[]|H]; exact H|auto].
Qed.

(** Enumeration lists the entries, each once. *)
Lemma In_insertIndexed (V : Type) (i : N) (kv : string * V)
  (l : list (N * (string * V))) (y : N * (string * V)) :
  In y (JsObject.insertIndexed i kv l) <-> y = (i, kv) \/ In y l.
Proof.
  clear minimatch.
  induction l as [|[j kv'] l IH]; simpl.
  - split; intros [H|H]; auto.
  - destruct (i <? j)%N; simpl; [split; intros [H|H]; auto|].
    rewrite IH. split; intros H; repeat destruct H as [H|H]; auto.
Qed.

Lemma In_indexed (V : Type) (o : JsObject.t V) (i : N) (kv : string * V) :
  In (i, kv) (JsObject.indexed o) <-> In kv o /\ JsObject.arrayIndex (fst kv) = Some i.
Proof.
  clear minimatch.
  unfold JsObject.indexed. induction o as [|x o IH]; simpl; [tauto|].
  destruct (JsObject.arrayIndex (fst x)) as [j|] eqn:E.
  - rewrite In_insertIndexed, IH. split.
    + intros [H|[H1 H2]]; [inversion H; subst; auto|auto].
    + intros [[->|H1] H2]; [left; congruence|auto].
  - rewrite IH. split.
    + intros [H1 H2]. auto.
    + intros [[->|H1] H2]; [congruence|auto].
Qed.

Lemma In_enumerate (V : Type) (o : JsObject.t V) (x : string * V) :
  In x (JsObject.enumerate o) <-> In x o.
Proof.
  clear minimatch.
  unfold JsObject.enumerate, JsObject.named.
  rewrite in_app_iff, in_map_iff, filter_In. split.
  - intros [([i kv] & <- & H)|[H _]]; [|assumption]. now apply In_indexed in H.
  - intros H. destruct (JsObject.arrayIndex (fst x)) as [i|] eqn:E.
    + left. exists (i, x). split; [reflexivity|]. now apply In_indexed.
    + right. auto.
Qed.

(** With non-empty hashes, a name reads as falsy exactly when it is neither
    an own property nor a property of [Object.prototype]. *)
Lemma falsy_lookup (h : Hashes) (file : string) :
  nonEmptyHashes h ->
  falsy (lookup h file)
  = match JsObject.get h file with
    | Some _ => false
    | None => negb (inherited file)
    end.
Proof.
  intros Hne. unfold lookup.
  destruct (JsObject.get h file) as [k|] eqn:E.
  - apply get_In in E. apply Hne in E. simpl.
    destruct (String.eqb_spec k ""); [contradiction|reflexivity].
  - now destruct (inherited file).
Qed.

Lemma truthy_get (h : Hashes) (file : string) :
  nonEmptyHashes h ->
  truthy (JsObject.get h file)
  = match JsObject.get h file with Some _ => true | None => false end.
Proof.
  intros Hne. unfold truthy.
  destruct (JsObject.get h file) as [k|] eqn:E; [|reflexivity].
  apply get_In in E. apply Hne in E.
  destruct (String.eqb_spec k ""); [contradiction|reflexivity].
Qed.

Lemma map_flat_map (A B C : Type) (g : B -> C) (f : A -> list B) (l : list A) :
  map g (flat_map f l) = flat_map (fun a => map g (f a)) l.
Proof.
  induction l as [|a l IH]; simpl; [reflexivity|].
  now rewrite map_app, IH.
Qed.

Lemma dirtyFiles_reported (known current : Hashes) (patterns : list string) :
  (flat_map (modifiedOrNew known) (JsObject.enumerate current)
   ++ flat_map (deletedInScope minimatch current patterns) (JsObject.enumerate known))%list
  = map annotate (reportedDrift minimatch known current patterns).
Proof.
  unfold reportedDrift.
  rewrite map_app, !map_flat_map. f_equal.
  - apply flat_map_ext. intros [file hash]. unfold modifiedOrNew. cbn [fst snd].
    destruct (falsy (lookup known file)); [reflexivity|].
    destruct (differs (lookup known file) hash); reflexivity.
  - apply flat_map_ext. intros [file hash]. unfold deletedInScope. cbn [fst snd].
    destruct (falsy (lookup current file)); [|reflexivity].
    destruct (existsb _ patterns); reflexivity.
Qed.

Lemma differs_lookup (h : Hashes) (file hash : string) :
  differs (lookup h file) hash
  = match JsObject.get h file with
    | Some k => negb (String.eqb k hash)
    | None => true
    end.
Proof.
  unfold lookup. destruct (JsObject.get h file); [reflexivity|].
  now destruct (inherited file).
Qed.

Lemma reportedDrift_NEW (known current : Hashes) (patterns : list string) (file : string) :
  nonEmptyHashes known -> nonEmptyHashes current ->
  (In (file, NEW) (reportedDrift minimatch known current patterns)
   <-> (exists hash, In (file, hash) current)
       /\ JsObject.get known file = None /\ inherited file = false).
Proof.
  intros Hk Hc. unfold reportedDrift. rewrite in_app_iff, !in_flat_map. split.
  - intros [([f h] & Hin & Hx)|([f k] & Hin & Hx)]; cbn [fst snd] in Hx.
    + apply (proj1 (In_enumerate _ _)) in Hin.
      rewrite falsy_lookup, differs_lookup in Hx by assumption.
      destruct (JsObject.get known f) as [k|] eqn:E.
      * destruct (negb (String.eqb k h)); simpl in Hx; [|contradiction].
        destruct Hx as [Hx|[]]; discriminate.
      * destruct (inherited f) eqn:Ei; simpl in Hx.
        -- destruct Hx as [Hx|[]]; discriminate.
        -- destruct Hx as [Hx|[]]. inversion Hx; subst f.
           split; [exists h; assumption|split; assumption].
    + rewrite falsy_lookup in Hx by assumption.
      destruct (JsObject.get current f); [contradiction|].
      destruct (negb (inherited f)); [|contradiction].
      destruct (existsb _ patterns); simpl in Hx; [|contradiction].
      destruct Hx as [Hx|[]]; discriminate.
  - intros ([h Hin] & Hnone & Hi). left. exists (file, h).
    split; [now apply (proj2 (In_enumerate _ _))|]. cbn [fst snd].
    rewrite falsy_lookup by assumption. rewrite Hnone, Hi. now left.
Qed.

Lemma reportedDrift_MODIFIED (known current : Hashes) (patterns : list string)
  (file : string) :
  nonEmptyHashes known -> nonEmptyHashes current ->
  (In (file, MODIFIED) (reportedDrift minimatch known current patterns)
   <-> exists hash,
         In (file, hash) current
         /\ ((exists k, JsObject.get known file = Some k /\ k <> hash)
             \/ (JsObject.get known file = None /\ inherited file = true))).
Proof.
  intros Hk Hc. unfold reportedDrift. rewrite in_app_iff, !in_flat_map. split.
  - intros [([f h] & Hin & Hx)|([f k] & Hin & Hx)]; cbn [fst snd] in Hx.
    + apply (proj1 (In_enumerate _ _)) in Hin.
      rewrite falsy_lookup, differs_lookup in Hx by assumption.
      destruct (JsObject.get known f) as [k|] eqn:E.
      * destruct (String.eqb_spec k h); simpl in Hx; [contradiction|].
        destruct Hx as [Hx|[]]. inversion Hx; subst f.
        exists h. split; [assumption|]. left. exists k. auto.
      * destruct (inherited f) eqn:Ei; simpl in Hx.
        -- destruct Hx as [Hx|[]]. inversion Hx; subst f.
           exists h. split; [assumption|]. right. auto.
        -- destruct Hx as [Hx|[]]; discriminate.
    + rewrite falsy_lookup in Hx by assumption.
      destruct (JsObject.get current f); [contradiction|].
      destruct (negb (inherited f)); [|contradiction].
      destruct (existsb _ patterns); simpl in Hx; [|contradiction].
      destruct Hx as [Hx|[]]; discriminate.
  - intros (h & Hin & Hcase). left. exists (file, h).
    split; [now apply (proj2 (In_enumerate _ _))|]. cbn [fst snd].
    rewrite falsy_lookup, differs_lookup by assumption.
    destruct Hcase as [(k & Hget & Hne)|[Hget Hi]]; rewrite Hget.
    + destruct (String.eqb_spec k h); [contradiction|now left].
    + rewrite Hi. now left.
Qed.

Lemma reportedDrift_DELETED (known current : Hashes) (patterns : list string)
  (file : string) :
  nonEmptyHashes known -> nonEmptyHashes current ->
  (In (file, DELETED) (reportedDrift minimatch known current patterns)
   <-> (exists k, In (file, k) known)
       /\ JsObject.get current file = None /\ inherited file = false
       /\ exists p, In p patterns /\ minimatch file p = true).
Proof.
  intros Hk Hc. unfold reportedDrift. rewrite in_app_iff, !in_flat_map. split.
  - intros [([f h] & Hin & Hx)|([f k] & Hin & Hx)]; cbn [fst snd] in Hx.
    + rewrite falsy_lookup, differs_lookup in Hx by assumption.
      destruct (JsObject.get known f) as [k|].
      * destruct (negb (String.eqb k h)); simpl in Hx; [|contradiction].
        destruct Hx as [Hx|[]]; discriminate.
      * destruct (inherited f); simpl in Hx; destruct Hx as [Hx|[]]; discriminate.
    + apply (proj1 (In_enumerate _ _)) in Hin.
      rewrite falsy_lookup in Hx by assumption.
      destruct (JsObject.get current f) eqn:E; [contradiction|].
      destruct (inherited f) eqn:Ei; simpl in Hx; [contradiction|].
      destruct (existsb _ patterns) eqn:Ex; simpl in Hx; [|contradiction].
      destruct Hx as [Hx|[]]. inversion Hx; subst f.
      apply existsb_exists in Ex.
      split; [exists k; assumption|]. split; [assumption|]. split; assumption.
  - intros ([k Hin] & Hnone & Hi & Hp). right. exists (file, k).
    split; [now apply (proj2 (In_enumerate _ _))|]. cbn [fst snd].
    rewrite falsy_lookup by assumption. rewrite Hnone, Hi. cbn [negb].
    replace (existsb (fun p => minimatch file p) patterns) with true
      by (symmetry; now apply existsb_exists).
    now left.
Qed.

Lemma flat_map_agree (A B : Type) (f g : A -> list B) (l : list A) :
  (forall a, In a l -> f a = g a) -> flat_map f l = flat_map g l.
Proof.
  induction l as [|a l IH]; intros H; simpl; [reflexivity|].
  rewrite (H a) by now left. f_equal. apply IH. intros b Hb. apply H. now right.
Qed.

(** Away from the names of [Object.prototype] the report is the one the
    specification describes. *)
Lemma reportedDrift_plain (known current : Hashes) (patterns : list string) :
  nonEmptyHashes known -> nonEmptyHashes current ->
  plainNames known current ->
  reportedDrift minimatch known current patterns
  = driftFindings minimatch known current patterns.
Proof.
  intros Hk Hc Hplain. unfold reportedDrift, driftFindings. f_equal.
  - apply flat_map_agree. intros [file hash] Hin. cbn [fst snd].
    apply (proj1 (In_enumerate _ _)) in Hin.
    rewrite falsy_lookup, differs_lookup by assumption.
    assert (Hi : inherited file = false).
    { apply Hplain. apply in_or_app. left. unfold JsObject.keys.
      apply in_map_iff. exists (file, hash). auto. }
    rewrite Hi. destruct (JsObject.get known file) as [k|]; [|reflexivity].
    destruct (String.eqb k hash); reflexivity.
  - apply flat_map_agree. intros [file k] Hin. cbn [fst snd].
    apply (proj1 (In_enumerate _ _)) in Hin.
    rewrite falsy_lookup by assumption.
    assert (Hi : inherited file = false).
    { apply Hplain. apply in_or_app. right. unfold JsObject.keys.
      apply in_map_iff. exists (file, k). auto. }
    rewrite Hi. destruct (JsObject.get current file); reflexivity.
Qed.

Lemma driftFindings_NEW (known current : Hashes) (patterns : list string) (file : string) :
  In (file, NEW) (driftFindings minimatch known current patterns)
  <-> (exists hash, In (file, hash) current) /\ JsObject.get known file = None.
Proof.
  unfold driftFindings. rewrite in_app_iff, !in_flat_map. split.
  - intros [([f h] & Hin & Hx)|([f k] & Hin & Hx)]; simpl in Hx.
    + apply (proj1 (In_enumerate _ _)) in Hin. destruct (JsObject.get known f) as [k|] eqn:E.
      * destruct (String.eqb k h); simpl in Hx; [contradiction|].
        destruct Hx as [Hx|[]]; discriminate.
      * destruct Hx as [Hx|[]]. inversion Hx; subst. eauto.
    + destruct (JsObject.get current f); [contradiction|].
      destruct (existsb _ patterns); simpl in Hx; [|contradiction].
      destruct Hx as [Hx|[]]; discriminate.
  - intros [[h Hin] Hnone]. left. exists (file, h). split; [now apply (proj2 (In_enumerate _ _))|].
    simpl. rewrite Hnone. now left.
Qed.

Lemma driftFindings_MODIFIED (known current : Hashes) (patterns : list string) (file : string) :
  In (file, MODIFIED) (driftFindings minimatch known current patterns)
  <-> exists hash k,
        In (file, hash) current /\ JsObject.get known file = Some k /\ k <> hash.
Proof.
  unfold driftFindings. rewrite in_app_iff, !in_flat_map. split.
  - intros [([f h] & Hin & Hx)|([f k] & Hin & Hx)]; simpl in Hx.
    + apply (proj1 (In_enumerate _ _)) in Hin. destruct (JsObject.get known f) as [k|] eqn:E.
      * destruct (String.eqb_spec k h); simpl in Hx; [contradiction|].
        destruct Hx as [Hx|[]]. inversion Hx; subst. eauto.
      * destruct Hx as [Hx|[]]; discriminate.
    + destruct (JsObject.get current f); [contradiction|].
      destruct (existsb _ patterns); simpl in Hx; [|contradiction].
      destruct Hx as [Hx|[]]; discriminate.
  - intros (h & k & Hin & Hk & Hne). left. exists (file, h).
    split; [now apply (proj2 (In_enumerate _ _))|].
    simpl. rewrite Hk. destruct (String.eqb_spec k h); [contradiction|now left].
Qed.

Lemma driftFindings_DELETED (known current : Hashes) (patterns : list string) (file : string) :
  In (file, DELETED) (driftFindings minimatch known current patterns)
  <-> (exists k, In (file, k) known)
      /\ JsObject.get current file = None
      /\ exists p, In p patterns /\ minimatch file p = true.
Proof.
  unfold driftFindings. rewrite in_app_iff, !in_flat_map. split.
  - intros [([f h] & Hin & Hx)|([f k] & Hin & Hx)]; simpl in Hx.
    + destruct (JsObject.get known f) as [k|].
      * destruct (String.eqb k h); simpl in Hx; [contradiction|].
        destruct Hx as [Hx|[]]; discriminate.
      * destruct Hx as [Hx|[]]; discriminate.
    + apply (proj1 (In_enumerate _ _)) in Hin. destruct (JsObject.get current f) eqn:E; [contradiction|].
      destruct (existsb _ patterns) eqn:Ex; simpl in Hx; [|contradiction].
      destruct Hx as [Hx|[]]. inversion Hx; subst.
      apply existsb_exists in Ex. eauto.
  - intros ([k Hin] & Hnone & Hp). right. exists (file, k).
    split; [now apply (proj2 (In_enumerate _ _))|].
    simpl. rewrite Hnone.
    replace (existsb (fun p => minimatch file p) patterns) with true
      by (symmetry; now apply existsb_exists).
    now left.
Qed.

(** C6: [healthCheck] changes nothing. With no active claim it answers
    NO_CLAIMS. Otherwise, hashes being non-empty digests, it compares the
    hashes computed for the active-claim patterns (those of the files git
    lists that can be read, a file named [__proto__] left out) with the
    last-known cache: the answer is CLEAN with an empty list when there is
    no finding and DIRTY with the annotated findings otherwise. For a file
    whose name is not a property of [Object.prototype] the findings are those
    of the specification: NEW iff it is present now and absent from the
    cache, MODIFIED iff it is present in both with different hashes, DELETED
    iff it is in the cache, absent now and matched by some active claim
    pattern; and when no file bears such a name the whole report is the
    specified one. A file that does bear such a name ([constructor],
    [toString], ...) is read from the prototype where it is absent: present
    now and absent from the cache it is reported MODIFIED, not NEW, and in
    the cache but absent now it is not reported at all. *)
Theorem healthCheck_reports_drift (e : Env) (st : DriftGuardState) :
  let active := orEmpty (activeClaims (session st)) in
  let patterns := map path active in
  let current := calculateFileHashes e patterns in
  let known := knownHashes st in
  let reported := reportedDrift minimatch known current patterns in
  digestsNonEmpty e ->
  nonEmptyHashes known ->
  after (healthCheck minimatch e st) = st
  /\ (active = [] -> outcome (healthCheck minimatch e st) = Return (mkHealthResult NO_CLAIMS []))
  /\ (active <> [] ->
      (reported = [] -> outcome (healthCheck minimatch e st) = Return (mkHealthResult CLEAN []))
      /\ (reported <> [] ->
          outcome (healthCheck minimatch e st)
          = Return (mkHealthResult DIRTY (map annotate reported)))
      /\ (forall file hash,
            In (file, hash) current
            <-> In file (listFiles e patterns) /\ readHash e file = Some hash
                /\ file <> "__proto__")
      /\ (forall file,
            In (file, NEW) reported
            <-> (exists hash, In (file, hash) current)
                /\ JsObject.get known file = None /\ inherited file = false)
      /\ (forall file,
            In (file, MODIFIED) reported
            <-> exists hash,
                  In (file, hash) current
                  /\ ((exists k, JsObject.get known file = Some k /\ k <> hash)
                      \/ (JsObject.get known file = None /\ inherited file = true)))
      /\ (forall file,
            In (file, DELETED) reported
            <-> (exists k, In (file, k) known)
                /\ JsObject.get current file = None /\ inherited file = false
                /\ exists p, In p patterns /\ minimatch file p = true)
      /\ (plainNames known current ->
          reported = driftFindings minimatch known current patterns)).
Proof.
  intros active patterns current known reported He Hk.
  assert (Hc : nonEmptyHashes current) by now apply calculateFileHashes_nonEmpty.
  assert (Hrun : healthCheck minimatch e st
    = match active with
      | [] => (Return (mkHealthResult NO_CLAIMS []), st)
      | _ :: _ =>
          match map annotate reported with
          | [] => (Return (mkHealthResult CLEAN []), st)
          | d :: ds => (Return (mkHealthResult DIRTY (d :: ds)), st)
          end
      end).
  { unfold healthCheck, bind, getState. fold active.
    destruct active as [|c cs] eqn:Ea; [reflexivity|].
    cbn [List.length Nat.eqb]. fold patterns. fold current.
    change (match lastKnownFileHashes (session st) with
            | Some h => h
            | None => JsObject.empty
            end) with known.
    rewrite dirtyFiles_reported. fold reported.
    destruct (map annotate reported); reflexivity. }
  rewrite Hrun. split; [|split].
  - destruct active; [reflexivity|]. destruct (map annotate reported); reflexivity.
  - intros ->. reflexivity.
  - intros Hne.
    assert (Hp : patterns <> []).
    { subst patterns. destruct active; [congruence|discriminate]. }
    destruct active as [|c cs]; [congruence|].
    split; [|split; [|split; [|split; [|split; [|split]]]]].
    + intros ->. reflexivity.
    + intros Hf. destruct reported; [congruence|]. reflexivity.
    + intros file hash. now apply calculateFileHashes_In.
    + intros file. now apply reportedDrift_NEW.
    + intros file. now apply reportedDrift_MODIFIED.
    + intros file. now apply reportedDrift_DELETED.
    + now apply reportedDrift_plain.
Qed.

(* ----------------------------------------------------------------- *)
(** *** Well-formed sessions *)

Lemma keepsWellFormed_refl (st : DriftGuardState) : keepsWellFormed st st.
Proof. intros H; exact H. Qed.

Lemma keepsWellFormed_trans (a b c : DriftGuardState) :
  keepsWellFormed a b -> keepsWellFormed b c -> keepsWellFormed a c.
Proof. unfold keepsWellFormed; auto. Qed.

Lemma keepsWellFormed_log (e : Env) (action : string) (taskId details : option string) :
  respects keepsWellFormed (log e action taskId details).
Proof. intros st H. rewrite log_run. exact H. Qed.

Lemma keepsWellFormed_setTask (key : string) (task : TaskContract) :
  respects keepsWellFormed
    (modify (fun st => with_tasks st (JsObject.set (tasks st) key task))).
Proof.
  intros st [Hinv Hk]. split; [|exact Hk].
  intros tid Hact. destruct (Hinv tid Hact) as [Hne [t Ht]].
  split; [assumption|]. simpl. eapply get_set_some; eassumption.
Qed.

Lemma keepsWellFormed_mutateTask (key : string) (f : TaskContract -> TaskContract) :
  respects keepsWellFormed (mutateTask key f).
Proof.
  intros st H. unfold mutateTask, modify, after; simpl.
  destruct (JsObject.get (tasks st) key) as [task|]; [|exact H].
  apply (@keepsWellFormed_setTask key (f task) st H).
Qed.

Lemma keepsWellFormed_refreshActiveClaims : respects keepsWellFormed refreshActiveClaims.
Proof. intros st H. exact H. Qed.

Lemma keepsWellFormed_mergeKnownHashes (h : Hashes) :
  nonEmptyHashes h -> respects keepsWellFormed (mergeKnownHashes h).
Proof.
  intros Hh st [Hinv Hk]. split; [exact Hinv|].
  unfold mergeKnownHashes, modifySession, modify, after, knownHashes; simpl.
  now apply nonEmptyHashes_spread.
Qed.

Lemma keepsWellFormed_modifySession (f : DriftSession -> DriftSession) :
  (forall s, (activeTaskId (f s) = activeTaskId s \/ activeTaskId (f s) = None)
             /\ lastKnownFileHashes (f s) = lastKnownFileHashes s) ->
  respects keepsWellFormed (modifySession f).
Proof.
  intros Hf st [Hinv Hk]. destruct (Hf (session st)) as [Hact Hhash]. split.
  - intros tid Ht. unfold modifySession, modify, after in Ht; simpl in Ht.
    destruct Hact as [Hact|Hact]; rewrite Hact in Ht; [|discriminate].
    exact (Hinv tid Ht).
  - unfold modifySession, modify, after, knownHashes; simpl. rewrite Hhash. exact Hk.
Qed.

Lemma wellFormed_fresh (e : Env) : wellFormed (createInitialState e).
Proof. split; [intros tid H; discriminate | intros f x []]. Qed.

Lemma keepsWellFormed_fresh (e : Env) :
  respects keepsWellFormed (putState (createInitialState e)).
Proof. intros st _. apply wellFormed_fresh. Qed.

Lemma keepsWellFormed_hydrate (e : Env) :
  diskWellFormed e -> respects keepsWellFormed (hydrate e).
Proof.
  intros Hd st H. unfold hydrate. unfold diskWellFormed in Hd.
  destruct (disk e) as [| |parsed]; try exact H.
  unfold bind, after, putState, ret.
  destruct (negb _); rewrite !log_run; exact Hd.
Qed.

Lemma keepsWellFormed_proposeTask (e : Env) (title goal : string)
  (allowedScopes : list string) (items : list ChecklistInput)
  (level : option StrictnessLevel) :
  respects keepsWellFormed (proposeTask e title goal allowedScopes items level).
Proof.
  intros st [Hinv Hk].
  unfold proposeTask. unfold bind at 1. rewrite validateTransition_run.
  destruct (existsb _ [IDLE]); [|split; assumption].
  unfold bind, modifySession, syncToDisk, ret. unfold modify.
  rewrite log_run. split; [|exact Hk].
  intros tid Ht. simpl in Ht. inversion Ht; subst tid.
  split; [discriminate|]. simpl. rewrite get_set_same. eauto.
Qed.

#[local] Hint Resolve keepsWellFormed_refl keepsWellFormed_trans : core.

Ltac keepsWellFormed_leaf :=
  idtac;
  match goal with
  | |- respects _ (log _ _ _ _) => apply keepsWellFormed_log
  | |- respects _ (mutateTask _ _) => apply keepsWellFormed_mutateTask
  | |- respects _ refreshActiveClaims => apply keepsWellFormed_refreshActiveClaims
  | |- respects _ (mergeKnownHashes (calculateFileHashes _ _)) =>
      apply keepsWellFormed_mergeKnownHashes;
      apply calculateFileHashes_nonEmpty; assumption
  | |- respects _ (modifySession _) =>
      apply keepsWellFormed_modifySession; intros ?; simpl; auto
  | |- respects _ (putState (createInitialState _)) => apply keepsWellFormed_fresh
  | |- respects _ (hydrate _) => apply keepsWellFormed_hydrate; assumption
  | |- respects _ (proposeTask _ _ _ _ _ _) => apply keepsWellFormed_proposeTask
  | |- respects _ (modify (fun st => with_tasks st (JsObject.set (tasks st) _ _))) =>
      apply keepsWellFormed_setTask
  end.

(** Every request keeps the session well formed, provided the file system
    hands out non-empty digests and the snapshot it may reload is well
    formed; a fresh session is well formed. *)
Lemma wellFormed_perform (e : Env) (r : Request) :
  digestsNonEmpty e -> diskWellFormed e -> respects keepsWellFormed (perform minimatch e r).
Proof.
  intros He Hd. destruct r; unfold perform.
  - unfold initialize. respects_steps keepsWellFormed_leaf.
  - respects_steps keepsWellFormed_leaf.
  - respects_steps keepsWellFormed_leaf.
  - unfold beginStep. respects_steps keepsWellFormed_leaf.
  - unfold checkpoint. respects_steps keepsWellFormed_leaf.
  - unfold panic. respects_steps keepsWellFormed_leaf.
  - unfold reportIntent. respects_steps keepsWellFormed_leaf.
  - unfold verify. respects_steps keepsWellFormed_leaf.
  - unfold explainChange. respects_steps keepsWellFormed_leaf.
  - unfold setTestCommand. respects_steps keepsWellFormed_leaf.
  - unfold claimScope. respects_steps keepsWellFormed_leaf.
  - unfold delegateTask. respects_steps keepsWellFormed_leaf.
  - unfold analyzeRisk. respects_steps keepsWellFormed_leaf.
  - unfold healthCheck. respects_steps keepsWellFormed_leaf.
  - unfold generateHandoff. respects_steps keepsWellFormed_leaf.
  - unfold reset. respects_steps keepsWellFormed_leaf.
Qed.

(* ----------------------------------------------------------------- *)
(** *** Errors *)

Lemma throwsOnly_ret (A : Type) (P : Error -> Prop) (a : A) : throwsOnly P (ret a).
Proof. intros st err H. discriminate H. Qed.

Lemma throwsOnly_throw (A : Type) (P : Error -> Prop) (err : Error) :
  P err -> throwsOnly P (@throw A err).
Proof. intros HP st err' H. inversion H; subst. exact HP. Qed.

Lemma throwsOnly_getState (P : Error -> Prop) : throwsOnly P getState.
Proof. intros st err H. discriminate H. Qed.

Lemma throwsOnly_modify (P : Error -> Prop) (f : DriftGuardState -> DriftGuardState) :
  throwsOnly P (modify f).
Proof. intros st err H. discriminate H. Qed.

Lemma throwsOnly_putState (P : Error -> Prop) (st' : DriftGuardState) :
  throwsOnly P (putState st').
Proof. intros st err H. discriminate H. Qed.

Lemma throwsOnly_mutateTask (P : Error -> Prop) (key : string)
  (f : TaskContract -> TaskContract) : throwsOnly P (mutateTask key f).
Proof. intros st err H. discriminate H. Qed.

Lemma throwsOnly_bind (A B : Type) (P : Error -> Prop) (m : Op A) (f : A -> Op B) :
  throwsOnly P m -> (forall a, throwsOnly P (f a)) -> throwsOnly P (bind m f).
Proof.
  intros Hm Hf st err. unfold bind, outcome.
  specialize (Hm st). unfold outcome in Hm.
  destruct (m st) as [[a|err'] st']; simpl in *.
  - apply Hf.
  - intros H. apply Hm. inversion H. reflexivity.
Qed.

Lemma throwsOnly_discard (A : Type) (P : Error -> Prop) (m : Op A) :
  throwsOnly P m -> throwsOnly P (discard m).
Proof.
  intros H. unfold discard. apply throwsOnly_bind; [assumption|].
  intros a. apply throwsOnly_ret.
Qed.

Lemma throwsOnly_validateTransition (P : Error -> Prop) (action : string)
  (allowedFrom : list FocusState) :
  (forall from, P (StateTransitionError action from allowedFrom)) ->
  throwsOnly P (validateTransition action allowedFrom).
Proof.
  intros HP st err. rewrite validateTransition_run.
  destruct (existsb _ allowedFrom); intros H; inversion H; subst. apply HP.
Qed.

Lemma throwsOnly_requireActiveTask (P : Error -> Prop) :
  P (PlainError "No active task found") -> throwsOnly P requireActiveTask.
Proof.
  intros HP st err. unfold requireActiveTask, bind, getState, outcome; simpl.
  destruct (activeTaskId (session st)) as [i|]; simpl.
  - destruct (String.eqb i ""); simpl.
    + intros H; inversion H; subst; exact HP.
    + destruct (JsObject.get (tasks st) i); simpl; intros H; inversion H; subst; exact HP.
  - intros H; inversion H; subst; exact HP.
Qed.

Lemma throwsOnly_hydrate (P : Error -> Prop) (e : Env) : throwsOnly P (hydrate e).
Proof.
  intros st err. unfold hydrate.
  destruct (disk e) as [| |parsed]; try discriminate.
  unfold bind, putState, ret, outcome.
  destruct (negb _); rewrite !log_run; discriminate.
Qed.

(** Breaks an operation down to its steps, as [respects_steps] does. *)
Ltac throws_steps :=
  repeat first
    [ progress lazy beta zeta
    | match goal with
      | |- forall _, throwsOnly _ _ => intros ?
      | |- throwsOnly _ (ret _) => apply throwsOnly_ret
      | |- throwsOnly _ syncToDisk => apply throwsOnly_ret
      | |- throwsOnly _ getState => apply throwsOnly_getState
      | |- throwsOnly _ (log _ _ _ _) => apply throwsOnly_modify
      | |- throwsOnly _ (modify _) => apply throwsOnly_modify
      | |- throwsOnly _ (modifySession _) => apply throwsOnly_modify
      | |- throwsOnly _ refreshActiveClaims => apply throwsOnly_modify
      | |- throwsOnly _ (mergeKnownHashes _) => apply throwsOnly_modify
      | |- throwsOnly _ (mutateTask _ _) => apply throwsOnly_mutateTask
      | |- throwsOnly _ (putState _) => apply throwsOnly_putState
      | |- throwsOnly _ (hydrate _) => apply throwsOnly_hydrate
      | |- throwsOnly _ (discard _) => apply throwsOnly_discard
      | |- throwsOnly _ (bind _ _) => apply throwsOnly_bind
      | |- throwsOnly _ (throw _) => apply throwsOnly_throw; simpl; solve [eauto]
      | |- throwsOnly _ (validateTransition _ _) =>
          apply throwsOnly_validateTransition; intros ?; simpl; solve [eauto]
      | |- throwsOnly _ requireActiveTask =>
          apply throwsOnly_requireActiveTask; simpl; solve [eauto]
      | |- throwsOnly _ (if ?c then _ else _) => destruct c
      | |- throwsOnly _ (match ?x with _ => _ end) => destruct x
      end ].


Lemma outcome_discard (A : Type) (m : Op A) (st : DriftGuardState) (err : Error) :
  outcome (discard m st) = Throw err <-> outcome (m st) = Throw err.
Proof.
  unfold discard, bind, ret, outcome.
  destruct (m st) as [[a|err'] st']; simpl; split; intros H;
    try discriminate; inversion H; reflexivity.
Qed.

Lemma guarded_refuses (e : Env) (r : Request) (st : DriftGuardState) :
  guarded r = true ->
  existsb (FocusState_eqb (currentState (session st))) (allowedFrom r) = false ->
  perform minimatch e r st
  = (Throw (StateTransitionError (actionName r) (currentState (session st)) (allowedFrom r)),
     st).
Proof.
  intros Hg Hno.
  destruct r; try discriminate Hg; cbn [perform actionName allowedFrom] in *;
    unfold discard, proposeTask, beginStep, checkpoint, reportIntent, verify,
      explainChange, delegateTask;
    unfold bind at 1 2; rewrite validateTransition_run, Hno; reflexivity.
Qed.

Lemma FocusState_eqb_eq (a b : FocusState) : FocusState_eqb a b = true <-> a = b.
Proof. destruct a, b; simpl; split; intros H; try reflexivity; discriminate. Qed.

Lemma allowed_In (s : FocusState) (l : list FocusState) :
  existsb (FocusState_eqb s) l = true <-> In s l.
Proof.
  rewrite existsb_exists. split.
  - intros (x & Hin & Heq). apply FocusState_eqb_eq in Heq. now subst.
  - intros Hin. exists s. split; [assumption|]. now apply FocusState_eqb_eq.
Qed.

(** The remainder of a guarded method, once [validateTransition] has
    returned, throws no [StateTransitionError]. *)
Lemma guarded_accepts (e : Env) (r : Request) (st : DriftGuardState) :
  guarded r = true ->
  existsb (FocusState_eqb (currentState (session st))) (allowedFrom r) = true ->
  forall err, outcome (perform minimatch e r st) = Throw err ->
              isStateTransitionError err = false.
Proof.
  intros Hg Hyes err.
  assert (Hrest : forall (A : Type) (rest : Op A) action,
    throwsOnly (fun err => isStateTransitionError err = false) rest ->
    outcome (discard (validateTransition action (allowedFrom r) ;; rest) st) = Throw err ->
    isStateTransitionError err = false).
  { intros A rest action Hrest H. apply (proj1 (outcome_discard _ _ _)) in H.
    unfold bind at 1 in H. rewrite validateTransition_run, Hyes in H.
    exact (Hrest st err H). }
  revert Hrest.
  destruct r; try discriminate Hg; cbn [perform actionName allowedFrom] in *; intros Hrest.
  - apply Hrest. throws_steps.
  - apply Hrest. throws_steps.
  - apply Hrest. throws_steps.
  - apply Hrest. throws_steps.
  - apply Hrest. throws_steps.
  - apply Hrest. throws_steps.
  - apply Hrest. throws_steps.
Qed.

(** X1: the transition table. A guarded method called in a state outside its
    allowed set throws the [StateTransitionError] naming its action, the
    current state and that set, and changes nothing; called in an allowed
    state it never ends in a [StateTransitionError]. The allowed sets are
    [IDLE] for propose, [PLANNING, IDLE] for begin step and report intent, and
    [EXECUTING] for checkpoint, verify, explain change and delegate. *)
Theorem transition_table (e : Env) (r : Request) (st : DriftGuardState) :
  guarded r = true ->
  (~ In (currentState (session st)) (allowedFrom r) ->
     perform minimatch e r st
     = (Throw (StateTransitionError (actionName r) (currentState (session st))
                 (allowedFrom r)), st))
  /\ (In (currentState (session st)) (allowedFrom r) ->
      forall action from allowed,
        outcome (perform minimatch e r st)
        <> Throw (StateTransitionError action from allowed)).
Proof.
  intros Hg. split.
  - intros Hno. apply guarded_refuses; [assumption|].
    destruct (existsb _ (allowedFrom r)) eqn:E; [|reflexivity].
    apply allowed_In in E. contradiction.
  - intros Hyes action from allowed H.
    apply allowed_In in Hyes.
    pose proof (@guarded_accepts e r st Hg Hyes _ H) as Hk. discriminate Hk.
Qed.


(* ----------------------------------------------------------------- *)
(** *** Steps, intents and checkpoints *)

Lemma markDone_length (cid : string) (items : list ChecklistItem) :
  List.length (markDone cid items) = List.length items.
Proof.
  induction items as [|i items IH]; simpl; [reflexivity|].
  destruct (String.eqb (id i) cid); simpl; congruence.
Qed.

Lemma markDone_ids (cid : string) (items : list ChecklistItem) :
  map (fun i => (id i, text i)) (markDone cid items) = map (fun i => (id i, text i)) items.
Proof.
  induction items as [|i items IH]; simpl; [reflexivity|].
  destruct (String.eqb (id i) cid); simpl; congruence.
Qed.

Lemma markDone_doneCount (cid : string) (items : list ChecklistItem) :
  (doneCount items <= doneCount (markDone cid items))%nat.
Proof.
  unfold doneCount. induction items as [|i items IH]; simpl; [lia|].
  destruct (String.eqb (id i) cid); simpl.
  - change (isDone (with_status i done)) with true. cbn iota.
    destruct (isDone i); simpl; lia.
  - destruct (isDone i); simpl; lia.
Qed.

Lemma markDone_keeps_done (cid : string) (items : list ChecklistItem) (n : nat)
  (i : ChecklistItem) :
  nth_error items n = Some i -> isDone i = true ->
  exists i', nth_error (markDone cid items) n = Some i' /\ isDone i' = true /\ id i' = id i.
Proof.
  revert n. induction items as [|j items IH]; intros [|n] Hn Hd; simpl in *;
    try discriminate.
  - inversion Hn; subst j. destruct (String.eqb (id i) cid); simpl; eauto.
  - destruct (String.eqb (id j) cid); simpl; eauto.
Qed.

Lemma markAllDone_length (cids : list string) (items : list ChecklistItem) :
  List.length (markAllDone cids items) = List.length items.
Proof.
  unfold markAllDone. revert items.
  induction cids as [|c cids IH]; intros items; simpl; [reflexivity|].
  rewrite IH. apply markDone_length.
Qed.

Lemma markAllDone_ids (cids : list string) (items : list ChecklistItem) :
  map (fun i => (id i, text i)) (markAllDone cids items)
  = map (fun i => (id i, text i)) items.
Proof.
  unfold markAllDone. revert items.
  induction cids as [|c cids IH]; intros items; simpl; [reflexivity|].
  rewrite IH. apply markDone_ids.
Qed.

Lemma markAllDone_doneCount (cids : list string) (items : list ChecklistItem) :
  (doneCount items <= doneCount (markAllDone cids items))%nat.
Proof.
  unfold markAllDone. revert items.
  induction cids as [|c cids IH]; intros items; simpl; [lia|].
  etransitivity; [apply (markDone_doneCount c)|apply IH].
Qed.

Lemma doneCount_le_length (items : list ChecklistItem) :
  (doneCount items <= List.length items)%nat.
Proof. unfold doneCount. apply filter_length_le. Qed.

Lemma markDone_marks (cid : string) (items : list ChecklistItem) :
  In cid (map id items) ->
  exists i, In i (markDone cid items) /\ id i = cid /\ isDone i = true.
Proof.
  induction items as [|j items IH]; simpl; [intros []|].
  destruct (String.eqb_spec (id j) cid) as [Heq|Hne]; intros Hin.
  - exists (with_status j done). simpl. auto.
  - destruct Hin as [Hin|Hin]; [contradiction|].
    destruct (IH Hin) as (i & Hi & Hid & Hd). exists i. simpl. auto.
Qed.

Lemma markDone_unknown (cid : string) (items : list ChecklistItem) :
  ~ In cid (map id items) -> markDone cid items = items.
Proof.
  induction items as [|j items IH]; simpl; intros Hn; [reflexivity|].
  destruct (String.eqb_spec (id j) cid) as [Heq|Hne]; [exfalso; auto|].
  rewrite IH; auto.
Qed.

(** What [checkpoint] does once its three guards are passed. *)
Lemma checkpoint_run
  (e : Env) (summary : string) (completedChecklistIds : list string)
  (st : DriftGuardState) (tid : string) (task : TaskContract) :
  currentState (session st) = EXECUTING ->
  intentFiled (session st) = true ->
  activeTaskId (session st) = Some tid ->
  tid <> "" ->
  JsObject.get (tasks st) tid = Some task ->
  let items := markAllDone completedChecklistIds (checklist task) in
  exists st',
    checkpoint e summary completedChecklistIds st
    = (Return (mkCheckpointResult tid (doneCount items) (List.length items)
                 (if isGitRepo e && negb (List.length (getChangedFiles e) =? 0)%nat
                  then writeNote e else false)), st')
    /\ session st'
       = (fun s => if forallb isDone items then with_activeTaskId s None else s)
           (with_isVerified
              (with_intentFiled
                 (with_activeStepId
                    (with_currentState
                       (match claims task with
                        | Some cs =>
                            with_activeClaims
                              (with_lastKnownFileHashes (session st)
                                 (Some (JsObject.spread (knownHashes st)
                                          (calculateFileHashes e (map path cs)))))
                              (activeClaims (session st'))
                        | None => session st
                        end) IDLE) None) false) false)
    /\ tasks st'
       = match claims task with
         | Some _ =>
             JsObject.set
               (JsObject.set (tasks st) tid
                  (with_updatedAt (with_checklist task items) (now e)))
               tid
               (with_claims (with_updatedAt (with_checklist task items) (now e)) (Some []))
         | None =>
             JsObject.set (tasks st) tid
               (with_updatedAt (with_checklist task items) (now e))
         end
    /\ logs st'
       = slice_last 100
           (logs st ++ [mkLogEntry (now e) "dg_checkpoint" (Some tid) (Some summary)])%list
    /\ (claims task <> None ->
        activeClaims (session st') = Some (heldClaims (tasks st'))).
Proof.
  intros Hstate Hintent Hact Hne Hget items.
  assert (Hreq : requireActiveTask st = (Return (tid, task), st)).
  { unfold requireActiveTask, bind, getState. rewrite Hact.
    destruct (String.eqb_spec tid ""); [contradiction|]. now rewrite Hget. }
  unfold checkpoint. unfold bind at 1.
  rewrite validateTransition_run, Hstate. cbn [existsb FocusState_eqb orb].
  unfold bind at 1. unfold getState at 1. rewrite Hintent. cbn [negb].
  unfold bind at 1. rewrite Hreq. cbn [fst snd].
  fold (markAllDone completedChecklistIds (checklist task)). fold items.
  unfold bind at 1. unfold mutateTask at 1. unfold modify at 1. rewrite Hget.
  destruct (claims task) as [cs|] eqn:Ec.
  - unfold bind at 1. unfold bind at 1. unfold mergeKnownHashes, modifySession.
    unfold modify at 1.
    unfold bind at 1. unfold mutateTask, modify at 1.
    cbn [tasks with_session with_tasks]. rewrite get_set_same.
    unfold refreshActiveClaims. unfold modify at 1.
    unfold bind at 1. unfold modify at 1.
    unfold bind at 1. unfold modify at 1.
    unfold bind at 1. unfold modify at 1.
    unfold bind at 1. unfold modify at 1.
    destruct (forallb isDone items);
      unfold bind at 1; [unfold modify at 1|unfold ret at 1];
      unfold bind at 1; rewrite log_run;
      unfold bind, syncToDisk, ret; eexists; (split; [reflexivity|]);
      (split; [reflexivity|]); (split; [reflexivity|]); (split; [reflexivity|]);
      intros _;
      cbn [session tasks activeClaims with_activeClaims with_isVerified with_intentFiled
           with_activeStepId with_currentState with_activeTaskId with_session with_tasks
           with_logs];
      unfold heldClaims; rewrite fold_left_app_claims; reflexivity.
  - unfold bind at 1. unfold ret at 1. unfold modifySession.
    unfold bind at 1. unfold modify at 1.
    unfold bind at 1. unfold modify at 1.
    unfold bind at 1. unfold modify at 1.
    unfold bind at 1. unfold modify at 1.
    destruct (forallb isDone items);
      unfold bind at 1; [unfold modify at 1|unfold ret at 1];
      unfold bind at 1; rewrite log_run;
      unfold bind, syncToDisk, ret; eexists; (split; [reflexivity|]);
      (split; [reflexivity|]); (split; [reflexivity|]); (split; [reflexivity|]);
      intros H; exfalso; apply H; reflexivity.
Qed.

(** X3: a checkpoint that goes through. In EXECUTING with an intent filed
    and an active task, [checkpoint] returns the task id with the numbers of
    done and of all checklist items; the checklist keeps its items (ids and
    texts, in order) and the done count does not decrease; the task holds no
    claims afterwards; the session is IDLE with no step, [intentFiled] and
    [isVerified] are false, and the active task is cleared exactly when every
    item is done (also when the checklist is empty). Other tasks are
    untouched. *)
Theorem checkpoint_commits
  (e : Env) (summary : string) (completedChecklistIds : list string)
  (st : DriftGuardState) (tid : string) (task : TaskContract) :
  currentState (session st) = EXECUTING ->
  intentFiled (session st) = true ->
  activeTaskId (session st) = Some tid ->
  tid <> "" ->
  JsObject.get (tasks st) tid = Some task ->
  let items := markAllDone completedChecklistIds (checklist task) in
  let r := checkpoint e summary completedChecklistIds st in
  outcome r
  = Return (mkCheckpointResult tid (doneCount items) (List.length items)
              (if isGitRepo e && negb (List.length (getChangedFiles e) =? 0)%nat
               then writeNote e else false))
  /\ (currentState (session (after r)) = IDLE
      /\ activeStepId (session (after r)) = None
      /\ intentFiled (session (after r)) = false
      /\ isVerified (session (after r)) = false
      /\ activeTaskId (session (after r))
         = if forallb isDone items then None else Some tid)
  /\ (exists task',
        JsObject.get (tasks (after r)) tid = Some task'
        /\ checklist task' = items
        /\ orEmpty (claims task') = [])
  /\ (forall k, k <> tid -> JsObject.get (tasks (after r)) k = JsObject.get (tasks st) k)
  /\ (map (fun i => (id i, text i)) items = map (fun i => (id i, text i)) (checklist task)
      /\ (doneCount (checklist task) <= doneCount items <= List.length items)%nat).
Proof.
  intros Hstate Hintent Hact Hne Hget items r.
  destruct (@checkpoint_run e summary completedChecklistIds st tid task
              Hstate Hintent Hact Hne Hget) as (st' & Hr & Hsess & Htasks & _).
  fold items in Hr, Hsess, Htasks. subst r. rewrite Hr. unfold outcome, after. cbn [fst snd].
  split; [reflexivity|]. split.
  { rewrite Hsess. destruct (forallb isDone items); destruct (claims task);
      repeat split; assumption. }
  split.
  { rewrite Htasks. destruct (claims task) eqn:Ec.
    - eexists. split; [apply get_set_same|]. split; reflexivity.
    - eexists. split; [apply get_set_same|]. split; [reflexivity|]. simpl. now rewrite Ec. }
  split.
  { intros k Hk. rewrite Htasks.
    destruct (claims task); rewrite ?get_set_other by congruence; reflexivity. }
  split; [apply markAllDone_ids|].
  split; [apply markAllDone_doneCount | apply doneCount_le_length].
Qed.

Lemma markDone_id_list (cid : string) (items : list ChecklistItem) :
  map id (markDone cid items) = map id items.
Proof.
  induction items as [|i items IH]; simpl; [reflexivity|].
  destruct (String.eqb (id i) cid); simpl; congruence.
Qed.

Lemma markAllDone_keeps_done (cids : list string) (items : list ChecklistItem) (n : nat)
  (i : ChecklistItem) :
  nth_error items n = Some i -> isDone i = true ->
  exists i', nth_error (markAllDone cids items) n = Some i'
             /\ isDone i' = true /\ id i' = id i.
Proof.
  unfold markAllDone. revert items i.
  induction cids as [|c cids IH]; intros items i Hn Hd; simpl; [eauto|].
  destruct (markDone_keeps_done c items n Hn Hd) as (j & Hj & Hjd & Hji).
  destruct (IH _ _ Hj Hjd) as (k & Hk & Hkd & Hki).
  exists k. repeat split; congruence.
Qed.

(** X4: the checklist loop of [checkpoint]. Every completed id that names a
    checklist item leaves an item with that id done; an item that was done
    stays done, at the same position and with the same id; ids that name no
    item are ignored, and when none of them names an item the checklist is
    returned as it was. *)
Theorem markAllDone_marks (cids : list string) (items : list ChecklistItem) :
  (forall cid, In cid cids -> In cid (map id items) ->
     exists i, In i (markAllDone cids items) /\ id i = cid /\ isDone i = true)
  /\ (forall n i, nth_error items n = Some i -> isDone i = true ->
        exists i', nth_error (markAllDone cids items) n = Some i'
                   /\ isDone i' = true /\ id i' = id i)
  /\ ((forall cid, In cid cids -> ~ In cid (map id items)) ->
      markAllDone cids items = items)
  /\ List.length (markAllDone cids items) = List.length items.
Proof.
  split; [|split; [|split]].
  - revert items. induction cids as [|c cids IH]; intros items cid Hin Hid; [destruct Hin|].
    change (markAllDone (c :: cids) items) with (markAllDone cids (markDone c items)).
    destruct (in_dec string_dec cid cids) as [Hrest|Hrest].
    + apply IH; [assumption|]. now rewrite markDone_id_list.
    + destruct Hin as [->|Hin]; [|contradiction].
      destruct (markDone_marks cid items Hid) as (i & Hi & Hii & Hd).
      apply In_nth_error in Hi as [n Hn].
      destruct (markAllDone_keeps_done cids _ n Hn Hd) as (k & Hk & Hkd & Hki).
      exists k. split; [eapply nth_error_In; eassumption|]. split; congruence.
  - intros n i. apply markAllDone_keeps_done.
  - revert items. induction cids as [|c cids IH]; intros items Hnone; [reflexivity|].
    change (markAllDone (c :: cids) items) with (markAllDone cids (markDone c items)).
    rewrite markDone_unknown by (apply Hnone; now left).
    apply IH. intros cid Hin. apply Hnone. now right.
  - apply markAllDone_length.
Qed.

Lemma staysWithoutIntent_refl (st : DriftGuardState) : staysWithoutIntent st st.
Proof. intros H; exact H. Qed.

Lemma staysWithoutIntent_trans (a b c : DriftGuardState) :
  staysWithoutIntent a b -> staysWithoutIntent b c -> staysWithoutIntent a c.
Proof. unfold staysWithoutIntent; auto. Qed.

Lemma staysWithoutIntent_log (e : Env) (action : string) (taskId details : option string) :
  respects staysWithoutIntent (log e action taskId details).
Proof. intros st H. exact H. Qed.

Lemma staysWithoutIntent_mutateTask (key : string) (f : TaskContract -> TaskContract) :
  respects staysWithoutIntent (mutateTask key f).
Proof.
  intros st H. unfold mutateTask, modify, after; simpl.
  now destruct (JsObject.get (tasks st) key).
Qed.

Lemma staysWithoutIntent_modifySession (f : DriftSession -> DriftSession) :
  (forall s, currentState (f s) = currentState s /\ intentFiled (f s) = intentFiled s) ->
  respects staysWithoutIntent (modifySession f).
Proof.
  intros Hf st [Hs Hi]. destruct (Hf (session st)) as [Es Ei].
  unfold modifySession, modify, after, executingWithoutIntent; simpl.
  split; congruence.
Qed.

#[local] Hint Resolve staysWithoutIntent_refl staysWithoutIntent_trans : core.

Ltac staysWithoutIntent_leaf :=
  idtac;
  match goal with
  | |- respects _ (log _ _ _ _) => apply staysWithoutIntent_log
  | |- respects _ (mutateTask _ _) => apply staysWithoutIntent_mutateTask
  | |- respects staysWithoutIntent refreshActiveClaims => intros ? ?; assumption
  | |- respects _ (mergeKnownHashes _) =>
      apply staysWithoutIntent_modifySession; intros ?; simpl; auto
  | |- respects _ (modifySession _) =>
      apply staysWithoutIntent_modifySession; intros ?; simpl; auto
  | |- respects _ (modify _) => apply respects_modify; intros ? ?; assumption
  end.

Lemma checkpoint_refused_without_intent
  (e : Env) (summary : string) (cids : list string) (st : DriftGuardState) :
  executingWithoutIntent st ->
  checkpoint e summary cids st = (Throw IntentMissingError, st).
Proof.
  intros [Hs Hi]. unfold checkpoint. unfold bind at 1.
  rewrite validateTransition_run, Hs. cbn [existsb FocusState_eqb orb].
  unfold bind at 1. unfold getState. now rewrite Hi.
Qed.

(** X6: a step opened without an intent cannot be closed. While the session
    is EXECUTING with [intentFiled] false, every [checkpoint] throws
    [IntentMissingError], every [reportIntent] is refused by the transition
    table, and every request other than [panic], a reset or a reload leaves
    the session EXECUTING with [intentFiled] false. *)
Theorem step_without_intent_is_stuck (e : Env) (r : Request) (st : DriftGuardState) :
  executingWithoutIntent st ->
  reloads r = false ->
  isPanic r = false ->
  executingWithoutIntent (after (perform minimatch e r st))
  /\ (forall summary cids,
        perform minimatch e (Checkpoint summary cids) st = (Throw IntentMissingError, st))
  /\ (forall intent files,
        perform minimatch e (ReportIntent intent files) st
        = (Throw (StateTransitionError "dg_report_intent" EXECUTING [PLANNING; IDLE]), st)).
Proof.
  intros Hst Hr Hp. split; [|split].
  - destruct r; try discriminate Hr; try discriminate Hp.
    + rewrite guarded_refuses; [exact Hst|reflexivity|].
      destruct Hst as [-> _]. reflexivity.
    + rewrite guarded_refuses; [exact Hst|reflexivity|].
      destruct Hst as [-> _]. reflexivity.
    + simpl. unfold discard, bind. rewrite checkpoint_refused_without_intent by assumption.
      exact Hst.
    + rewrite guarded_refuses; [exact Hst|reflexivity|].
      destruct Hst as [-> _]. reflexivity.
    + revert Hst. generalize st. change (respects staysWithoutIntent
        (perform minimatch e Verify)).
      unfold perform, verify. respects_steps staysWithoutIntent_leaf.
    + revert Hst. generalize st. change (respects staysWithoutIntent
        (perform minimatch e ExplainChange)).
      unfold perform, explainChange. respects_steps staysWithoutIntent_leaf.
    + revert Hst. generalize st. change (respects staysWithoutIntent
        (perform minimatch e (SetTestCommand command0))).
      unfold perform, setTestCommand. respects_steps staysWithoutIntent_leaf.
    + revert Hst. generalize st. change (respects staysWithoutIntent
        (perform minimatch e (ClaimScope paths exclusive0))).
      unfold perform, claimScope. respects_steps staysWithoutIntent_leaf.
    + revert Hst. generalize st. change (respects staysWithoutIntent
        (perform minimatch e (DelegateTask subTaskTitle subTaskGoal subScope))).
      unfold perform, delegateTask. respects_steps staysWithoutIntent_leaf.
    + revert Hst. generalize st. change (respects staysWithoutIntent
        (perform minimatch e (AnalyzeRisk targetPath))).
      unfold perform, analyzeRisk. respects_steps staysWithoutIntent_leaf.
    + revert Hst. generalize st. change (respects staysWithoutIntent
        (perform minimatch e HealthCheck)).
      unfold perform, healthCheck. respects_steps staysWithoutIntent_leaf.
    + revert Hst. generalize st. change (respects staysWithoutIntent
        (perform minimatch e GenerateHandoff)).
      unfold perform, generateHandoff. respects_steps staysWithoutIntent_leaf.
  - intros summary cids. simpl. unfold discard, bind.
    now rewrite checkpoint_refused_without_intent.
  - intros intent files. rewrite guarded_refuses; [|reflexivity|].
    + destruct Hst as [-> _]. reflexivity.
    + destruct Hst as [-> _]. reflexivity.
Qed.


Lemma codeUnits_highSurrogate (c : ascii) (rest : string) :
  utf16_length (highSurrogate c rest) = 1%nat.
Proof.
  clear minimatch.
  unfold highSurrogate. cbv zeta.
  set (t := ((N_of_ascii c mod 8) * 256 + (byteAt 0 rest mod 64) * 4
             + (byteAt 1 rest mod 64) / 16 - 64)%N).
  assert (H1 : ((t / 64) mod 16 < 16)%N) by (apply N.mod_lt; discriminate).
  assert (H2 : (t mod 64 < 64)%N) by (apply N.mod_lt; discriminate).
  set (a := ((t / 64) mod 16)%N) in *. set (b := (t mod 64)%N) in *.
  clearbody a b. clear t.
  cbn [utf16_length]. unfold codeUnits, isContinuation.
  rewrite !N_ascii_embedding by lia.
  replace (128 <=? 237)%N with true by reflexivity.
  replace (237 <? 192)%N with false by reflexivity.
  replace (240 <=? 237)%N with false by reflexivity.
  cbn [andb].
  replace (128 <=? 160 + a)%N with true by (symmetry; apply N.leb_le; lia).
  replace (160 + a <? 192)%N with true by (symmetry; apply N.ltb_lt; lia).
  replace (128 <=? 128 + b)%N with true by (symmetry; apply N.leb_le; lia).
  replace (128 + b <? 192)%N with true by (symmetry; apply N.ltb_lt; lia).
  reflexivity.
Qed.

Lemma codeUnits_bound (c : ascii) : (codeUnits c <= 2)%nat.
Proof.
  clear minimatch.
  unfold codeUnits. destruct (isContinuation c); [lia|].
  destruct (240 <=? N_of_ascii c)%N; lia.
Qed.

Lemma codeUnits_lead (c : ascii) : isContinuation c = false -> (1 <= codeUnits c)%nat.
Proof.
  clear minimatch.
  unfold codeUnits. intros ->. destruct (240 <=? N_of_ascii c)%N; lia.
Qed.

(** [s.slice(0, n).length] is [Math.min(n, s.length)]. *)
Lemma str_slice0_length (s : string) :
  forall n, utf16_length (str_slice0 n s) = Nat.min n (utf16_length s).
Proof.
  clear minimatch.
  induction s as [|c rest IH]; intros n; [simpl; lia|].
  cbn [str_slice0 utf16_length].
  destruct (isContinuation c) eqn:Ec.
  - cbn [utf16_length]. rewrite IH. unfold codeUnits. rewrite Ec. lia.
  - pose proof (codeUnits_bound c). pose proof (codeUnits_lead c Ec).
    destruct (Nat.leb_spec (codeUnits c) n).
    + cbn [utf16_length]. rewrite IH. lia.
    + destruct (Nat.eqb_spec n 1).
      * rewrite codeUnits_highSurrogate. lia.
      * simpl. lia.
Qed.

(** A string of at most [n] code units is returned whole. *)
Lemma str_slice0_all (s : string) :
  forall n, (utf16_length s <= n)%nat -> str_slice0 n s = s.
Proof.
  clear minimatch.
  induction s as [|c rest IH]; intros n Hn; [reflexivity|].
  cbn [str_slice0 utf16_length] in *.
  destruct (isContinuation c) eqn:Ec.
  - rewrite IH; [reflexivity|]. unfold codeUnits in Hn. rewrite Ec in Hn. lia.
  - destruct (Nat.leb_spec (codeUnits c) n); [|lia].
    rewrite IH; [reflexivity|lia].
Qed.

(** What [s.slice(0, n)] keeps is a prefix of [s], followed, when the cut
    falls inside a supplementary character, by the first unit of that
    character. *)
Lemma str_slice0_prefix (s : string) :
  forall n, exists kept rest,
    s = kept ++ rest
    /\ (str_slice0 n s = kept
        \/ exists c tail, rest = String c tail
                          /\ (240 <= N_of_ascii c)%N
                          /\ str_slice0 n s = kept ++ highSurrogate c tail).
Proof.
  clear minimatch.
  induction s as [|c rest IH]; intros n.
  - exists "", "". split; [reflexivity|]. now left.
  - cbn [str_slice0].
    destruct (isContinuation c) eqn:Ec.
    + destruct (IH n) as (kept & rest' & Hs & Hk).
      exists (String c kept), rest'. split; [simpl; congruence|].
      destruct Hk as [Hk|(c' & tail & Hr & Hc & Hk)].
      * left. now rewrite Hk.
      * right. exists c', tail. rewrite Hk. auto.
    + destruct (Nat.leb_spec (codeUnits c) n).
      * destruct (IH (n - codeUnits c)%nat) as (kept & rest' & Hs & Hk).
        exists (String c kept), rest'. split; [simpl; congruence|].
        destruct Hk as [Hk|(c' & tail & Hr & Hc & Hk)].
        -- left. now rewrite Hk.
        -- right. exists c', tail. rewrite Hk. auto.
      * exists "", (String c rest). split; [reflexivity|].
        destruct (Nat.eqb_spec n 1); [|now left].
        right. exists c, rest. split; [reflexivity|]. split; [|reflexivity].
        unfold codeUnits in H. rewrite Ec in H.
        destruct (N.leb_spec 240 (N_of_ascii c)); [assumption|].
        subst n. simpl in H. lia.
Qed.

(** On text without bytes above 127 code units are bytes. *)
Lemma str_slice0_ascii (s : string) :
  isAsciiText s = true ->
  forall n, str_slice0 n s = substring 0 n s
            /\ utf16_length s = String.length s.
Proof.
  clear minimatch.
  induction s as [|c rest IH]; intros Hs n; [now destruct n|].
  cbn [isAsciiText] in Hs. apply andb_prop in Hs as [Hc Hrest].
  apply N.ltb_lt in Hc.
  assert (Ec : isContinuation c = false).
  { unfold isContinuation. destruct (N.leb_spec 128 (N_of_ascii c)); [lia|reflexivity]. }
  assert (Eu : codeUnits c = 1%nat).
  { unfold codeUnits. rewrite Ec.
    destruct (N.leb_spec 240 (N_of_ascii c)); [lia|reflexivity]. }
  cbn [str_slice0 utf16_length String.length]. rewrite Ec, Eu. split.
  - destruct n as [|n]; [reflexivity|].
    cbn [Nat.leb substring]. replace (S n - 1)%nat with n by lia.
    now rewrite (proj1 (IH Hrest n)).
  - now rewrite (proj2 (IH Hrest 0%nat)).
Qed.

Lemma reportIntent_run (e : Env) (intent : string) (files : list string)
  (st : DriftGuardState) (tid : string) (task : TaskContract) :
  In (currentState (session st)) [PLANNING; IDLE] ->
  activeTaskId (session st) = Some tid ->
  tid <> "" ->
  JsObject.get (tasks st) tid = Some task ->
  reportIntent e intent files st
  = (Return (mkStepResult tid ("step_" ++ str_slice0 8 (uuid e)) EXECUTING),
     mkDriftGuardState (version st)
       (with_intentFiled
          (with_currentState
             (with_activeStepId (session st) (Some ("step_" ++ str_slice0 8 (uuid e))))
             EXECUTING) true)
       (JsObject.set (tasks st) tid
          (with_updatedAt (with_intent task intent files) (now e)))
       (slice_last 100
          (logs st ++ [mkLogEntry (now e) "dg_report_intent" (Some tid)
                         (Some (str_slice0 100 intent))])%list)).
Proof.
  intros Hin Hact Hne Hget.
  assert (Hok : existsb (FocusState_eqb (currentState (session st))) [PLANNING; IDLE] = true)
    by now apply allowed_In.
  unfold reportIntent. unfold bind at 1. rewrite validateTransition_run, Hok.
  unfold bind at 1. unfold getState. rewrite Hact. unfold truthy.
  destruct (String.eqb_spec tid ""); [contradiction|]. cbn [negb]. rewrite Hget.
  unfold bind at 1. unfold mutateTask, modify at 1. rewrite Hget.
  unfold modifySession.
  unfold bind at 1. unfold modify at 1.
  unfold bind at 1. unfold modify at 1.
  unfold bind at 1. unfold modify at 1.
  unfold bind at 1. rewrite log_run. reflexivity.
Qed.

(** X7: [reportIntent] opens the way to [checkpoint]. From PLANNING or IDLE
    with an active task it stores the intent and the file list on the task,
    puts the session in EXECUTING with a fresh step id and [intentFiled] true,
    and logs the first 100 UTF-16 code units of the intent: the whole
    intent when it has no more, else a prefix of it, followed by the first
    half of the character that straddles the cut, if one does; on text
    without bytes above 127 this is the first 100 bytes. A [checkpoint] made
    next returns and brings the session back to IDLE. *)
Theorem reportIntent_then_checkpoint
  (e e' : Env) (intent summary : string) (files cids : list string)
  (st : DriftGuardState) (tid : string) (task : TaskContract) :
  In (currentState (session st)) [PLANNING; IDLE] ->
  activeTaskId (session st) = Some tid ->
  tid <> "" ->
  JsObject.get (tasks st) tid = Some task ->
  let filed := after (reportIntent e intent files st) in
  outcome (reportIntent e intent files st)
  = Return (mkStepResult tid ("step_" ++ str_slice0 8 (uuid e)) EXECUTING)
  /\ currentState (session filed) = EXECUTING
  /\ intentFiled (session filed) = true
  /\ (exists task',
        JsObject.get (tasks filed) tid = Some task'
        /\ lastIntent task' = Some intent
        /\ filesToTouch task' = Some files
        /\ checklist task' = checklist task
        /\ claims task' = claims task)
  /\ (exists older,
        logs filed
        = (older ++ [mkLogEntry (now e) "dg_report_intent" (Some tid)
                       (Some (str_slice0 100 intent))])%list)
  /\ utf16_length (str_slice0 100 intent) = Nat.min 100 (utf16_length intent)
  /\ ((utf16_length intent <= 100)%nat -> str_slice0 100 intent = intent)
  /\ (exists kept rest,
        intent = kept ++ rest
        /\ (str_slice0 100 intent = kept
            \/ exists c tail, rest = String c tail
                              /\ (240 <= N_of_ascii c)%N
                              /\ str_slice0 100 intent = kept ++ highSurrogate c tail))
  /\ (isAsciiText intent = true -> str_slice0 100 intent = substring 0 100 intent)
  /\ (exists result,
        outcome (checkpoint e' summary cids filed) = Return result
        /\ cp_taskId result = tid
        /\ currentState (session (after (checkpoint e' summary cids filed))) = IDLE).
Proof.
  intros Hin Hact Hne Hget filed.
  pose proof (@reportIntent_run e intent files st tid task Hin Hact Hne Hget) as Hrun.
  subst filed. rewrite Hrun. unfold outcome, after. cbn [fst snd].
  split; [reflexivity|]. split; [reflexivity|]. split; [reflexivity|].
  split; [|split; [|split; [|split; [|split; [|split]]]]].
  - eexists. cbn [tasks]. split; [apply get_set_same|]. repeat split.
  - cbn [logs].
    unfold slice_last. rewrite skipn_app.
    match goal with
    | |- context [skipn ?n [?x]] =>
        replace n with 0%nat by (rewrite length_app; simpl; lia)
    end.
    rewrite skipn_0. eauto.
  - apply str_slice0_length.
  - apply str_slice0_all.
  - apply str_slice0_prefix.
  - intros Ha. apply (str_slice0_ascii _ Ha).
  - match goal with
    | |- context [checkpoint e' summary cids ?s] =>
        destruct (@checkpoint_run e' summary cids s tid
                    (with_updatedAt (with_intent task intent files) (now e))
                    eq_refl eq_refl Hact Hne (get_set_same _ _ _))
          as (st' & Hr & Hsess & _)
    end.
    rewrite Hr. eexists. cbn [fst snd]. split; [reflexivity|]. split; [reflexivity|].
    rewrite Hsess. destruct (forallb isDone _); reflexivity.
Qed.

Lemma verify_run (e : Env) (st : DriftGuardState) (tid : string) (task : TaskContract) :
  currentState (session st) = EXECUTING ->
  activeTaskId (session st) = Some tid ->
  tid <> "" ->
  JsObject.get (tasks st) tid = Some task ->
  let cmd := orDefault (testCommand task) NO_TEST_COMMAND in
  let result :=
    match execAsync e cmd with
    | ExecResolved out err => mkVerifyResult true cmd out err 0
    | ExecRejected code out err message =>
        mkVerifyResult false cmd (orDefault out "")
          (orDefault err (orDefault (Some message) ""))
          (match code with
           | Some c => if (c =? 0)%Z then 1%Z else c
           | None => 1%Z
           end)
    end in
  verify e st
  = (Return result,
     with_logs (with_session st (with_isVerified (session st) (success result)))
       (slice_last 100
          (logs st ++ [mkLogEntry (now e) "dg_verify" (Some tid)
                         (Some (if success result then "PASS" else "FAIL"))])%list)).
Proof.
  intros Hstate Hact Hne Hget. cbv zeta.
  unfold verify. unfold bind at 1.
  rewrite validateTransition_run, Hstate. cbn [existsb FocusState_eqb orb].
  unfold bind at 1. unfold requireActiveTask, bind at 1. unfold getState. rewrite Hact.
  destruct (String.eqb_spec tid ""); [contradiction|]. rewrite Hget. unfold ret at 1.
  cbn [fst snd]. unfold bind at 1. unfold modifySession, modify.
  unfold bind at 1. rewrite log_run. reflexivity.
Qed.

(** X8: [verify] reports a failing command instead of throwing. In EXECUTING
    with an active task it always returns; [success] is true exactly when the
    command resolved, the exit code is 0 then and non-zero otherwise (a
    missing or zero error code is reported as 1); [isVerified] is set to
    [success]; the command is the task's test command, or the placeholder
    when none or an empty one is configured; the session stays EXECUTING and
    the tasks are untouched. *)
Theorem verify_reports_failure (e : Env) (st : DriftGuardState) (tid : string)
  (task : TaskContract) :
  currentState (session st) = EXECUTING ->
  activeTaskId (session st) = Some tid ->
  tid <> "" ->
  JsObject.get (tasks st) tid = Some task ->
  exists result,
    outcome (verify e st) = Return result
    /\ command result = orDefault (testCommand task) NO_TEST_COMMAND
    /\ (success result = true
        <-> exists out err, execAsync e (command result) = ExecResolved out err)
    /\ (success result = true -> exitCode result = 0%Z)
    /\ (success result = false -> exitCode result <> 0%Z)
    /\ isVerified (session (after (verify e st))) = success result
    /\ currentState (session (after (verify e st))) = EXECUTING
    /\ tasks (after (verify e st)) = tasks st.
Proof.
  intros Hstate Hact Hne Hget.
  pose proof (@verify_run e st tid task Hstate Hact Hne Hget) as Hrun. cbv zeta in Hrun.
  rewrite Hrun. unfold outcome, after. cbn [fst snd].
  eexists. split; [reflexivity|].
  destruct (execAsync e (orDefault (testCommand task) NO_TEST_COMMAND))
    as [out err|code out err message] eqn:Ex; cbn [command success exitCode].
  - split; [reflexivity|]. rewrite Ex. split; [split; eauto|].
    repeat split; try assumption. discriminate.
  - split; [reflexivity|]. rewrite Ex. split.
    + split; [discriminate|]. intros (o & r & H). discriminate H.
    + split; [discriminate|]. split.
      * intros _. destruct code as [c|]; [|discriminate].
        destruct (Z.eqb_spec c 0); [discriminate|assumption].
      * repeat split. assumption.
Qed.

Lemma setTestCommand_run (e : Env) (c : string) (st : DriftGuardState) (tid : string)
  (task : TaskContract) :
  activeTaskId (session st) = Some tid ->
  tid <> "" ->
  JsObject.get (tasks st) tid = Some task ->
  setTestCommand e c st
  = (Return tt,
     with_logs
       (with_tasks st
          (JsObject.set (tasks st) tid (with_updatedAt (with_testCommand task c) (now e))))
       (slice_last 100
          (logs st ++ [mkLogEntry (now e) "set_test_command" (Some tid) (Some c)])%list)).
Proof.
  intros Hact Hne Hget. unfold setTestCommand.
  unfold bind at 1. unfold requireActiveTask, bind at 1. unfold getState. rewrite Hact.
  destruct (String.eqb_spec tid ""); [contradiction|]. rewrite Hget. unfold ret at 1.
  cbn [fst snd]. unfold bind at 1. unfold mutateTask, modify. rewrite Hget.
  unfold bind at 1. rewrite log_run. reflexivity.
Qed.

(** X9: the command set by [setTestCommand] is the one [verify] runs. With an
    active task, in any focus state, [setTestCommand] returns, stores the
    command on the task and leaves the session as it is; in EXECUTING the next
    [verify] runs that command, or the placeholder [echo] when the command
    set is the empty string. *)
Theorem setTestCommand_then_verify (e e' : Env) (c : string) (st : DriftGuardState)
  (tid : string) (task : TaskContract) :
  activeTaskId (session st) = Some tid ->
  tid <> "" ->
  JsObject.get (tasks st) tid = Some task ->
  let configured := after (setTestCommand e c st) in
  outcome (setTestCommand e c st) = Return tt
  /\ session configured = session st
  /\ (exists task',
        JsObject.get (tasks configured) tid = Some task'
        /\ testCommand task' = Some c /\ claims task' = claims task
        /\ checklist task' = checklist task)
  /\ (currentState (session st) = EXECUTING ->
      exists result,
        outcome (verify e' configured) = Return result
        /\ command result = (if String.eqb c "" then NO_TEST_COMMAND else c)).
Proof.
  intros Hact Hne Hget configured.
  pose proof (@setTestCommand_run e c st tid task Hact Hne Hget) as Hrun.
  subst configured. rewrite Hrun. unfold outcome, after. cbn [fst snd].
  split; [reflexivity|]. split; [reflexivity|]. split.
  - eexists. cbn [tasks with_logs with_tasks]. split; [apply get_set_same|]. repeat split.
  - intros Hstate.
    match goal with
    | |- context [verify e' ?s] =>
        pose proof (@verify_run e' s tid
                      (with_updatedAt (with_testCommand task c) (now e))
                      Hstate Hact Hne (get_set_same _ _ _)) as Hv
    end.
    cbv zeta in Hv. rewrite Hv. cbn [fst].
    eexists. split; [reflexivity|].
    cbn [testCommand with_updatedAt with_testCommand]. unfold orDefault, truthy.
    destruct (execAsync e' _); destruct (String.eqb c ""); reflexivity.
Qed.

(* ----------------------------------------------------------------- *)
(** *** Exclusion of scopes *)

Lemma after_discard (A : Type) (m : Op A) (st : DriftGuardState) :
  after (discard m st) = after (m st).
Proof. unfold discard, bind, after, ret. now destruct (m st) as [[a|err] st']. Qed.

Lemma checkOverlap_sym (a b : string) :
  checkOverlap minimatch a b = checkOverlap minimatch b a.
Proof.
  destruct (checkOverlap minimatch a b) eqn:E1; destruct (checkOverlap minimatch b a) eqn:E2;
    try reflexivity.
  - apply checkOverlap_true in E1.
    assert (H : checkOverlap minimatch b a = true)
      by (apply checkOverlap_true; intuition auto).
    congruence.
  - apply checkOverlap_true in E2.
    assert (H : checkOverlap minimatch a b = true)
      by (apply checkOverlap_true; intuition auto).
    congruence.
Qed.

Lemma In_held_set (o : Tasks) (k : string) (v : TaskContract) (c : ScopeClaim) :
  In c (heldClaims (JsObject.set o k v)) ->
  In c (heldClaims o) \/ In c (orEmpty (claims v)).
Proof.
  clear minimatch.
  unfold heldClaims, JsObject.values.
  induction o as [|[k' v'] rest IH]; simpl.
  - rewrite app_nil_r. auto.
  - destruct (String.eqb k' k); simpl; rewrite !in_app_iff.
    + tauto.
    + intros [H|H]; [tauto|]. destruct (IH H); tauto.
Qed.

Lemma held_of_get (o : Tasks) (k : string) (t : TaskContract) (c : ScopeClaim) :
  JsObject.get o k = Some t -> In c (orEmpty (claims t)) -> In c (heldClaims o).
Proof.
  intros Hget Hin. apply get_In in Hget.
  unfold heldClaims, JsObject.values. apply in_flat_map. exists t. split; [|assumption].
  apply in_map_iff. now exists (k, t).
Qed.

Lemma parentOf_set (o : Tasks) (k : string) (v : TaskContract) (a b : string) :
  (forall v0, JsObject.get o k = Some v0 -> parentTaskId v = parentTaskId v0) ->
  parentOf o a b -> parentOf (JsObject.set o k v) a b.
Proof.
  intros Hv (t & Hget & Hp). unfold parentOf.
  destruct (String.eqb_spec k a) as [->|Hne].
  - exists v. rewrite get_set_same. split; [reflexivity|]. rewrite (Hv t Hget). exact Hp.
  - exists t. rewrite get_set_other by assumption. auto.
Qed.

Lemma related_set (o : Tasks) (k : string) (v : TaskContract) (a b : string) :
  (forall v0, JsObject.get o k = Some v0 -> parentTaskId v = parentTaskId v0) ->
  related o a b -> related (JsObject.set o k v) a b.
Proof.
  intros Hv [H|[H|H]]; [left; assumption | right; left | right; right];
    now apply parentOf_set.
Qed.

Lemma scopesExclusive_ext (st st' : DriftGuardState) :
  tasks st' = tasks st ->
  activeClaims (session st') = activeClaims (session st) ->
  scopesExclusive minimatch st -> scopesExclusive minimatch st'.
Proof. unfold scopesExclusive. intros -> ->. auto. Qed.

Lemma scopesExclusive_set (st : DriftGuardState) (k : string) (v : TaskContract) :
  (forall v0, JsObject.get (tasks st) k = Some v0 -> parentTaskId v = parentTaskId v0) ->
  (forall c, In c (orEmpty (claims v)) -> In c (orEmpty (activeClaims (session st)))) ->
  scopesExclusive minimatch st ->
  scopesExclusive minimatch (with_tasks st (JsObject.set (tasks st) k v)).
Proof.
  intros Hp Hc [HK HJ]. split; simpl.
  - intros c Hin. apply In_held_set in Hin as [Hin|Hin]; auto.
  - intros c1 c2 H1 H2 Ho. apply related_set; auto.
Qed.

Lemma scopesExclusive_fresh (e : Env) : scopesExclusive minimatch (createInitialState e).
Proof. split; simpl; [intros c []|intros c1 c2 []]. Qed.

Lemma keepsExclusive_refl (st : DriftGuardState) : keepsExclusive minimatch st st.
Proof. intros H; exact H. Qed.

Lemma keepsExclusive_trans (a b c : DriftGuardState) :
  keepsExclusive minimatch a b -> keepsExclusive minimatch b c -> keepsExclusive minimatch a c.
Proof. unfold keepsExclusive; auto. Qed.

Lemma keepsExclusive_log (e : Env) (action : string) (taskId details : option string) :
  respects (keepsExclusive minimatch) (log e action taskId details).
Proof. intros st H. rewrite log_run. exact H. Qed.

Lemma keepsExclusive_modifySession (f : DriftSession -> DriftSession) :
  (forall s, activeClaims (f s) = activeClaims s) ->
  respects (keepsExclusive minimatch) (modifySession f).
Proof.
  intros Hf st H. eapply scopesExclusive_ext; [| |exact H]; [reflexivity|].
  unfold modifySession, modify, after; simpl. apply Hf.
Qed.

(** A task is rewritten without a change of parent and without new claims. *)
Lemma keepsExclusive_mutateTask (key : string) (f : TaskContract -> TaskContract) :
  (forall t, parentTaskId (f t) = parentTaskId t
             /\ forall c, In c (orEmpty (claims (f t))) -> In c (orEmpty (claims t))) ->
  respects (keepsExclusive minimatch) (mutateTask key f).
Proof.
  intros Hf st H. unfold mutateTask, modify, after; simpl.
  destruct (JsObject.get (tasks st) key) as [task|] eqn:Hget; [|exact H].
  destruct (Hf task) as [Hp Hc].
  apply scopesExclusive_set; [| |exact H].
  - intros v0 Hv0. rewrite Hget in Hv0. inversion Hv0; subst. exact Hp.
  - intros c Hin. apply (proj1 H). eapply held_of_get; eauto.
Qed.

Lemma keepsExclusive_refreshActiveClaims :
  respects (keepsExclusive minimatch) refreshActiveClaims.
Proof.
  intros st [HK HJ]. unfold refreshActiveClaims, modify, after; simpl.
  rewrite fold_left_app_claims. simpl. fold (heldClaims (tasks st)).
  split; simpl; auto.
Qed.

Lemma keepsExclusive_hydrate (e : Env) :
  diskExclusive minimatch e -> respects (keepsExclusive minimatch) (hydrate e).
Proof.
  intros Hd st H. unfold hydrate. unfold diskExclusive in Hd.
  destruct (disk e) as [| |parsed]; try exact H.
  unfold bind, after, putState, ret.
  destruct (negb _); rewrite !log_run; exact Hd.
Qed.

Lemma keepsExclusive_reset (e : Env) :
  respects (keepsExclusive minimatch) (putState (createInitialState e)).
Proof. intros st _. apply scopesExclusive_fresh. Qed.

#[local] Hint Resolve keepsExclusive_refl keepsExclusive_trans : core.

Ltac keepsExclusive_leaf :=
  idtac;
  match goal with
  | |- respects _ (log _ _ _ _) => apply keepsExclusive_log
  | |- respects _ (mutateTask _ _) =>
      apply keepsExclusive_mutateTask; intros ?; simpl; split; [reflexivity|tauto]
  | |- respects _ refreshActiveClaims => apply keepsExclusive_refreshActiveClaims
  | |- respects _ (mergeKnownHashes _) =>
      apply keepsExclusive_modifySession; intros ?; reflexivity
  | |- respects _ (modifySession _) =>
      apply keepsExclusive_modifySession; intros ?; reflexivity
  | |- respects _ (putState (createInitialState _)) => apply keepsExclusive_reset
  | |- respects _ (hydrate _) => apply keepsExclusive_hydrate; assumption
  end.

Lemma keepsExclusive_proposeTask (e : Env) (title goal : string)
  (allowedScopes : list string) (items : list ChecklistInput)
  (level : option StrictnessLevel) (st : DriftGuardState) :
  JsObject.get (tasks st) ("task_" ++ str_slice0 8 (uuid e)) = None ->
  keepsExclusive minimatch st (after (proposeTask e title goal allowedScopes items level st)).
Proof.
  intros Hfresh H.
  unfold proposeTask. unfold bind at 1. rewrite validateTransition_run.
  destruct (existsb _ [IDLE]); [|exact H].
  unfold bind, modifySession, syncToDisk, ret. unfold modify.
  rewrite log_run. cbn [after snd].
  eapply scopesExclusive_ext;
    [| |apply (@scopesExclusive_set st ("task_" ++ str_slice0 8 (uuid e)))];
    [reflexivity|reflexivity| | |exact H].
  - intros v0 Hv0. rewrite Hfresh in Hv0. discriminate.
  - intros c [].
Qed.

Lemma keepsExclusive_delegateTask (e : Env) (subTaskTitle subTaskGoal : string)
  (subScope : list string) (st : DriftGuardState) :
  JsObject.get (tasks st) ("sub_" ++ str_slice0 8 (uuid e)) = None ->
  keepsExclusive minimatch st
    (after (delegateTask minimatch e subTaskTitle subTaskGoal subScope st)).
Proof.
  intros Hfresh H.
  unfold delegateTask. unfold bind at 1. rewrite validateTransition_run.
  destruct (existsb _ [EXECUTING]); [|exact H].
  unfold bind at 1. unfold getState.
  set (pk := match activeTaskId (session st) with Some i => i | None => "undefined" end).
  destruct (JsObject.get (tasks st) pk) as [parent|] eqn:Hget; [|exact H].
  destruct (negb _ && _); [exact H|].
  unfold bind at 1. unfold mutateTask at 1. unfold modify at 1. rewrite Hget.
  unfold bind at 1. unfold modify at 1.
  unfold bind at 1. rewrite log_run.
  unfold bind, syncToDisk, ret. cbn [after snd].
  assert (Hne : pk <> "sub_" ++ str_slice0 8 (uuid e)) by congruence.
  eapply scopesExclusive_ext; [| |apply scopesExclusive_set; [| |apply scopesExclusive_set]];
    [reflexivity|reflexivity| | | | |exact H].
  - intros v0 Hv0. cbn [tasks with_tasks] in Hv0.
    rewrite get_set_other in Hv0 by assumption. congruence.
  - intros c [].
  - intros v0 Hv0. rewrite Hget in Hv0. inversion Hv0; subst. reflexivity.
  - intros c Hin. apply (proj1 H). eapply held_of_get; eauto.
Qed.

Lemma keepsExclusive_claimScope (e : Env) (paths : list string) (x : bool) :
  respects (keepsExclusive minimatch) (claimScope minimatch e paths x).
Proof.
  intros st H.
  destruct (activeTaskId (session st)) as [tid|] eqn:Hact;
    [|unfold claimScope, bind, getState; rewrite Hact; exact H].
  destruct (String.eqb_spec tid "") as [->|Hne];
    [unfold claimScope, bind, getState; rewrite Hact; exact H|].
  destruct (JsObject.get (tasks st) tid) as [task|] eqn:Hget.
  2:{ unfold claimScope, bind, getState. rewrite Hact. unfold truthy.
      destruct (String.eqb_spec tid ""); [contradiction|]. cbn [negb]. rewrite Hget.
      exact H. }
  rewrite (@claimScope_run e paths x st tid task Hact Hne Hget). cbv zeta.
  assert (H1 : scopesExclusive minimatch (withClaimsArray st tid task)).
  { unfold withClaimsArray. destruct (claims task) eqn:Ec; [exact H|].
    apply scopesExclusive_set; [| |exact H].
    - intros v0 Hv0. rewrite Hget in Hv0. inversion Hv0; subst. reflexivity.
    - intros c []. }
  assert (Hcache : activeClaims (session (withClaimsArray st tid task))
                   = activeClaims (session st))
    by (unfold withClaimsArray; now destruct (claims task)).
  assert (Hget1 : forall v0, JsObject.get (tasks (withClaimsArray st tid task)) tid = Some v0 ->
                    parentTaskId v0 = parentTaskId task).
  { intros v0 Hv0. rewrite withClaimsArray_get in Hv0 by assumption.
    inversion Hv0; subst. reflexivity. }
  destruct (conflictsFound _ paths) as [|c0 found] eqn:Hfound; [|exact H1].
  cbn [after snd].
  pose proof (proj1 (conflictsFound_nil _ _) Hfound) as Hnone.
  set (tasks2 := JsObject.set _ tid _).
  assert (Hsplit : forall c, In c (heldClaims tasks2) ->
            In c (orEmpty (activeClaims (session st)))
            \/ exists p, In p paths /\ c = mkScopeClaim p x tid (nowMs e)).
  { intros c Hin. subst tasks2. apply In_held_set in Hin as [Hin|Hin].
    - left. rewrite <- Hcache. apply (proj1 H1). exact Hin.
    - simpl in Hin. apply in_app_iff in Hin as [Hin|Hin].
      + left. apply (proj1 H). eapply held_of_get; eauto.
      + right. apply in_map_iff in Hin as (p & <- & Hp). eauto. }
  assert (Hrel : forall a b, related (tasks st) a b -> related tasks2 a b).
  { intros a b Hr. subst tasks2. apply related_set.
    - intros v0 Hv0. rewrite (Hget1 v0 Hv0). reflexivity.
    - unfold withClaimsArray. destruct (claims task); [exact Hr|].
      cbn [tasks with_tasks]. apply related_set; [|exact Hr].
      intros v0 Hv0. rewrite Hget in Hv0. inversion Hv0; subst. reflexivity. }
  assert (Hmixed : forall c p,
            In c (orEmpty (activeClaims (session st))) -> In p paths ->
            checkOverlap minimatch p (path c) = true ->
            related (tasks st) (ownerTaskId c) tid).
  { intros c p Hc Hp Ho. specialize (Hnone p Hp). cbv beta in Hnone.
    rewrite checkConflict_find in Hnone.
    pose proof (find_none _ _ Hnone c Hc) as Hf. cbv beta in Hf.
    rewrite Ho, andb_true_r in Hf. unfold considered in Hf.
    apply andb_false_iff in Hf as [Hf|Hf]; apply negb_false_iff in Hf.
    - left. unfold ownedByRequestor in Hf. now apply String.eqb_eq in Hf.
    - right. right. unfold ownedByParent in Hf. rewrite Hget in Hf.
      exists task. split; [assumption|]. unfold opt_strict_eq in Hf.
      destruct (parentTaskId task) as [q|]; [|discriminate].
      apply String.eqb_eq in Hf. now subst. }
  split; cbn [session tasks activeClaims with_activeClaims with_lastKnownFileHashes orEmpty].
  - auto.
  - fold (heldClaims tasks2). intros c1 c2 Hc1 Hc2 Ho. apply Hrel.
    destruct (Hsplit c1 Hc1) as [Hold1|(p1 & Hp1 & ->)];
      destruct (Hsplit c2 Hc2) as [Hold2|(p2 & Hp2 & ->)]; cbn [ownerTaskId path] in *.
    + apply (proj2 H); assumption.
    + apply (Hmixed c1 p2); auto. now rewrite checkOverlap_sym.
    + destruct (Hmixed c2 p1) as [E|[E|E]]; auto.
      * left. auto.
      * right. right. exact E.
      * right. left. exact E.
    + left. reflexivity.
Qed.

(** Reads a goal about one run of [m] as a goal about [m]. *)
Ltac as_respects :=
  match goal with
  | |- ?R ?s (after (?m ?s)) => revert s; change (respects R m)
  end.

(** X10: scopes stay exclusive. A fresh session has exclusive scopes: every
    claim a task holds is in the session's list of active claims, and two
    overlapping claims of that list belong to one task or to a task and its
    parent. Every request keeps it so, provided the id it generates is not
    the id of a task already registered and the snapshot it may reload has
    exclusive scopes itself. *)
Theorem scopes_stay_exclusive (e : Env) :
  scopesExclusive minimatch (createInitialState e)
  /\ (forall (r : Request) (st : DriftGuardState),
        (forall k, mintedId e r = Some k -> JsObject.get (tasks st) k = None) ->
        diskExclusive minimatch e ->
        scopesExclusive minimatch st ->
        scopesExclusive minimatch (after (perform minimatch e r st))).
Proof.
  split; [apply scopesExclusive_fresh|].
  intros r st Hfresh Hd.
  change (keepsExclusive minimatch st (after (perform minimatch e r st))).
  destruct r; unfold perform; try rewrite after_discard;
    first [specialize (Hfresh _ eq_refl) | clear Hfresh].
  - as_respects. unfold initialize. respects_steps keepsExclusive_leaf.
  - as_respects. respects_steps keepsExclusive_leaf.
  - apply keepsExclusive_proposeTask. exact Hfresh.
  - as_respects. unfold beginStep. respects_steps keepsExclusive_leaf.
  - as_respects. unfold checkpoint. respects_steps keepsExclusive_leaf.
  - as_respects. unfold panic. respects_steps keepsExclusive_leaf.
  - as_respects. unfold reportIntent. respects_steps keepsExclusive_leaf.
  - as_respects. unfold verify. respects_steps keepsExclusive_leaf.
  - as_respects. unfold explainChange. respects_steps keepsExclusive_leaf.
  - as_respects. unfold setTestCommand. respects_steps keepsExclusive_leaf.
  - apply keepsExclusive_claimScope.
  - apply keepsExclusive_delegateTask. exact Hfresh.
  - as_respects. unfold analyzeRisk. respects_steps keepsExclusive_leaf.
  - as_respects. unfold healthCheck. respects_steps keepsExclusive_leaf.
  - as_respects. unfold generateHandoff. respects_steps keepsExclusive_leaf.
  - as_respects. unfold reset. respects_steps keepsExclusive_leaf.
Qed.

(* ----------------------------------------------------------------- *)
(** *** Sessions driven through the public API *)

Lemma isRootId_task (x : string) : isRootId ("task_" ++ x) = true.
Proof. unfold isRootId. simpl. now destruct x. Qed.

Lemma isRootId_sub (x : string) : isRootId ("sub_" ++ x) = false.
Proof. reflexivity. Qed.

Lemma rootsOnly_session (st st' : DriftGuardState) :
  tasks st' = tasks st ->
  activeClaims (session st') = activeClaims (session st) ->
  (forall tid, activeTaskId (session st') = Some tid ->
     activeTaskId (session st) = Some tid \/ isRootId tid = true) ->
  rootsOnly minimatch st -> rootsOnly minimatch st'.
Proof.
  unfold rootsOnly. intros -> -> Hact (H1 & H2 & H3 & H4 & H5).
  split; [|auto]. intros tid Ht. destruct (Hact tid Ht); auto.
Qed.

Lemma rootsOnly_set (st : DriftGuardState) (k : string) (v : TaskContract) :
  (isRootId k = true -> parentTaskId v = None) ->
  (forall c, In c (orEmpty (claims v)) ->
     In c (orEmpty (activeClaims (session st))) /\ ownerTaskId c = k) ->
  rootsOnly minimatch st ->
  rootsOnly minimatch (with_tasks st (JsObject.set (tasks st) k v)).
Proof.
  intros Hp Hc (H1 & H2 & H3 & H4 & H5). split; [exact H1|].
  split; [|split; [|split; [exact H4|]]]; simpl.
  - intros k' t Hk' Hget. destruct (String.eqb_spec k k') as [->|Hne].
    + rewrite get_set_same in Hget. inversion Hget; subst. auto.
    + rewrite get_set_other in Hget by assumption. eauto.
  - intros c Hin. apply In_held_set in Hin as [Hin|Hin]; [auto|]. now apply Hc.
  - intros k' c (t & Hget & Hin). destruct (String.eqb_spec k k') as [->|Hne].
    + rewrite get_set_same in Hget. inversion Hget; subst. now apply Hc.
    + rewrite get_set_other in Hget by assumption. apply H5. exists t. auto.
Qed.

Lemma rootsOnly_fresh (e : Env) : rootsOnly minimatch (createInitialState e).
Proof.
  split; [intros tid H; discriminate|]. split; [intros k t _ H; discriminate|].
  split; [|split]; simpl; [intros c []|intros c1 c2 []|].
  intros k c (t & H & _). discriminate H.
Qed.

Lemma keepsRootsOnly_refl (st : DriftGuardState) : keepsRootsOnly minimatch st st.
Proof. intros H; exact H. Qed.

Lemma keepsRootsOnly_trans (a b c : DriftGuardState) :
  keepsRootsOnly minimatch a b -> keepsRootsOnly minimatch b c ->
  keepsRootsOnly minimatch a c.
Proof. unfold keepsRootsOnly; auto. Qed.

Lemma keepsRootsOnly_log (e : Env) (action : string) (taskId details : option string) :
  respects (keepsRootsOnly minimatch) (log e action taskId details).
Proof. intros st H. rewrite log_run. exact H. Qed.

Lemma keepsRootsOnly_modifySession (f : DriftSession -> DriftSession) :
  (forall s, activeClaims (f s) = activeClaims s
             /\ (activeTaskId (f s) = activeTaskId s \/ activeTaskId (f s) = None
                 \/ exists k, activeTaskId (f s) = Some k /\ isRootId k = true)) ->
  respects (keepsRootsOnly minimatch) (modifySession f).
Proof.
  intros Hf st H. destruct (Hf (session st)) as [Hc Ha].
  eapply rootsOnly_session; [| | |exact H]; [reflexivity|exact Hc|].
  unfold modifySession, modify, after; simpl. intros tid Ht.
  destruct Ha as [Ha|[Ha|(k & Ha & Hk)]]; rewrite Ha in Ht.
  - auto.
  - discriminate.
  - inversion Ht; subst. auto.
Qed.

Lemma keepsRootsOnly_setTask (key : string) (task : TaskContract) :
  (isRootId key = true -> parentTaskId task = None) ->
  orEmpty (claims task) = [] ->
  respects (keepsRootsOnly minimatch)
    (modify (fun st => with_tasks st (JsObject.set (tasks st) key task))).
Proof.
  intros Hp Hc st H. apply rootsOnly_set; [exact Hp| |exact H].
  rewrite Hc. intros c [].
Qed.

Lemma keepsRootsOnly_mutateTask (key : string) (f : TaskContract -> TaskContract) :
  (forall t, parentTaskId (f t) = parentTaskId t
             /\ forall c, In c (orEmpty (claims (f t))) -> In c (orEmpty (claims t))) ->
  respects (keepsRootsOnly minimatch) (mutateTask key f).
Proof.
  intros Hf st H. unfold mutateTask, modify, after; simpl.
  destruct (JsObject.get (tasks st) key) as [task|] eqn:Hget; [|exact H].
  destruct (Hf task) as [Hp Hc]. destruct H as (H1 & H2 & H3 & H4 & H5).
  apply rootsOnly_set; [| |repeat split; assumption].
  - intros Hk. rewrite Hp. eauto.
  - intros c Hin. split.
    + apply H3. eapply held_of_get; eauto.
    + apply H5. exists task. auto.
Qed.

Lemma keepsRootsOnly_refreshActiveClaims :
  respects (keepsRootsOnly minimatch) refreshActiveClaims.
Proof.
  intros st (H1 & H2 & H3 & H4 & H5). unfold refreshActiveClaims, modify, after; simpl.
  rewrite fold_left_app_claims. simpl. fold (heldClaims (tasks st)).
  repeat split; simpl; auto.
Qed.

Lemma keepsRootsOnly_hydrate (e : Env) :
  diskRootsOnly minimatch e -> respects (keepsRootsOnly minimatch) (hydrate e).
Proof.
  intros Hd st H. unfold hydrate. unfold diskRootsOnly in Hd.
  destruct (disk e) as [| |parsed]; try exact H.
  unfold bind, after, putState, ret.
  destruct (negb _); rewrite !log_run; exact Hd.
Qed.

Lemma keepsRootsOnly_reset (e : Env) :
  respects (keepsRootsOnly minimatch) (putState (createInitialState e)).
Proof. intros st _. apply rootsOnly_fresh. Qed.

Lemma keepsRootsOnly_claimScope (e : Env) (paths : list string) (x : bool) :
  respects (keepsRootsOnly minimatch) (claimScope minimatch e paths x).
Proof.
  intros st H.
  destruct (activeTaskId (session st)) as [tid|] eqn:Hact;
    [|unfold claimScope, bind, getState; rewrite Hact; exact H].
  destruct (String.eqb_spec tid "") as [->|Hne];
    [unfold claimScope, bind, getState; rewrite Hact; exact H|].
  destruct (JsObject.get (tasks st) tid) as [task|] eqn:Hget.
  2:{ unfold claimScope, bind, getState. rewrite Hact. unfold truthy.
      destruct (String.eqb_spec tid ""); [contradiction|]. cbn [negb]. rewrite Hget.
      exact H. }
  rewrite (@claimScope_run e paths x st tid task Hact Hne Hget). cbv zeta.
  pose proof H as (H1 & H2 & H3 & H4 & H5).
  assert (Hroot : parentTaskId task = None) by eauto.
  assert (Hst1 : rootsOnly minimatch (withClaimsArray st tid task)).
  { unfold withClaimsArray. destruct (claims task) eqn:Ec; [exact H|].
    apply rootsOnly_set; [auto| |exact H]. intros c []. }
  assert (Hcache : activeClaims (session (withClaimsArray st tid task))
                   = activeClaims (session st))
    by (unfold withClaimsArray; now destruct (claims task)).
  assert (Hact1 : activeTaskId (session (withClaimsArray st tid task))
                  = activeTaskId (session st))
    by (unfold withClaimsArray; now destruct (claims task)).
  destruct (conflictsFound _ paths) as [|c0 found] eqn:Hfound; [|exact Hst1].
  cbn [after snd].
  pose proof (proj1 (conflictsFound_nil _ _) Hfound) as Hnone.
  set (tasks2 := JsObject.set _ tid _).
  assert (Hsplit : forall c, In c (heldClaims tasks2) ->
            In c (orEmpty (activeClaims (session st)))
            \/ exists p, In p paths /\ c = mkScopeClaim p x tid (nowMs e)).
  { intros c Hin. subst tasks2. apply In_held_set in Hin as [Hin|Hin].
    - left. rewrite <- Hcache. apply (proj1 (proj2 (proj2 Hst1))). exact Hin.
    - simpl in Hin. apply in_app_iff in Hin as [Hin|Hin].
      + left. apply H3. eapply held_of_get; eauto.
      + right. apply in_map_iff in Hin as (p & <- & Hp). eauto. }
  assert (Hmixed : forall c p,
            In c (orEmpty (activeClaims (session st))) -> In p paths ->
            checkOverlap minimatch p (path c) = true ->
            ownerTaskId c = tid).
  { intros c p Hc Hp Ho. specialize (Hnone p Hp). cbv beta in Hnone.
    rewrite checkConflict_find in Hnone.
    pose proof (find_none _ _ Hnone c Hc) as Hf. cbv beta in Hf.
    rewrite Ho, andb_true_r in Hf. unfold considered in Hf.
    apply andb_false_iff in Hf as [Hf|Hf]; apply negb_false_iff in Hf.
    - unfold ownedByRequestor in Hf. now apply String.eqb_eq in Hf.
    - unfold ownedByParent in Hf. rewrite Hget, Hroot in Hf. discriminate. }
  split; [|split; [|split; [|split]]];
    cbn [session tasks activeClaims activeTaskId with_activeClaims
         with_lastKnownFileHashes orEmpty].
  - exact H1.
  - intros k t Hk Hk2. subst tasks2.
    destruct (String.eqb_spec tid k) as [->|Hnek].
    + rewrite get_set_same in Hk2. inversion Hk2; subst. exact Hroot.
    + rewrite get_set_other in Hk2 by assumption.
      apply (proj1 (proj2 Hst1) k t Hk Hk2).
  - auto.
  - fold (heldClaims tasks2). intros c1 c2 Hc1 Hc2 Ho.
    destruct (Hsplit c1 Hc1) as [Hold1|(p1 & Hp1 & ->)];
      destruct (Hsplit c2 Hc2) as [Hold2|(p2 & Hp2 & ->)]; cbn [ownerTaskId path] in *.
    + apply H4; assumption.
    + apply (Hmixed c1 p2); auto. now rewrite checkOverlap_sym.
    + symmetry. apply (Hmixed c2 p1); auto.
    + reflexivity.
  - intros k c (t & Hk & Hin). subst tasks2.
    destruct (String.eqb_spec tid k) as [->|Hnek].
    + rewrite get_set_same in Hk. inversion Hk; subst t. simpl in Hin.
      apply in_app_iff in Hin as [Hin|Hin].
      * apply H5. exists task. auto.
      * apply in_map_iff in Hin as (p & <- & Hp). reflexivity.
    + rewrite get_set_other in Hk by assumption.
      apply (proj2 (proj2 (proj2 (proj2 Hst1)))). exists t. auto.
Qed.

#[local] Hint Resolve keepsRootsOnly_refl keepsRootsOnly_trans : core.

Ltac keepsRootsOnly_leaf :=
  idtac;
  match goal with
  | |- respects _ (log _ _ _ _) => apply keepsRootsOnly_log
  | |- respects _ (mutateTask _ _) =>
      apply keepsRootsOnly_mutateTask; intros ?; simpl; split; [reflexivity|tauto]
  | |- respects _ refreshActiveClaims => apply keepsRootsOnly_refreshActiveClaims
  | |- respects _ (mergeKnownHashes _) =>
      apply keepsRootsOnly_modifySession; intros ?; split; [reflexivity|left; reflexivity]
  | |- respects _ (modifySession _) =>
      apply keepsRootsOnly_modifySession; intros ?; split;
      [ reflexivity
      | first [ left; reflexivity
              | right; left; reflexivity
              | right; right; eexists; split; [reflexivity|apply isRootId_task] ] ]
  | |- respects _ (modify (fun st => with_tasks st (JsObject.set (tasks st) _ _))) =>
      apply keepsRootsOnly_setTask; [first [reflexivity | discriminate]|reflexivity]
  | |- respects _ (claimScope _ _ _ _) => apply keepsRootsOnly_claimScope
  | |- respects _ (putState (createInitialState _)) => apply keepsRootsOnly_reset
  | |- respects _ (hydrate _) => apply keepsRootsOnly_hydrate; assumption
  end.

(** X11: through the public API no two tasks ever hold overlapping scopes. A
    fresh session is one in which only proposed tasks act, and every request
    keeps it so (a reload, provided the snapshot is such a session): the
    active task is never a delegated sub-task, two overlapping claims of the
    active list always have one owner, and the owner of a claim is the task
    whose claim list holds it. Hence in such a session two claims that
    overlap are never held by tasks registered under different ids, and the
    second guard of [checkConflict], the one for the requestor's parent,
    never fires for the active task. *)
Theorem tasks_never_share_scope (e : Env) :
  rootsOnly minimatch (createInitialState e)
  /\ (forall (r : Request) (st : DriftGuardState),
        diskRootsOnly minimatch e ->
        rootsOnly minimatch st ->
        rootsOnly minimatch (after (perform minimatch e r st)))
  /\ (forall (st : DriftGuardState) (k1 k2 : string) (c1 c2 : ScopeClaim),
        rootsOnly minimatch st ->
        holds (tasks st) k1 c1 ->
        holds (tasks st) k2 c2 ->
        checkOverlap minimatch (path c1) (path c2) = true ->
        k1 = k2)
  /\ (forall (st : DriftGuardState) (tid : string),
        rootsOnly minimatch st ->
        activeTaskId (session st) = Some tid ->
        isRootId tid = true
        /\ (forall c, ownedByParent tid (tasks st) c = false)
        /\ (forall p cs c,
              In c cs -> ownerTaskId c <> tid ->
              checkOverlap minimatch p (path c) = true ->
              checkConflict minimatch p tid cs (tasks st) <> None)).
Proof.
  split; [apply rootsOnly_fresh|]. split; [|split].
  - intros r st Hd.
    change (keepsRootsOnly minimatch st (after (perform minimatch e r st))).
    destruct r; unfold perform; try rewrite after_discard; as_respects.
    + unfold initialize. respects_steps keepsRootsOnly_leaf.
    + respects_steps keepsRootsOnly_leaf.
    + unfold proposeTask. respects_steps keepsRootsOnly_leaf.
    + unfold beginStep. respects_steps keepsRootsOnly_leaf.
    + unfold checkpoint. respects_steps keepsRootsOnly_leaf.
    + unfold panic. respects_steps keepsRootsOnly_leaf.
    + unfold reportIntent. respects_steps keepsRootsOnly_leaf.
    + unfold verify. respects_steps keepsRootsOnly_leaf.
    + unfold explainChange. respects_steps keepsRootsOnly_leaf.
    + unfold setTestCommand. respects_steps keepsRootsOnly_leaf.
    + respects_steps keepsRootsOnly_leaf.
    + unfold delegateTask. respects_steps keepsRootsOnly_leaf.
    + unfold analyzeRisk. respects_steps keepsRootsOnly_leaf.
    + unfold healthCheck. respects_steps keepsRootsOnly_leaf.
    + unfold generateHandoff. respects_steps keepsRootsOnly_leaf.
    + unfold reset. respects_steps keepsRootsOnly_leaf.
  - intros st k1 k2 c1 c2 (H1 & H2 & H3 & H4 & H5) Hk1 Hk2 Ho.
    rewrite <- (H5 k1 c1 Hk1), <- (H5 k2 c2 Hk2).
    destruct Hk1 as (t1 & Hg1 & Hin1). destruct Hk2 as (t2 & Hg2 & Hin2).
    apply H4; [| |exact Ho]; apply H3.
    + exact (held_of_get _ _ _ Hg1 Hin1).
    + exact (held_of_get _ _ _ Hg2 Hin2).
  - intros st tid (H1 & H2 & H3 & H4 & H5) Hact.
    assert (Hpar : forall c, ownedByParent tid (tasks st) c = false).
    { intros c. unfold ownedByParent.
      destruct (JsObject.get (tasks st) tid) as [t|] eqn:Hget; [|reflexivity].
      rewrite (H2 tid t (H1 tid Hact) Hget). reflexivity. }
    split; [auto|]. split; [exact Hpar|].
    intros p cs c Hin Hown Ho. rewrite checkConflict_find. intros Hnone.
    pose proof (find_none _ _ Hnone c Hin) as Hf. cbv beta in Hf.
    unfold considered in Hf. rewrite Ho, Hpar in Hf.
    unfold ownedByRequestor in Hf.
    destruct (String.eqb_spec (ownerTaskId c) tid); [contradiction|discriminate].
Qed.

(* ----------------------------------------------------------------- *)
(** *** Reloading *)

Lemma slice_last_snoc (A : Type) (n : nat) (l : list A) (x : A) :
  (0 < n)%nat -> slice_last n (l ++ [x]) = (slice_last (n - 1) l ++ [x])%list.
Proof.
  intros Hn. unfold slice_last. rewrite skipn_app, length_app. simpl.
  replace (List.length l + 1 - n - List.length l)%nat with 0%nat by lia.
  replace (List.length l + 1 - n)%nat with (List.length l - (n - 1))%nat by lia.
  reflexivity.
Qed.



(* ----------------------------------------------------------------- *)
(** *** What a request writes *)

Lemma agreeOn_refl (p : Part) (st : DriftGuardState) : agreeOn p st st.
Proof. destruct p; simpl; auto. Qed.

Lemma agreeOn_trans (p : Part) (a b c : DriftGuardState) :
  agreeOn p a b -> agreeOn p b c -> agreeOn p a c.
Proof. destruct p; simpl; try (intros -> ->; reflexivity). intros [-> ->] [-> ->]; auto. Qed.

#[local] Hint Resolve agreeOn_refl agreeOn_trans : core.

(** Every primitive step is a [modify]. *)
Ltac agreeOn_leaf :=
  idtac;
  match goal with
  | |- respects (agreeOn _) ?m =>
      first
        [ is_var m; fail 1
        | let st := fresh "st" in
          intros st;
          unfold log, mutateTask, mergeKnownHashes, modifySession, refreshActiveClaims,
            modify, after;
          cbn [snd agreeOn];
          try (destruct (JsObject.get (tasks st) _));
          solve [reflexivity | split; reflexivity] ]
  end.

(** X13: the parts of the state a request leaves alone. Outside the parts
    its method assigns to, a request leaves the state as it is, whether it
    returns or throws: a panic touches only the focus state and the log, a
    verification only the verified flag and the log, an explanation only the
    log, a risk analysis only the tasks, a health check and a handoff
    nothing; and no request except a reload or a reset touches the version,
    the session id or the start time. *)
Theorem untouched_parts (e : Env) (r : Request) (p : Part) (st : DriftGuardState) :
  ~ In p (writes r) -> agreeOn p st (after (perform minimatch e r st)).
Proof.
  intros Hp.
  destruct r; unfold perform; try rewrite after_discard; as_respects;
    destruct p;
    try (exfalso; apply Hp; simpl; tauto); clear Hp.
  all: first
    [ unfold proposeTask; respects_steps agreeOn_leaf; fail
    | unfold beginStep; respects_steps agreeOn_leaf; fail
    | unfold checkpoint; respects_steps agreeOn_leaf; fail
    | unfold panic; respects_steps agreeOn_leaf; fail
    | unfold reportIntent; respects_steps agreeOn_leaf; fail
    | unfold verify; respects_steps agreeOn_leaf; fail
    | unfold explainChange; respects_steps agreeOn_leaf; fail
    | unfold setTestCommand; respects_steps agreeOn_leaf; fail
    | unfold claimScope; respects_steps agreeOn_leaf; fail
    | unfold delegateTask; respects_steps agreeOn_leaf; fail
    | unfold analyzeRisk; respects_steps agreeOn_leaf; fail
    | unfold healthCheck; respects_steps agreeOn_leaf; fail
    | unfold generateHandoff; respects_steps agreeOn_leaf; fail ].
Qed.

(* ----------------------------------------------------------------- *)
(** *** The task registry over time *)

Lemma itemProgress_refl (i : ChecklistItem) : itemProgress i i.
Proof. repeat split; auto. Qed.

Lemma Forall2_itemProgress_refl (items : list ChecklistItem) :
  Forall2 itemProgress items items.
Proof. induction items; constructor; auto using itemProgress_refl. Qed.

Lemma Forall2_itemProgress_trans (a b c : list ChecklistItem) :
  Forall2 itemProgress a b -> Forall2 itemProgress b c -> Forall2 itemProgress a c.
Proof.
  intros Hab. revert c. induction Hab as [|x y a b Hxy Hab IH]; intros c Hbc.
  - inversion Hbc. constructor.
  - inversion Hbc as [|y' z b' c' Hyz Hbc']; subst. constructor; [|auto].
    destruct Hxy as (H1 & H2 & H3), Hyz as (H4 & H5 & H6).
    repeat split; try congruence. auto.
Qed.

Lemma markDone_progress (cid : string) (items : list ChecklistItem) :
  Forall2 itemProgress items (markDone cid items).
Proof.
  induction items as [|i items IH]; simpl; [constructor|].
  destruct (String.eqb (id i) cid).
  - constructor; [|apply Forall2_itemProgress_refl]. repeat split.
  - constructor; [apply itemProgress_refl|exact IH].
Qed.

Lemma markAllDone_progress (cids : list string) (items : list ChecklistItem) :
  Forall2 itemProgress items (markAllDone cids items).
Proof.
  unfold markAllDone. revert items.
  induction cids as [|c cids IH]; intros items; simpl.
  - apply Forall2_itemProgress_refl.
  - eapply Forall2_itemProgress_trans; [apply markDone_progress|apply IH].
Qed.

Lemma evolves_refl (t : TaskContract) : evolves t t.
Proof.
  repeat split; auto using Forall2_itemProgress_refl.
  - exists []. now rewrite app_nil_r.
  - intros s Hs. exists s. split; [assumption|lia].
Qed.

Lemma evolves_trans (a b c : TaskContract) : evolves a b -> evolves b c -> evolves a c.
Proof.
  intros (A1 & A2 & A3 & A4 & A5 & A6 & A7 & A8 & [x A9] & A10)
         (B1 & B2 & B3 & B4 & B5 & B6 & B7 & B8 & [y B9] & B10).
  repeat split; try congruence.
  - eapply Forall2_itemProgress_trans; eassumption.
  - exists (x ++ y)%list. rewrite B9, A9. now rewrite app_assoc.
  - intros s Hs. destruct (A10 s Hs) as (s' & Hs' & Hle).
    destruct (B10 s' Hs') as (s'' & Hs'' & Hle'). exists s''. split; [assumption|lia].
Qed.

Lemma registryGrows_refl (st : DriftGuardState) : registryGrows st st.
Proof. intros k t H. eauto using evolves_refl. Qed.

Lemma registryGrows_trans (a b c : DriftGuardState) :
  registryGrows a b -> registryGrows b c -> registryGrows a c.
Proof.
  intros Hab Hbc k t H. destruct (Hab k t H) as (t' & H' & E).
  destruct (Hbc k t' H') as (t'' & H'' & E'). eauto using evolves_trans.
Qed.

Lemma registryGrows_same (st st' : DriftGuardState) :
  tasks st' = tasks st -> registryGrows st st'.
Proof. intros E k t H. rewrite E. eauto using evolves_refl. Qed.

Lemma registryGrows_set (st : DriftGuardState) (k : string) (v : TaskContract) :
  (forall v0, JsObject.get (tasks st) k = Some v0 -> evolves v0 v) ->
  registryGrows st (with_tasks st (JsObject.set (tasks st) k v)).
Proof.
  intros Hv k' t H. simpl. destruct (String.eqb_spec k k') as [->|Hne].
  - rewrite get_set_same. eauto.
  - rewrite get_set_other by assumption. eauto using evolves_refl.
Qed.

Lemma registryGrows_mutateTask (key : string) (f : TaskContract -> TaskContract) :
  (forall t, evolves t (f t)) -> respects registryGrows (mutateTask key f).
Proof.
  intros Hf st. unfold mutateTask, modify, after; simpl.
  destruct (JsObject.get (tasks st) key) as [task|] eqn:Hget; [|apply registryGrows_refl].
  apply registryGrows_set. intros v0 Hv0. rewrite Hget in Hv0. inversion Hv0; subst. auto.
Qed.

Lemma registryGrows_session (f : DriftSession -> DriftSession) :
  respects registryGrows (modifySession f).
Proof. intros st. now apply registryGrows_same. Qed.

Lemma registryGrows_log (e : Env) (action : string) (taskId details : option string) :
  respects registryGrows (log e action taskId details).
Proof. intros st. rewrite log_run. now apply registryGrows_same. Qed.

#[local] Hint Resolve registryGrows_refl registryGrows_trans : core.

Ltac evolves_field :=
  intros ?; repeat split; simpl;
  first [ reflexivity
        | apply Forall2_itemProgress_refl
        | eexists; symmetry; apply app_nil_r
        | eexists; reflexivity
        | intros ? ->; eexists; split; [reflexivity|lia]
        | intros ? ?; eexists; split; [eassumption|lia] ].

Ltac registryGrows_leaf :=
  idtac;
  match goal with
  | |- respects _ (log _ _ _ _) => apply registryGrows_log
  | |- respects _ (mutateTask _ _) => apply registryGrows_mutateTask; evolves_field
  | |- respects _ refreshActiveClaims => intros ?; now apply registryGrows_same
  | |- respects _ (mergeKnownHashes _) => apply registryGrows_session
  | |- respects _ (modifySession _) => apply registryGrows_session
  end.

Lemma checkpoint_cases (e : Env) (summary : string) (cids : list string)
  (st : DriftGuardState) :
  after (checkpoint e summary cids st) = st
  \/ exists tid task,
       currentState (session st) = EXECUTING /\ intentFiled (session st) = true
       /\ activeTaskId (session st) = Some tid /\ tid <> ""
       /\ JsObject.get (tasks st) tid = Some task.
Proof.
  destruct (existsb (FocusState_eqb (currentState (session st))) [EXECUTING]) eqn:Hs.
  2:{ left. unfold checkpoint. unfold bind at 1. rewrite validateTransition_run, Hs.
      reflexivity. }
  destruct (intentFiled (session st)) eqn:Hi.
  2:{ left. unfold checkpoint. unfold bind at 1. rewrite validateTransition_run, Hs.
      unfold bind at 1. unfold getState at 1. rewrite Hi. reflexivity. }
  assert (Hreq : forall A (f : string * TaskContract -> Op A),
            (exists tid task, requireActiveTask st = (Return (tid, task), st)
               /\ activeTaskId (session st) = Some tid /\ tid <> ""
               /\ JsObject.get (tasks st) tid = Some task)
            \/ after (bind requireActiveTask f st) = st).
  { intros A f. unfold requireActiveTask, bind, getState.
    destruct (activeTaskId (session st)) as [tid|]; [|right; reflexivity].
    destruct (String.eqb_spec tid ""); [right; reflexivity|].
    destruct (JsObject.get (tasks st) tid) as [task|] eqn:Hget; [|right; reflexivity].
    left. exists tid, task. auto. }
  unfold checkpoint. unfold bind at 1. rewrite validateTransition_run, Hs.
  unfold bind at 1. unfold getState at 1. rewrite Hi. cbn [negb].
  match goal with
  | |- after (bind requireActiveTask ?f st) = st \/ _ => destruct (Hreq _ f) as [H|H]
  end.
  - right. destruct H as (tid & task & _ & Hact & Hne & Hget). exists tid, task.
    repeat split; try assumption.
    apply allowed_In in Hs. destruct Hs as [Hs|[]]. now symmetry.
  - left. exact H.
Qed.

Lemma registryGrows_checkpoint (e : Env) (summary : string) (cids : list string) :
  respects registryGrows (checkpoint e summary cids).
Proof.
  intros st. destruct (checkpoint_cases e summary cids st) as [->|H]; [auto|].
  destruct H as (tid & task & Hs & Hi & Hact & Hne & Hget).
  destruct (@checkpoint_run e summary cids st tid task Hs Hi Hact Hne Hget)
    as (st' & Hr & _ & Htasks & _).
  rewrite Hr. cbn [after snd].
  assert (Hev : evolves task
            (with_updatedAt (with_checklist task (markAllDone cids (checklist task))) (now e))).
  { repeat split; simpl; auto using markAllDone_progress.
    - exists []. now rewrite app_nil_r.
    - intros s Hsc. exists s. split; [assumption|lia]. }
  intros k t Hk. rewrite Htasks.
  destruct (String.eqb_spec tid k) as [<-|Hnek].
  - rewrite Hget in Hk. inversion Hk; subst t.
    destruct (claims task); rewrite get_set_same; eexists; (split; [reflexivity|]).
    + exact Hev.
    + exact Hev.
  - destruct (claims task); rewrite ?get_set_other by assumption;
      eauto using evolves_refl.
Qed.

Lemma registryGrows_proposeTask (e : Env) (title goal : string)
  (allowedScopes : list string) (items : list ChecklistInput)
  (level : option StrictnessLevel) (st : DriftGuardState) :
  JsObject.get (tasks st) ("task_" ++ str_slice0 8 (uuid e)) = None ->
  registryGrows st (after (proposeTask e title goal allowedScopes items level st)).
Proof.
  intros Hfresh.
  unfold proposeTask. unfold bind at 1. rewrite validateTransition_run.
  destruct (existsb _ [IDLE]); [|apply registryGrows_refl].
  unfold bind, modifySession, syncToDisk, ret. unfold modify.
  rewrite log_run. cbn [after snd].
  eapply registryGrows_trans; [apply (@registryGrows_set st)|apply registryGrows_same];
    [|reflexivity].
  intros v0 Hv0. rewrite Hfresh in Hv0. discriminate.
Qed.

Lemma registryGrows_delegateTask (e : Env) (subTaskTitle subTaskGoal : string)
  (subScope : list string) (st : DriftGuardState) :
  JsObject.get (tasks st) ("sub_" ++ str_slice0 8 (uuid e)) = None ->
  registryGrows st (after (delegateTask minimatch e subTaskTitle subTaskGoal subScope st)).
Proof.
  intros Hfresh.
  unfold delegateTask. unfold bind at 1. rewrite validateTransition_run.
  destruct (existsb _ [EXECUTING]); [|apply registryGrows_refl].
  unfold bind at 1. unfold getState.
  set (pk := match activeTaskId (session st) with Some i => i | None => "undefined" end).
  destruct (JsObject.get (tasks st) pk) as [parent|] eqn:Hget; [|apply registryGrows_refl].
  destruct (negb _ && _); [apply registryGrows_refl|].
  unfold bind at 1. unfold mutateTask at 1. unfold modify at 1. rewrite Hget.
  unfold bind at 1. unfold modify at 1.
  unfold bind at 1. rewrite log_run.
  unfold bind, syncToDisk, ret. cbn [after snd].
  assert (Hne : pk <> "sub_" ++ str_slice0 8 (uuid e)) by congruence.
  eapply registryGrows_trans; [apply (@registryGrows_set st pk)|].
  2:{ eapply registryGrows_trans; [apply registryGrows_set|apply registryGrows_same];
        [|reflexivity].
      intros v0 Hv0. cbn [tasks with_tasks] in Hv0.
      rewrite get_set_other in Hv0 by assumption. congruence. }
  intros v0 Hv0. rewrite Hget in Hv0. inversion Hv0; subst v0.
  repeat split; simpl; auto using Forall2_itemProgress_refl.
  - eexists. reflexivity.
  - intros s Hsc. exists s. split; [assumption|lia].
Qed.

(** X14: the registry only grows. No request other than a reload or a reset
    removes a task or moves it to another key, provided the id the request
    generates is not already in use; and what identifies a registered task
    (id, title, goal, allowed scopes, strictness, parent, creation time)
    never changes, its checklist keeps its items in order with no [done]
    item going back to [todo], its list of sub-tasks is only appended to, and
    its risk score never goes down. *)
Theorem registry_only_grows (e : Env) (r : Request) (st : DriftGuardState) :
  reloads r = false ->
  (forall k, mintedId e r = Some k -> JsObject.get (tasks st) k = None) ->
  registryGrows st (after (perform minimatch e r st)).
Proof.
  intros Hr Hfresh.
  destruct r; try discriminate Hr; clear Hr; unfold perform; rewrite after_discard;
    first [specialize (Hfresh _ eq_refl) | clear Hfresh].
  - apply registryGrows_proposeTask. exact Hfresh.
  - as_respects. unfold beginStep. respects_steps registryGrows_leaf.
  - apply registryGrows_checkpoint.
  - as_respects. unfold panic. respects_steps registryGrows_leaf.
  - as_respects. unfold reportIntent. respects_steps registryGrows_leaf.
  - as_respects. unfold verify. respects_steps registryGrows_leaf.
  - as_respects. unfold explainChange. respects_steps registryGrows_leaf.
  - as_respects. unfold setTestCommand. respects_steps registryGrows_leaf.
  - as_respects. unfold claimScope. respects_steps registryGrows_leaf.
  - apply registryGrows_delegateTask. exact Hfresh.
  - as_respects. unfold analyzeRisk. respects_steps registryGrows_leaf.
  - as_respects. unfold healthCheck. respects_steps registryGrows_leaf.
  - as_respects. unfold generateHandoff. respects_steps registryGrows_leaf.
Qed.

(* ----------------------------------------------------------------- *)
(** *** The project directory *)

Lemma prefix_app (a b : string) : prefix a (a ++ b) = true.
Proof.
  induction a as [|c a IH]; simpl; [now destruct b|].
  destruct (ascii_dec c c); [exact IH|contradiction].
Qed.

Lemma str_app_assoc (a b c : string) : (a ++ b) ++ c = a ++ b ++ c.
Proof. induction a as [|x a IH]; simpl; [reflexivity|now rewrite IH]. Qed.

Lemma includes_unfold (sub s : string) :
  includes sub s
  = if prefix sub s then true
    else match s with
         | EmptyString => false
         | String _ rest => includes sub rest
         end.
Proof. now destruct s. Qed.

Lemma includes_app_r (sub a b : string) : includes sub (a ++ sub ++ b) = true.
Proof.
  induction a as [|c a IH].
  - change ("" ++ sub ++ b) with (sub ++ b). now rewrite includes_unfold, prefix_app.
  - change (String c a ++ sub ++ b) with (String c (a ++ sub ++ b)).
    rewrite includes_unfold. cbv iota. rewrite IH. now destruct (prefix sub _).
Qed.

Lemma endsWith_unfold (suffix s : string) :
  endsWith suffix s
  = if String.eqb s suffix then true
    else match s with
         | EmptyString => false
         | String _ rest => endsWith suffix rest
         end.
Proof. now destruct s. Qed.

Lemma endsWith_app (suffix a : string) : endsWith suffix (a ++ suffix) = true.
Proof.
  induction a as [|c a IH].
  - change ("" ++ suffix) with suffix. now rewrite endsWith_unfold, String.eqb_refl.
  - change (String c a ++ suffix) with (String c (a ++ suffix)).
    rewrite endsWith_unfold. cbv iota. rewrite IH. now destruct (String.eqb _ suffix).
Qed.

(** X15: [updateGitignore] only ever appends, and does so once. When the
    file does not mention [.driftguard] and can be written, the new content
    is the old one, a line feed unless the old content ends with one, and
    the line [.driftguard]; a missing file is read as empty, so the new file
    starts with an empty line. The result mentions the entry and ends with a
    line feed, and a second run writes nothing. A file that mentions
    [.driftguard] anywhere, or that cannot be written, is left as it is. *)
Theorem updateGitignore_appends_once (writable : bool) (file : option string) :
  let content := match file with Some c => c | None => "" end in
  let result := updateGitignore writable file in
  (includes DRIFTGUARD_DIR content = true \/ writable = false -> result = file)
  /\ (includes DRIFTGUARD_DIR content = false -> writable = true ->
      exists written,
        result = Some written
        /\ written
           = content ++ (if endsWith LF content then "" else LF) ++ DRIFTGUARD_DIR ++ LF
        /\ includes DRIFTGUARD_DIR written = true
        /\ endsWith LF written = true
        /\ forall writable', updateGitignore writable' result = result)
  /\ updateGitignore writable (updateGitignore true file) = updateGitignore true file
  /\ updateGitignore true None = Some (LF ++ DRIFTGUARD_DIR ++ LF).
Proof.
  cbv zeta.
  assert (Hinc : forall c, includes DRIFTGUARD_DIR
            (c ++ (if endsWith LF c then "" else LF) ++ DRIFTGUARD_DIR ++ LF) = true).
  { intros c. destruct (endsWith LF c).
    - exact (includes_app_r DRIFTGUARD_DIR c LF).
    - rewrite <- str_app_assoc. exact (includes_app_r DRIFTGUARD_DIR (c ++ LF) LF). }
  assert (Hstable : forall w c,
            includes DRIFTGUARD_DIR c = true -> updateGitignore w (Some c) = Some c).
  { intros w c Hc. unfold updateGitignore. cbv zeta. now rewrite Hc. }
  split; [|split; [|split]].
  - unfold updateGitignore. cbv zeta. intros [H| ->].
    + now rewrite H.
    + now destruct (negb _).
  - intros Hno ->. unfold updateGitignore. cbv zeta. rewrite Hno. cbn [negb].
    eexists. split; [reflexivity|]. split; [reflexivity|]. split; [apply Hinc|].
    split.
    + rewrite <- 2 str_app_assoc. apply endsWith_app.
    + intros w. apply Hstable, Hinc.
  - unfold updateGitignore at 2 3. cbv zeta.
    destruct (includes DRIFTGUARD_DIR match file with Some c => c | None => "" end) eqn:E;
      cbn [negb].
    + unfold updateGitignore. cbv zeta. now rewrite E.
    + apply Hstable, Hinc.
  - reflexivity.
Qed.

(** X16: the level [scanForStrictness] recommends. It is L1 exactly when
    the [try] block is left early: [package.json] cannot be read, is not
    JSON, or is the JSON value [null] (reading [pkg.scripts] then throws),
    whatever else the project has. Otherwise it is L3 exactly when
    [scripts.test] is truthy and not the script [npm init] writes (a
    non-empty string other than that one, or a truthy value that is not a
    string), whether or not there is a CI configuration; L4 exactly when
    there is no such entry and one of the three CI paths exists, the first
    of those being the one named in the reason; L2 otherwise; and never
    L5. *)
Theorem scanForStrictnessOf_levels (p : Project) :
  let level := fst (scanForStrictnessOf p) in
  let tested :=
    packageJson p = Json OtherEntry
    \/ exists script, packageJson p = Json (Script script)
                      /\ script <> "" /\ script <> NO_TEST_SPECIFIED in
  let ci := exists ciPath, In ciPath ciPaths /\ accessible p ciPath = true in
  (level = L1_VIBE
   <-> packageJson p = NotRead \/ packageJson p = NotJson \/ packageJson p = JsonNull)
  /\ (level = L1_VIBE <-> ~ scanned p)
  /\ (level = L3_BALANCED <-> tested)
  /\ (level = L4_ENGINEERED <-> scanned p /\ ~ tested /\ ci)
  /\ (level = L2_LOGGED <-> scanned p /\ ~ tested /\ ~ ci)
  /\ level <> L5_CRITICAL
  /\ (forall ciPath,
        level = L4_ENGINEERED -> find (accessible p) ciPaths = Some ciPath ->
        snd (scanForStrictnessOf p)
        = "Detected CI configuration (" ++ ciPath
            ++ ") - recommending L4 (Test Passing Required)").
Proof.
  clear minimatch.
  cbv zeta. unfold scanForStrictnessOf, scanned.
  destruct (packageJson p) as [| | |test] eqn:Hp.
  1-3: cbn [fst snd]; repeat split; try discriminate; try reflexivity; auto;
    try (intros [H|(s & H & _)]; discriminate);
    try (intros ((t & H) & _); discriminate);
    try (intros _ (t & H); discriminate).
  assert (Hscanned : exists t, Json test = Json t) by eauto.
  assert (Htest : hasTestScript test = true
                  <-> Json test = Json OtherEntry
                      \/ exists script, Json test = Json (Script script)
                            /\ script <> "" /\ script <> NO_TEST_SPECIFIED).
  { destruct test as [|s|]; simpl.
    - split; [discriminate|]. intros [H|(x & H & _)]; discriminate.
    - split.
      + intros H. apply andb_prop in H. destruct H as [H1 H2].
        right. exists s. split; [reflexivity|].
        destruct (String.eqb_spec s ""); [discriminate H1|].
        destruct (String.eqb_spec s NO_TEST_SPECIFIED); [discriminate H2|]. auto.
      + intros [H|(x & Hx & H1 & H2)]; [discriminate H|].
        inversion Hx; subst x.
        destruct (String.eqb_spec s ""); [contradiction|].
        destruct (String.eqb_spec s NO_TEST_SPECIFIED); [contradiction|]. reflexivity.
    - split; auto. }
  assert (Hci : (exists c, find (accessible p) ciPaths = Some c)
                <-> exists ciPath, In ciPath ciPaths /\ accessible p ciPath = true).
  { split.
    - intros (c & Hc). apply find_some in Hc. eauto.
    - intros (c & Hin & Hc). destruct (find (accessible p) ciPaths) eqn:E; [eauto|].
      apply (find_none _ _ E) in Hin. congruence. }
  assert (Hnot : ~ (Json test = NotRead \/ Json test = NotJson \/ Json test = JsonNull))
    by (intros [H|[H|H]]; discriminate).
  destruct (hasTestScript test) eqn:Et.
  - pose proof (proj1 Htest eq_refl) as Ht. cbn [fst snd].
    repeat split; try discriminate; try assumption; try tauto.
  - assert (Hnt : ~ (Json test = Json OtherEntry
                     \/ exists script, Json test = Json (Script script)
                           /\ script <> "" /\ script <> NO_TEST_SPECIFIED))
      by (intros H; apply Htest in H; discriminate).
    destruct (find (accessible p) ciPaths) as [c|] eqn:Ef; cbn [fst snd].
    + assert (Hc : exists ciPath, In ciPath ciPaths /\ accessible p ciPath = true)
        by (apply Hci; eauto).
      repeat split; try discriminate; try assumption; try tauto.
      intros ciPath _ H. inversion H; subst. reflexivity.
    + assert (Hc : ~ exists ciPath, In ciPath ciPaths /\ accessible p ciPath = true)
        by (intros H; apply Hci in H; destruct H; discriminate).
      repeat split; try discriminate; try assumption; try tauto.
Qed.

(* ----------------------------------------------------------------- *)
(** *** Git manager *)

Lemma isGitRepo_cached (w : Git.Repo) (g : Git.GitManager) (b : bool) :
  Git._isRepo g = Some b -> Git.isGitRepo w g = (b, g).
Proof. intros H. unfold Git.isGitRepo. now rewrite H. Qed.

Lemma isGitRepoCalls_cached (ws : list Git.Repo) (g : Git.GitManager) (b : bool) :
  Git._isRepo g = Some b ->
  Git.isGitRepoCalls ws g = (repeat b (List.length ws), g).
Proof.
  intros H. induction ws as [|w ws IH]; simpl; [reflexivity|].
  rewrite (isGitRepo_cached w g H). simpl. now rewrite IH.
Qed.

(** X17: [isGitRepo] asks git once. On a manager that has not asked yet, the
    first call answers what [git rev-parse --git-dir] says then, and every
    later call repeats that answer whatever the directory has become in the
    meantime; [getChangedFiles] then reports no file in a directory first
    seen outside a repository. Only [setProjectPath] makes the next call ask
    again. *)
Theorem isGitRepo_asks_once (w : Git.Repo) (later : list Git.Repo) (g : Git.GitManager) :
  Git._isRepo g = None ->
  let first := Git.revparseGitDir w in
  let g' := snd (Git.isGitRepoCalls (w :: later) g) in
  fst (Git.isGitRepoCalls (w :: later) g) = repeat first (S (List.length later))
  /\ Git._isRepo g' = Some first
  /\ (first = false -> forall w', fst (Git.getChangedFiles w' g') = [])
  /\ (forall path w',
        fst (Git.isGitRepo w' (Git.setProjectPath path g')) = Git.revparseGitDir w').
Proof.
  intros Hnone. cbv zeta.
  set (g1 := Git.mkGitManager (Git.projectPath g) (Some (Git.revparseGitDir w))).
  assert (H1 : Git.isGitRepo w g = (Git.revparseGitDir w, g1))
    by (unfold Git.isGitRepo; now rewrite Hnone).
  assert (Hc : Git._isRepo g1 = Some (Git.revparseGitDir w)) by reflexivity.
  cbn [Git.isGitRepoCalls]. rewrite H1. cbn [fst snd].
  rewrite (@isGitRepoCalls_cached later g1 _ Hc). cbn [fst snd repeat].
  split; [reflexivity|]. split; [exact Hc|]. split; [|reflexivity].
  intros Hf w'. unfold Git.getChangedFiles.
  rewrite (@isGitRepo_cached w' g1 _ Hc). cbn [fst snd]. now rewrite Hf.
Qed.

Lemma dedupe_In (files : list string) (f : string) :
  In f (Git.dedupe files) <-> In f files.
Proof.
  clear minimatch.
  induction files as [|x files IH]; simpl; [tauto|].
  rewrite filter_In, IH. destruct (String.eqb_spec f x); simpl; intuition congruence.
Qed.

Lemma dedupe_NoDup (files : list string) : NoDup (Git.dedupe files).
Proof.
  induction files as [|x files IH]; simpl; constructor.
  - rewrite filter_In, String.eqb_refl. simpl. intros [_ H]. discriminate.
  - now apply NoDup_filter.
Qed.

Lemma dedupe_fixed (files : list string) : NoDup files -> Git.dedupe files = files.
Proof.
  induction 1 as [|x files Hx Hnd IH]; simpl; [reflexivity|].
  rewrite IH. f_equal. clear IH Hnd. induction files as [|y files IH]; simpl; [reflexivity|].
  destruct (String.eqb_spec y x) as [->|Hne]; simpl.
  - exfalso. apply Hx. now left.
  - f_equal. apply IH. intros H. apply Hx. now right.
Qed.

(** X18: [getChangedFiles] lists every changed file once. In a repository
    whose status can be read, the result has no duplicates and holds exactly
    the modified, created and deleted files and the new names of the renamed
    ones; when these are all distinct it is their concatenation in that
    order, and in any case it is not longer than it. Outside a repository,
    or when the status cannot be read, it is empty. *)
Theorem getChangedFiles_lists_once (w : Git.Repo) (g : Git.GitManager) :
  let files := fst (Git.getChangedFiles w g) in
  let isRepo := fst (Git.isGitRepo w g) in
  NoDup files
  /\ (isRepo = false \/ Git.status w = None -> files = [])
  /\ (forall s, isRepo = true -> Git.status w = Some s ->
        let all :=
          (Git.modified s ++ Git.created s ++ Git.deleted s
           ++ map snd (Git.renamed s))%list in
        (forall f, In f files <-> In f all)
        /\ (NoDup all -> files = all)
        /\ (List.length files <= List.length all)%nat
        /\ files = Git.dedupe files).
Proof.
  clear minimatch.
  cbv zeta. unfold Git.getChangedFiles.
  destruct (fst (Git.isGitRepo w g)) eqn:Hr; cbn [negb].
  - destruct (Git.status w) as [s|] eqn:Hs; cbn [fst].
    + split; [apply dedupe_NoDup|]. split; [intros [H|H]; discriminate|].
      intros s' _ Hs'. inversion Hs'; subst s'.
      split; [intros f; apply dedupe_In|]. split; [apply dedupe_fixed|]. split.
      * apply NoDup_incl_length; [apply dedupe_NoDup|]. intros f. apply dedupe_In.
      * symmetry. apply dedupe_fixed, dedupe_NoDup.
    + split; [constructor|]. split; [reflexivity|]. intros s _ H. discriminate.
  - cbn [fst]. split; [constructor|]. split; [reflexivity|]. intros s H. discriminate.
Qed.

(* ----------------------------------------------------------------- *)
(** *** Packets *)

Lemma slice_last_slice_last (A : Type) (n m : nat) (l : list A) :
  (n <= m)%nat -> slice_last n (slice_last m l) = slice_last n l.
Proof.
  intros Hnm. unfold slice_last. rewrite length_skipn, skipn_skipn. f_equal. lia.
Qed.

Lemma orDefault_some (s : string) : orDefault (Some s) "" = s.
Proof. unfold orDefault, truthy. now destruct (String.eqb_spec s ""). Qed.


(** X20: the handoff made after a checkpoint agrees with it. After a
    checkpoint that goes through, [generateHandoff] changes nothing and
    reports state IDLE and verification PENDING; when items remain open it
    names the task and its summary gives the very counts the checkpoint
    returned, and when every item is done it reports no active task; its last
    step is the checkpoint with its summary. *)
Theorem handoff_after_checkpoint
  (e : Env) (summary : string) (cids : list string)
  (st : DriftGuardState) (tid : string) (task : TaskContract) :
  currentState (session st) = EXECUTING ->
  intentFiled (session st) = true ->
  activeTaskId (session st) = Some tid ->
  tid <> "" ->
  JsObject.get (tasks st) tid = Some task ->
  let saved := checkpoint e summary cids st in
  exists result packet,
    outcome saved = Return result
    /\ generateHandoff (after saved) = (Return packet, after saved)
    /\ ho_status packet = IDLE
    /\ verificationStatus packet = "PENDING"
    /\ (if (completedItems result =? totalItems result)%nat
        then ho_taskId packet = "None" /\ planSummary packet = "No active task"
        else ho_taskId packet = tid
             /\ planSummary packet
                = nat_to_string (completedItems result) ++ " of "
                    ++ nat_to_string (totalItems result)
                    ++ " items completed. Goal: " ++ goal task)
    /\ (exists earlier,
          lastSteps packet = (earlier ++ [("[dg_checkpoint] " ++ summary)%string])%list
          /\ (List.length earlier <= 2)%nat).
Proof.
  intros Hs Hi Hact Hne Hget saved.
  destruct (@checkpoint_run e summary cids st tid task Hs Hi Hact Hne Hget)
    as (st' & Hr & Hsess & Htasks & Hlogs & _).
  set (items := markAllDone cids (checklist task)) in *.
  assert (Hall : forallb isDone items = (doneCount items =? List.length items)%nat).
  { unfold doneCount. clear. induction items as [|i items IH]; simpl; [reflexivity|].
    destruct (isDone i); simpl; [exact IH|].
    symmetry. apply Nat.eqb_neq.
    pose proof (filter_length_le isDone items). lia. }
  subst saved. rewrite Hr. unfold outcome, after. cbn [fst snd].
  eexists. eexists. split; [reflexivity|].
  unfold generateHandoff, bind, getState, ret.
  split; [reflexivity|].
  cbn [ho_status verificationStatus ho_taskId planSummary lastSteps completedItems totalItems].
  rewrite Hsess, Hlogs, <- Hall.
  split; [destruct (forallb isDone items); destruct (claims task); reflexivity|].
  split; [destruct (forallb isDone items); destruct (claims task); reflexivity|].
  split.
  - destruct (forallb isDone items) eqn:Ed.
    + destruct (claims task); split; reflexivity.
    + assert (Ha : activeTaskId
                (with_isVerified
                   (with_intentFiled
                      (with_activeStepId
                         (with_currentState
                            match claims task with
                            | Some cs =>
                                with_activeClaims
                                  (with_lastKnownFileHashes (session st)
                                     (Some (JsObject.spread (knownHashes st)
                                              (calculateFileHashes e (map path cs)))))
                                  (activeClaims (session st'))
                            | None => session st
                            end IDLE) None) false) false) = Some tid)
        by (destruct (claims task); exact Hact).
      rewrite Ha. unfold orDefault, truthy.
      destruct (String.eqb_spec tid ""); [contradiction|]. cbn [negb].
      split; [reflexivity|].
      rewrite Htasks.
      destruct (claims task); rewrite get_set_same; reflexivity.
  - rewrite slice_last_slice_last by lia. rewrite slice_last_snoc by lia.
    rewrite map_app. cbn [map action details]. rewrite orDefault_some.
    eexists. split; [reflexivity|]. rewrite length_map. apply slice_last_length.
Qed.

(* ----------------------------------------------------------------- *)
(** *** Claims, baselines and health *)

Lemma In_keys_set (V : Type) (o : JsObject.t V) (k k' : string) (v : V) :
  In k' (JsObject.keys (JsObject.set o k v)) <-> k' = k \/ In k' (JsObject.keys o).
Proof.
  clear minimatch.
  unfold JsObject.keys. induction o as [|[k0 v0] rest IH]; simpl.
  - intuition congruence.
  - destruct (String.eqb_spec k0 k) as [->|Hne]; simpl.
    + intuition congruence.
    + rewrite IH. intuition congruence.
Qed.

Lemma wf_set (V : Type) (o : JsObject.t V) (k : string) (v : V) :
  JsObject.wf o -> JsObject.wf (JsObject.set o k v).
Proof.
  clear minimatch.
  unfold JsObject.wf. induction o as [|[k0 v0] rest IH]; simpl; intros H.
  - constructor; [intros []|constructor].
  - inversion H as [|x l Hx Hl]; subst.
    destruct (String.eqb_spec k0 k) as [->|Hne]; simpl.
    + constructor; assumption.
    + constructor; [|auto]. intros Hin. apply In_keys_set in Hin as [Hin|Hin]; auto.
Qed.

Lemma wf_get_In (V : Type) (o : JsObject.t V) (k : string) (v : V) :
  JsObject.wf o -> In (k, v) o -> JsObject.get o k = Some v.
Proof.
  unfold JsObject.wf. induction o as [|[k0 v0] rest IH]; simpl; intros H Hin; [destruct Hin|].
  inversion H as [|x l Hx Hl]; subst.
  destruct Hin as [Heq|Hin].
  - inversion Heq; subst. now rewrite String.eqb_refl.
  - destruct (String.eqb_spec k0 k) as [->|Hne]; [|auto].
    exfalso. apply Hx. apply in_map_iff. now exists (k, v).
Qed.

Lemma In_spread (V : Type) (a b : JsObject.t V) (k : string) (v : V) :
  In (k, v) (JsObject.spread a b) -> In (k, v) a \/ In (k, v) b.
Proof.
  unfold JsObject.spread. revert a. induction b as [|[k0 v0] b IH]; intros a; simpl; [auto|].
  intros H. apply IH in H as [H|H]; [|auto].
  apply In_set in H as [H|H]; auto.
Qed.

Lemma get_spread (V : Type) (a b : JsObject.t V) (k : string) :
  JsObject.wf b ->
  JsObject.get (JsObject.spread a b) k
  = match JsObject.get b k with
    | Some v => Some v
    | None => JsObject.get a k
    end.
Proof.
  clear minimatch.
  unfold JsObject.spread, JsObject.wf. revert a.
  induction b as [|[k0 v0] b IH]; intros a H; simpl; [reflexivity|].
  inversion H as [|x l Hx Hl]; subst. rewrite IH by assumption.
  destruct (String.eqb_spec k0 k) as [->|Hne].
  - assert (Hn : JsObject.get b k = None) by now apply get_None_not_key.
    rewrite Hn. apply get_set_same.
  - now rewrite get_set_other.
Qed.

Lemma calculateFileHashes_wf (e : Env) (patterns : list string) :
  JsObject.wf (calculateFileHashes e patterns).
Proof.
  clear minimatch.
  assert (H : forall files h, JsObject.wf h ->
            JsObject.wf
              (fold_left
                 (fun hashes file =>
                    match readHash e file with
                    | Some hash => assign hashes file hash
                    | None => hashes
                    end) files h)).
  { induction files as [|f files IH]; intros h Hh; simpl; [assumption|].
    apply IH. destruct (readHash e f); [|assumption]. unfold assign.
    destruct (JsObject.get h f); [now apply wf_set|].
    destruct (String.eqb f "__proto__"); [assumption|now apply wf_set]. }
  unfold calculateFileHashes. destruct patterns; [constructor|].
  apply H. constructor.
Qed.

Lemma flat_map_nil (A B : Type) (f : A -> list B) (l : list A) :
  (forall x, In x l -> f x = []) -> flat_map f l = [].
Proof.
  induction l as [|x l IH]; simpl; intros H; [reflexivity|].
  rewrite (H x) by auto. apply IH. auto.
Qed.

(** Right after the hashes [h] of the files now in scope are merged into the
    cache, none of these files counts as new or modified. *)
Lemma baseline_no_drift (known h : Hashes) :
  JsObject.wf h -> nonEmptyHashes h ->
  flat_map (modifiedOrNew (JsObject.spread known h)) (JsObject.enumerate h) = [].
Proof.
  clear minimatch.
  intros Hwf Hne. apply flat_map_nil. intros [file hash] Hin.
  apply (proj1 (In_enumerate _ _)) in Hin.
  unfold modifiedOrNew, lookup. cbn [fst snd].
  rewrite get_spread by assumption. rewrite (@wf_get_In _ _ _ _ Hwf Hin).
  cbn [falsy differs]. rewrite String.eqb_refl.
  destruct (String.eqb_spec hash ""); [|reflexivity].
  exfalso. eapply Hne; eassumption.
Qed.

(** The files [healthCheck] reports as deleted. *)
Lemma deleted_files (known current : Hashes) (patterns : list string) :
  nonEmptyHashes current ->
  exists gone,
    flat_map (deletedInScope minimatch current patterns) (JsObject.enumerate known)
    = map (fun file => file ++ " (DELETED)") gone
    /\ forall file, In file gone ->
         (exists k, In (file, k) known)
         /\ JsObject.get current file = None
         /\ exists p, In p patterns /\ minimatch file p = true.
Proof.
  intros Hc.
  assert (Hsub : forall x, In x (JsObject.enumerate known) -> In x known)
    by (intros x; apply In_enumerate).
  revert Hsub. generalize (JsObject.enumerate known).
  induction l as [|[file k] l IH]; intros Hsub; simpl.
  - exists []. split; [reflexivity|intros f []].
  - destruct IH as (gone & Heq & Hgone); [intros x Hx; apply Hsub; now right|].
    unfold deletedInScope at 1. cbn [fst].
    rewrite falsy_lookup by assumption.
    destruct (JsObject.get current file) eqn:Hg.
    + exists gone. split; [exact Heq|exact Hgone].
    + destruct (inherited file); cbn [negb].
      * exists gone. split; [exact Heq|exact Hgone].
      * destruct (existsb (fun p => minimatch file p) patterns) eqn:Hex.
        -- exists (file :: gone). split; [simpl; now rewrite Heq|].
           intros f [<-|Hf]; [|now apply Hgone].
           split; [exists k; apply Hsub; now left|]. split; [assumption|].
           apply existsb_exists in Hex. exact Hex.
        -- exists gone. split; [exact Heq|exact Hgone].
Qed.


(** The claims held once the task under [tid] is rewritten, when no other
    task holds any. *)
Lemma held_set_sole (o : Tasks) (tid : string) (v : TaskContract) :
  JsObject.wf o ->
  (exists t0, JsObject.get o tid = Some t0) ->
  (forall k t, In (k, t) o -> k <> tid -> orEmpty (claims t) = []) ->
  heldClaims (JsObject.set o tid v) = orEmpty (claims v).
Proof.
  unfold JsObject.wf, heldClaims, JsObject.values.
  induction o as [|[k0 v0] rest IH]; simpl; intros Hwf [t0 Hget] Hsole; [discriminate|].
  inversion Hwf as [|y l Hy Hl]; subst.
  destruct (String.eqb_spec k0 tid) as [->|Hk0]; simpl.
  - rewrite flat_map_nil; [apply app_nil_r|].
    intros t Ht. apply in_map_iff in Ht as ([k t'] & Heq & Hin). simpl in Heq. subst t'.
    apply (Hsole k t); [now right|].
    intros ->. apply Hy. apply in_map_iff. now exists (tid, t).
  - rewrite (Hsole k0 v0) by auto. simpl. apply IH; eauto.
Qed.


(** X22: a health check made right after a grant. When the task that was
    granted its claims is the only one holding any (in a registry with
    unique keys) and the file system hands out non-empty digests, a health
    check made before any file changes reports no file as new or modified:
    it finds no claims when the task holds none, and otherwise the only
    files it can report are files of the earlier cache that are in scope and
    no longer exist, so on an empty earlier cache the result is CLEAN. *)
Theorem healthCheck_after_grant
  (e : Env) (paths : list string) (x : bool)
  (st : DriftGuardState) (tid : string) (task : TaskContract) :
  activeTaskId (session st) = Some tid ->
  tid <> "" ->
  JsObject.get (tasks st) tid = Some task ->
  JsObject.wf (tasks st) ->
  (forall k t, k <> tid -> JsObject.get (tasks st) k = Some t -> orEmpty (claims t) = []) ->
  digestsNonEmpty e ->
  outcome (claimScope minimatch e paths x st) = Return (mkClaimResult true []) ->
  let st' := after (claimScope minimatch e paths x st) in
  let mine :=
    (orEmpty (claims task) ++ map (fun p => mkScopeClaim p x tid (nowMs e)) paths)%list in
  let current := calculateFileHashes e (map path mine) in
  orEmpty (activeClaims (session st')) = mine
  /\ exists gone,
       outcome (healthCheck minimatch e st')
       = Return (mkHealthResult
                   match mine, gone with
                   | [], _ => NO_CLAIMS
                   | _ :: _, [] => CLEAN
                   | _ :: _, _ :: _ => DIRTY
                   end
                   (map (fun file => file ++ " (DELETED)") gone))
       /\ (forall file, In file gone ->
             (exists k, In (file, k) (knownHashes st))
             /\ JsObject.get current file = None
             /\ exists p, In p (map path mine) /\ minimatch file p = true)
       /\ (knownHashes st = [] -> gone = []).
Proof.
  intros Hact Hne Hget Hwf Hsole He Hgranted st' mine current.
  pose proof (@claimScope_run e paths x st tid task Hact Hne Hget) as Hrun.
  cbv zeta in Hrun.
  destruct (conflictsFound _ paths) as [|c0 found] eqn:Hfound.
  2:{ rewrite Hrun in Hgranted. discriminate Hgranted. }
  assert (Hst' : st' = snd (claimScope minimatch e paths x st)) by reflexivity.
  rewrite Hrun in Hst'. cbn [snd] in Hst'. clear Hrun Hgranted.
  fold mine in Hst'. fold current in Hst'.
  set (tasks1 := tasks (withClaimsArray st tid task)) in *.
  assert (Hwf1 : JsObject.wf tasks1).
  { subst tasks1. unfold withClaimsArray. destruct (claims task); [assumption|].
    cbn [tasks with_tasks]. now apply wf_set. }
  assert (Hget1 : JsObject.get tasks1 tid
                  = Some (with_claims task (Some (orEmpty (claims task)))))
    by (subst tasks1; now apply withClaimsArray_get).
  assert (Hother : forall k, k <> tid -> JsObject.get tasks1 k = JsObject.get (tasks st) k).
  { intros k Hk. subst tasks1. apply withClaimsArray_get_other. congruence. }
  assert (Hmine : heldClaims (JsObject.set tasks1 tid (with_claims task (Some mine))) = mine).
  { apply (@held_set_sole tasks1 tid (with_claims task (Some mine))); [assumption|eauto|].
    intros k t Hin Hk. apply (Hsole k t Hk). rewrite <- (Hother k Hk).
    now apply wf_get_In. }
  assert (Hactive : orEmpty (activeClaims (session st')) = mine).
  { rewrite Hst'. cbn [session activeClaims with_lastKnownFileHashes with_activeClaims orEmpty].
    exact Hmine. }
  split; [exact Hactive|].
  assert (Hc : nonEmptyHashes current) by now apply calculateFileHashes_nonEmpty.
  destruct (@deleted_files (JsObject.spread (knownHashes st) current) current
              (map path mine) Hc) as (gone & Hgone & Hprops).
  assert (Hfrom : forall file, In file gone ->
            (exists k, In (file, k) (knownHashes st))
            /\ JsObject.get current file = None
            /\ exists p, In p (map path mine) /\ minimatch file p = true).
  { intros file Hf. destruct (Hprops file Hf) as ((k & Hk) & Hnone & Hp).
    split; [|auto]. apply In_spread in Hk as [Hk|Hk]; [eauto|].
    pose proof (@wf_get_In _ _ _ _ (calculateFileHashes_wf e (map path mine)) Hk) as Hx.
    fold current in Hx. congruence. }
  exists (match mine with [] => [] | _ :: _ => gone end).
  split; [|split].
  - unfold healthCheck, bind, getState, outcome. rewrite Hactive.
    destruct mine as [|m rest] eqn:Em; [reflexivity|].
    cbn [List.length Nat.eqb]. fold current.
    assert (Hknown : match lastKnownFileHashes (session st') with
                     | Some h => h
                     | None => JsObject.empty
                     end = JsObject.spread (knownHashes st) current).
    { rewrite Hst'. reflexivity. }
    rewrite Hknown, baseline_no_drift, Hgone by
      (assumption || apply calculateFileHashes_wf).
    cbn [app]. destruct gone; reflexivity.
  - destruct mine; [intros f []|exact Hfrom].
  - intros Hempty. destruct mine; [reflexivity|].
    destruct gone as [|f gone]; [reflexivity|].
    destruct (Hfrom f (or_introl eq_refl)) as ((k & Hk) & _). rewrite Hempty in Hk.
    destruct Hk.
Qed.

(* ----------------------------------------------------------------- *)
(** *** Laws of the scope manager *)

Lemma validateDelegation_app (parentScope a b : list string) :
  validateDelegation minimatch parentScope (a ++ b)
  = validateDelegation minimatch parentScope a && validateDelegation minimatch parentScope b.
Proof.
  induction a as [|x a IH]; simpl; [reflexivity|].
  destruct (covered minimatch x parentScope); [exact IH|reflexivity].
Qed.

(** X23: who blocks whom. Between two tasks neither of which is the other's
    parent, blocking is symmetric: a claim of the one blocks a request of the
    other exactly when the claim the request would create blocks the
    request that led to the first claim, [checkOverlap] being symmetric and
    reflexive. Between a parent and its child it is not: the child's request
    passes the parent's overlapping claim, while the parent's request is
    blocked by the child's. *)
Theorem blocking_is_symmetric
  (tasks : Tasks) (a b p q : string) (xa xb : bool) (ta tb : Z) :
  a <> b ->
  let claimA := mkScopeClaim p xa a ta in
  let claimB := mkScopeClaim q xb b tb in
  checkOverlap minimatch p q = checkOverlap minimatch q p
  /\ checkOverlap minimatch p p = true
  /\ (ownedByParent a tasks claimB = false -> ownedByParent b tasks claimA = false ->
      (checkConflict minimatch q b [claimA] tasks = Some claimA
       <-> checkConflict minimatch p a [claimB] tasks = Some claimB)
      /\ (checkConflict minimatch q b [claimA] tasks = None
          <-> checkConflict minimatch p a [claimB] tasks = None))
  /\ (ownedByParent b tasks claimA = true -> ownedByParent a tasks claimB = false ->
      checkOverlap minimatch p q = true ->
      checkConflict minimatch q b [claimA] tasks = None
      /\ checkConflict minimatch p a [claimB] tasks = Some claimB).
Proof.
  intros Hab claimA claimB.
  assert (Hra : ownedByRequestor b claimA = false)
    by (unfold ownedByRequestor; simpl; now apply String.eqb_neq).
  assert (Hrb : ownedByRequestor a claimB = false)
    by (unfold ownedByRequestor; simpl; apply String.eqb_neq; congruence).
  split; [apply checkOverlap_sym|].
  split; [apply checkOverlap_true; now left|].
  split.
  - intros Hpa Hpb. cbn [checkConflict]. rewrite Hra, Hrb, Hpa, Hpb.
    subst claimA claimB. cbn [path exclusive]. rewrite (checkOverlap_sym q p).
    destruct (checkOverlap minimatch p q); destruct xa, xb;
      split; split; intros H; (reflexivity || discriminate H).
  - intros Hpb Hpa Ho. cbn [checkConflict]. rewrite Hra, Hrb, Hpa, Hpb.
    subst claimA claimB. cbn [path exclusive]. rewrite Ho. now destruct xb.
Qed.

(** X24: laws of [validateDelegation]. An empty child scope is always
    contained, and a non-empty one never is in an empty parent scope; a child
    scope made of parent patterns is contained; containment is kept when the
    parent scope grows, and a concatenation is contained exactly when both
    parts are. So a task can always delegate any of its own claim patterns:
    [delegateTask] does not throw the delegation error for them. *)
Theorem validateDelegation_laws (parentScope : list string) :
  validateDelegation minimatch parentScope [] = true
  /\ (forall childScope,
        childScope <> [] -> validateDelegation minimatch [] childScope = false)
  /\ (forall childScope,
        incl childScope parentScope ->
        validateDelegation minimatch parentScope childScope = true)
  /\ (forall wider childScope,
        incl parentScope wider ->
        validateDelegation minimatch parentScope childScope = true ->
        validateDelegation minimatch wider childScope = true)
  /\ (forall a b,
        validateDelegation minimatch parentScope (a ++ b)
        = validateDelegation minimatch parentScope a
          && validateDelegation minimatch parentScope b)
  /\ (forall e title goal subScope st pid parent,
        currentState (session st) = EXECUTING ->
        activeTaskId (session st) = Some pid ->
        JsObject.get (tasks st) pid = Some parent ->
        incl subScope (map path (orEmpty (claims parent))) ->
        exists sub,
          outcome (delegateTask minimatch e title goal subScope st) = Return sub
          /\ allowedScopes sub = subScope /\ parentTaskId sub = Some pid).
Proof.
  split; [reflexivity|]. split; [|split; [|split; [|split]]].
  - intros [|x c] H; [congruence|reflexivity].
  - intros c Hincl. apply validateDelegation_true. apply Forall_forall.
    intros x Hx. apply Exists_exists. exists x. split; [apply Hincl, Hx|now left].
  - intros wider c Hincl H. apply validateDelegation_true.
    apply validateDelegation_true in H. unfold contained in *.
    eapply Forall_impl; [|exact H]. cbv beta. intros x Hx.
    apply Exists_exists in Hx as (y & Hy & Hxy). apply Exists_exists. eauto.
  - apply validateDelegation_app.
  - intros e title goal subScope st pid parent Hs Hact Hget Hincl.
    rewrite (@delegateTask_run e title goal subScope st pid parent Hs Hact Hget).
    cbv zeta.
    assert (Hv : validateDelegation minimatch (map path (orEmpty (claims parent))) subScope
                 = true).
    { apply validateDelegation_true. apply Forall_forall.
      intros x Hx. apply Exists_exists. exists x. split; [apply Hincl, Hx|now left]. }
    rewrite Hv. cbn [negb andb]. eexists. split; [reflexivity|]. split; reflexivity.
Qed.

(** X25: [explainChange] echoes the intent that was filed. After a
    [reportIntent] that goes through, [explainChange] returns; the intent it
    reports is the one filed, or the placeholder when the empty string was
    filed; it says that no files changed exactly when git lists none, and
    otherwise it counts them all; and the only part of the state it changes
    is the log. *)
Theorem explainChange_echoes_intent
  (e e' : Env) (intent : string) (files : list string)
  (st : DriftGuardState) (tid : string) (task : TaskContract) :
  In (currentState (session st)) [PLANNING; IDLE] ->
  activeTaskId (session st) = Some tid ->
  tid <> "" ->
  JsObject.get (tasks st) tid = Some task ->
  let filed := after (reportIntent e intent files st) in
  exists result,
    outcome (explainChange e' filed) = Return result
    /\ er_intent result = (if String.eqb intent "" then "No intent was declared" else intent)
    /\ diffSummary result = getDiffStat e'
    /\ (changes result = "No files changed" <-> getChangedFiles e' = [])
    /\ (getChangedFiles e' <> [] ->
        exists listed,
          changes result
          = "Modified " ++ nat_to_string (List.length (getChangedFiles e')) ++ " file(s): "
              ++ listed)
    /\ session (after (explainChange e' filed)) = session filed
    /\ tasks (after (explainChange e' filed)) = tasks filed.
Proof.
  intros Hin Hact Hne Hget filed.
  pose proof (@reportIntent_run e intent files st tid task Hin Hact Hne Hget) as Hrun.
  assert (Hfiled : filed = snd (reportIntent e intent files st)) by reflexivity.
  rewrite Hrun in Hfiled. cbn [snd] in Hfiled.
  assert (Hreq : requireActiveTask filed
                 = (Return (tid, with_updatedAt (with_intent task intent files) (now e)),
                    filed)).
  { unfold requireActiveTask, bind, getState. rewrite Hfiled.
    cbn [session activeTaskId with_intentFiled with_currentState with_activeStepId tasks].
    rewrite Hact. destruct (String.eqb_spec tid ""); [contradiction|].
    now rewrite get_set_same. }
  assert (Hex : currentState (session filed) = EXECUTING) by (rewrite Hfiled; reflexivity).
  assert (Hx : exists result entries,
            explainChange e' filed = (Return result, with_logs filed entries)
            /\ er_intent result
               = (if String.eqb intent "" then "No intent was declared" else intent)
            /\ diffSummary result = getDiffStat e'
            /\ (changes result = "No files changed" <-> getChangedFiles e' = [])
            /\ (getChangedFiles e' <> [] ->
                exists listed,
                  changes result
                  = "Modified " ++ nat_to_string (List.length (getChangedFiles e'))
                      ++ " file(s): " ++ listed)).
  { unfold explainChange. unfold bind at 1. rewrite validateTransition_run, Hex.
    cbn [existsb FocusState_eqb orb].
    unfold bind at 1. rewrite Hreq. cbn [fst snd].
    unfold bind at 1. rewrite log_run. unfold ret.
    eexists. eexists. split; [reflexivity|].
    cbn [er_intent diffSummary changes lastIntent with_updatedAt with_intent].
    split; [unfold orDefault, truthy; now destruct (String.eqb intent "")|].
    split; [reflexivity|].
    destruct (getChangedFiles e') as [|f fs] eqn:Ef.
    - split; [split; reflexivity|]. intros H. congruence.
    - split; [split; intros H; [|discriminate H]|].
      + cbn [List.length Nat.ltb Nat.leb] in H. simpl in H. discriminate H.
      + intros _. cbn [List.length Nat.ltb Nat.leb]. eexists. reflexivity. }
  destruct Hx as (result & entries & Hx & H1 & H2 & H3 & H4).
  rewrite Hx. unfold outcome, after. cbn [fst snd].
  exists result. repeat split; try assumption; apply H3.
Qed.

(* ----------------------------------------------------------------- *)
(** *** Completing a checklist *)

Lemma existsb_eqb_In (x : string) (l : list string) :
  existsb (String.eqb x) l = true <-> In x l.
Proof.
  clear minimatch. rewrite existsb_exists. split.
  - intros (y & Hy & E). apply String.eqb_eq in E. now subst.
  - intros H. exists x. split; [assumption|apply String.eqb_refl].
Qed.

Lemma marked_nil (seen : list string) (items : list ChecklistItem) :
  marked seen [] items = map isDone items.
Proof.
  revert seen. induction items as [|i items IH]; intros seen; simpl; [reflexivity|].
  now rewrite orb_false_r, IH.
Qed.

Lemma marked_seen (seen cids : list string) (c : string) (items : list ChecklistItem) :
  In c seen -> marked seen (c :: cids) items = marked seen cids items.
Proof.
  revert seen. induction items as [|i items IH]; intros seen Hc; simpl; [reflexivity|].
  rewrite IH by now right. f_equal.
  destruct (String.eqb_spec (id i) c) as [E|E]; [|reflexivity].
  assert (Hs : existsb (String.eqb (id i)) seen = true)
    by (apply existsb_eqb_In; now rewrite E).
  rewrite Hs. simpl. now rewrite !andb_false_r.
Qed.

Lemma marked_markDone (seen cids : list string) (c : string) (items : list ChecklistItem) :
  ~ In c seen -> marked seen cids (markDone c items) = marked seen (c :: cids) items.
Proof.
  revert seen. induction items as [|i items IH]; intros seen Hc; simpl; [reflexivity|].
  destruct (String.eqb_spec (id i) c) as [E|E]; simpl.
  - rewrite marked_seen by (left; exact E).
    f_equal. change (isDone (with_status i done)) with true.
    assert (Hs : existsb (String.eqb (id i)) seen = false).
    { destruct (existsb (String.eqb (id i)) seen) eqn:Hs; [|reflexivity].
      apply existsb_eqb_In in Hs. rewrite E in Hs. contradiction. }
    rewrite Hs. simpl. now rewrite orb_true_r.
  - rewrite IH; [reflexivity|]. intros [H|H]; auto.
Qed.

Lemma marked_markAllDone (cids : list string) (items : list ChecklistItem) :
  map isDone (markAllDone cids items) = marked [] cids items.
Proof.
  unfold markAllDone. revert items.
  induction cids as [|c cids IH]; intros items; simpl.
  - symmetry. apply marked_nil.
  - rewrite IH. apply marked_markDone. intros [].
Qed.

Lemma forallb_isDone (items : list ChecklistItem) :
  forallb isDone items = forallb (fun b => b) (map isDone items).
Proof. induction items as [|i items IH]; simpl; [reflexivity|now rewrite IH]. Qed.

Lemma marked_distinct (seen cids : list string) (items : list ChecklistItem) :
  NoDup (map id items) ->
  (forall i, In i items -> ~ In (id i) seen) ->
  (forallb (fun b => b) (marked seen cids items) = true
   <-> forall i, In i items -> isDone i = true \/ In (id i) cids).
Proof.
  revert seen. induction items as [|i items IH]; intros seen Hnd Hseen; simpl.
  - split; [intros _ i []|reflexivity].
  - inversion Hnd as [|x l Hx Hl]; subst.
    assert (Hs : existsb (String.eqb (id i)) seen = false).
    { destruct (existsb (String.eqb (id i)) seen) eqn:Hs; [|reflexivity].
      apply existsb_eqb_In in Hs. exfalso. apply (Hseen i); [now left|assumption]. }
    rewrite Hs, andb_true_r, andb_true_iff, orb_true_iff, existsb_eqb_In.
    rewrite (IH (id i :: seen) Hl).
    + split.
      * intros [Hi Hrest] j [<-|Hj]; auto.
      * intros H. split; [apply H; now left|]. intros j Hj. apply H. now right.
    + intros j Hj [E|Hin].
      * apply Hx. rewrite E. now apply in_map.
      * apply (Hseen j); [now right|assumption].
Qed.

Lemma marked_duplicate (seen cids : list string) (items : list ChecklistItem) (n : nat)
  (i : ChecklistItem) :
  nth_error items n = Some i ->
  isDone i = false ->
  In (id i) seen
  \/ (exists m j, (m < n)%nat /\ nth_error items m = Some j /\ id j = id i) ->
  nth_error (marked seen cids items) n = Some false.
Proof.
  revert n seen. induction items as [|h items IH]; intros [|n] seen Hn Hd Hdup;
    simpl in *; try discriminate.
  - inversion Hn; subst h. rewrite Hd.
    assert (Hs : existsb (String.eqb (id i)) seen = true).
    { apply existsb_eqb_In. destruct Hdup as [H|(m & j & Hm & _)]; [assumption|lia]. }
    rewrite Hs. simpl. now rewrite andb_false_r.
  - apply IH; [assumption|assumption|].
    destruct Hdup as [H|(m & j & Hm & Hj & E)]; [left; now right|].
    destruct m as [|m]; simpl in Hj.
    + inversion Hj; subst j. left. now left.
    + right. exists m, j. split; [lia|]. auto.
Qed.

Lemma forallb_nth_false (l : list bool) (n : nat) :
  nth_error l n = Some false -> forallb (fun b => b) l = false.
Proof.
  revert n. induction l as [|b l IH]; intros [|n] H; simpl in *; try discriminate.
  - inversion H. reflexivity.
  - rewrite (IH n H). apply andb_false_r.
Qed.

(** X26: when a checklist is complete. After the marking of [checkpoint],
    an item is done exactly when it was done before or its id is among the
    completed ids and no earlier item carries the same id. So with distinct
    ids the checklist is complete as soon as every open item is named, while
    an open item that shares its id with an earlier item is never marked:
    such a checklist is never complete, whatever ids are passed. *)
Theorem checklist_completion (cids : list string) (items : list ChecklistItem) :
  map isDone (markAllDone cids items) = marked [] cids items
  /\ (NoDup (map id items) ->
      (forallb isDone (markAllDone cids items) = true
       <-> forall i, In i items -> isDone i = true \/ In (id i) cids))
  /\ (forall n m i j,
        (m < n)%nat -> nth_error items m = Some j -> nth_error items n = Some i ->
        id j = id i -> isDone i = false ->
        forallb isDone (markAllDone cids items) = false).
Proof.
  split; [apply marked_markAllDone|]. split.
  - intros Hnd. rewrite forallb_isDone, marked_markAllDone.
    apply marked_distinct; [assumption|]. intros i _ [].
  - intros n m i j Hm Hj Hi E Hd. rewrite forallb_isDone, marked_markAllDone.
    apply forallb_nth_false with (n := n).
    apply marked_duplicate with (i := i); [assumption|assumption|]. right. eauto.
Qed.

(* ----------------------------------------------------------------- *)
(** *** Reading what git prints *)

Lemma app_String (a b d : string) (c : ascii) :
  (a ++ String c b) ++ d = a ++ String c (b ++ d).
Proof.
  clear minimatch. induction a as [|x a IH]; simpl; [reflexivity|now rewrite IH].
Qed.

Lemma split_none (sep : ascii) (s : string) :
  (forall c, In c (list_ascii_of_string s) -> Ascii.eqb c sep = false) ->
  Git.split sep s = [s].
Proof.
  clear minimatch. induction s as [|c s IH]; intros H; simpl; [reflexivity|].
  rewrite (H c) by now left.
  rewrite IH; [reflexivity|]. intros d Hd. apply H. now right.
Qed.

Lemma split_at (sep : ascii) (s rest : string) :
  (forall c, In c (list_ascii_of_string s) -> Ascii.eqb c sep = false) ->
  Git.split sep (s ++ String sep rest) = s :: Git.split sep rest.
Proof.
  clear minimatch. induction s as [|c s IH]; intros H; simpl.
  - now rewrite Ascii.eqb_refl.
  - rewrite (H c) by now left.
    rewrite IH; [reflexivity|]. intros d Hd. apply H. now right.
Qed.

Lemma space1_ascii (a : nat) : Git.space1 a = true -> (a < 128)%nat.
Proof.
  clear minimatch. unfold Git.space1. intros H.
  apply orb_true_iff in H as [H|H].
  - apply andb_true_iff in H as [_ H]. apply Nat.leb_le in H. lia.
  - apply Nat.eqb_eq in H. lia.
Qed.

Lemma space2_continues (a b : nat) : Git.space2 a b = true -> (128 <= b)%nat.
Proof.
  clear minimatch. unfold Git.space2. intros H.
  apply andb_true_iff in H as [_ H]. apply Nat.eqb_eq in H. lia.
Qed.

Lemma space3_continues (a b c : nat) :
  Git.space3 a b c = true -> (128 <= b)%nat /\ (128 <= c)%nat.
Proof.
  clear minimatch. unfold Git.space3. intros H.
  repeat match type of H with
         | (_ || _) = true => apply orb_true_iff in H as [H|H]
         end;
    repeat match goal with
           | H : (_ && _) = true |- _ => apply andb_true_iff in H as [? ?]
           | H : (_ || _) = true |- _ => apply orb_true_iff in H as [H|H]
           | H : (_ =? _)%nat = true |- _ => apply Nat.eqb_eq in H
           | H : (_ <=? _)%nat = true |- _ => apply Nat.leb_le in H
           end; lia.
Qed.

Lemma spaceBytes_continues (c : ascii) (rest : string) (k : nat) :
  Git.spaceBytes (String c rest) = S k -> Git.continues k rest.
Proof.
  clear minimatch. unfold Git.spaceBytes.
  destruct (Git.space1 (nat_of_ascii c)); [intros H; inversion H; exact I|].
  destruct rest as [|b rest]; [discriminate|].
  destruct (Git.space2 (nat_of_ascii c) (nat_of_ascii b)) eqn:E2.
  - intros H. inversion H. simpl. split; [|exact I]. eapply space2_continues; eassumption.
  - destruct rest as [|d rest]; [discriminate|].
    destruct (Git.space3 (nat_of_ascii c) (nat_of_ascii b) (nat_of_ascii d)) eqn:E3;
      [|discriminate].
    intros H. inversion H. apply space3_continues in E3 as [Hb Hd].
    simpl. auto.
Qed.

(** What follows a word does not make its start white space, when it starts
    with an ASCII byte. *)
Lemma spaceBytes_app (w rest : string) (c : ascii) :
  w <> "" -> (nat_of_ascii c < 128)%nat ->
  Git.spaceBytes w = 0%nat -> Git.spaceBytes (w ++ String c rest) = 0%nat.
Proof.
  clear minimatch. intros Hw Hc.
  destruct w as [|a w]; [congruence|]. unfold Git.spaceBytes. cbn [append].
  destruct (Git.space1 (nat_of_ascii a)); [discriminate|].
  destruct w as [|b w]; cbn [append].
  - intros _.
    destruct (Git.space2 (nat_of_ascii a) (nat_of_ascii c)) eqn:E2.
    + apply space2_continues in E2. lia.
    + destruct rest as [|d rest]; [reflexivity|].
      destruct (Git.space3 _ _ _) eqn:E3; [|reflexivity].
      apply space3_continues in E3. lia.
  - destruct (Git.space2 (nat_of_ascii a) (nat_of_ascii b)); [discriminate|].
    destruct w as [|d w]; cbn [append].
    + intros _. destruct (Git.space3 _ _ _) eqn:E3; [|reflexivity].
      apply space3_continues in E3. lia.
    + intros H. exact H.
Qed.

Lemma noSpace_chars (s : string) (c : ascii) :
  Git.noSpace s = true -> In c (list_ascii_of_string s) ->
  Git.space1 (nat_of_ascii c) = false.
Proof.
  clear minimatch. induction s as [|d s IH]; intros H Hin; [destruct Hin|].
  cbn [Git.noSpace] in H. apply andb_true_iff in H as [Hd Hs].
  destruct Hin as [<-|Hin]; [|auto].
  apply Nat.eqb_eq in Hd. unfold Git.spaceBytes in Hd.
  destruct (Git.space1 (nat_of_ascii d)); [discriminate|reflexivity].
Qed.

Lemma noNewline_chars (s : string) (c : ascii) :
  Git.noNewline s = true -> In c (list_ascii_of_string s) ->
  Ascii.eqb c Git.newline = false.
Proof.
  clear minimatch. induction s as [|d s IH]; simpl; intros H Hin; [destruct Hin|].
  apply andb_true_iff in H as [Hd Hs]. destruct Hin as [<-|Hin]; [|auto].
  now apply negb_true_iff in Hd.
Qed.

Lemma space1_not (c sep : ascii) :
  Git.space1 (nat_of_ascii sep) = true -> Git.space1 (nat_of_ascii c) = false ->
  Ascii.eqb c sep = false.
Proof.
  clear minimatch. intros Hs Hc. destruct (Ascii.eqb_spec c sep) as [->|]; congruence.
Qed.

(** Text that starts with an ASCII byte and is not blank keeps whatever is
    put before it from being blank. *)
Lemma trimStartFrom_anchor (b : string) (c : ascii) (rest : string) :
  b = String c rest -> (nat_of_ascii c < 128)%nat -> Git.trimStart b <> "" ->
  forall y skip, Git.continues skip (y ++ b) -> Git.trimStartFrom skip (y ++ b) <> "".
Proof.
  clear minimatch. intros Hb Hc Hnb. induction y as [|d y IH]; intros skip Hk.
  - cbn [append] in *. destruct skip as [|k]; [exact Hnb|].
    rewrite Hb in Hk. simpl in Hk. lia.
  - cbn [append] in *. cbn [Git.trimStartFrom].
    destruct skip as [|k].
    + destruct (Git.spaceBytes (String d (y ++ b))) as [|k] eqn:E; [discriminate|].
      apply IH. eapply spaceBytes_continues. exact E.
    + apply IH. simpl in Hk. tauto.
Qed.

Lemma blank_anchor (y b : string) (c : ascii) (rest : string) :
  b = String c rest -> (nat_of_ascii c < 128)%nat -> Git.blank b = false ->
  Git.blank (y ++ b) = false.
Proof.
  clear minimatch. intros Hb Hc Hnb. unfold Git.blank in *.
  apply String.eqb_neq. apply String.eqb_neq in Hnb.
  apply (@trimStartFrom_anchor b c rest Hb Hc Hnb y 0%nat). exact I.
Qed.

Lemma trimEnd_app (a b : string) (c : ascii) (rest : string) :
  b = String c rest -> (nat_of_ascii c < 128)%nat -> Git.blank b = false ->
  Git.trimEnd (a ++ b) = a ++ Git.trimEnd b.
Proof.
  clear minimatch. intros Hb Hc Hnb. induction a as [|d a IH]; [reflexivity|].
  cbn [append Git.trimEnd].
  change (String d (a ++ b)) with (String d a ++ b).
  rewrite (@blank_anchor (String d a) b c rest Hb Hc Hnb). cbn [append]. now rewrite IH.
Qed.

Lemma blank_word (w rest : string) (c : ascii) :
  w <> "" -> (nat_of_ascii c < 128)%nat -> Git.spaceBytes w = 0%nat ->
  Git.blank (w ++ String c rest) = false.
Proof.
  clear minimatch. intros Hw Hc H0. unfold Git.blank, Git.trimStart.
  pose proof (@spaceBytes_app w rest c Hw Hc H0) as H.
  destruct w as [|a w]; [congruence|]. cbn [append] in *.
  cbn [Git.trimStartFrom]. rewrite H. reflexivity.
Qed.

(** [trimEnd] takes the line feed off a word. *)
Lemma trimEnd_word (w : string) :
  Git.noSpace w = true -> Git.trimEnd (w ++ String Git.newline "") = w.
Proof.
  clear minimatch. induction w as [|a w IH]; intros H; [reflexivity|].
  cbn [Git.noSpace] in H. apply andb_true_iff in H as [Ha Hw].
  apply Nat.eqb_eq in Ha.
  cbn [append Git.trimEnd].
  change (String a (w ++ String Git.newline "")) with (String a w ++ String Git.newline "").
  rewrite blank_word; [|discriminate|apply Nat.ltb_lt; reflexivity|exact Ha].
  cbn [append]. now rewrite IH.
Qed.

Lemma printed_snoc (init : list string) (last : string) :
  Git.printed (init ++ [last]) = Git.printed init ++ last ++ String Git.newline "".
Proof.
  clear minimatch. induction init as [|l init IH]; simpl; [reflexivity|].
  now rewrite IH, app_String.
Qed.

Lemma join_snoc (init : list string) (last : string) :
  join (String Git.newline "") (init ++ [last]) = Git.printed init ++ last.
Proof.
  clear minimatch. induction init as [|l init IH]; [reflexivity|].
  change (Git.printed (l :: init) ++ last)
    with ((l ++ String Git.newline (Git.printed init)) ++ last).
  rewrite app_String, <- IH.
  destruct init; reflexivity.
Qed.

(** [trim] takes the last line feed off what git printed: lines that each
    start with a word, the last one ending with a space and a word. *)
Lemma trim_printed (init : list string) (before word : string) :
  (forall l, In l (init ++ [before ++ String Git.space word]) ->
     exists w rest, l = w ++ String Git.space rest /\ Git.isWord w = true) ->
  Git.isWord word = true ->
  Git.trim (Git.printed (init ++ [before ++ String Git.space word]))
  = join (String Git.newline "") (init ++ [before ++ String Git.space word]).
Proof.
  clear minimatch. intros Hfirst Hword.
  apply andb_true_iff in Hword as [Hne Hns].
  assert (Hword0 : word <> "") by (destruct word; [discriminate|discriminate]).
  assert (Hsp : (nat_of_ascii Git.space < 128)%nat) by (apply Nat.ltb_lt; reflexivity).
  assert (Hnl : (nat_of_ascii Git.newline < 128)%nat) by (apply Nat.ltb_lt; reflexivity).
  assert (Hstart : Git.trimStart (Git.printed (init ++ [before ++ String Git.space word]))
                   = Git.printed (init ++ [before ++ String Git.space word])).
  { destruct (init ++ [(before ++ String Git.space word)%string])%list as [|l ls] eqn:E.
    - destruct init; discriminate.
    - destruct (Hfirst l (or_introl eq_refl)) as (w & rest & -> & Hw).
      apply andb_true_iff in Hw as [Hw0 Hw1].
      assert (Hw2 : w <> "") by (destruct w; [discriminate|discriminate]).
      cbn [Git.printed]. rewrite app_String.
      destruct w as [|a w]; [congruence|].
      cbn [Git.noSpace] in Hw1. apply andb_true_iff in Hw1 as [Hw1 _].
      apply Nat.eqb_eq in Hw1.
      pose proof (@spaceBytes_app (String a w)
                    (rest ++ String Git.newline (Git.printed ls)) Git.space Hw2 Hsp Hw1) as H.
      unfold Git.trimStart. cbn [append] in *. cbn [Git.trimStartFrom]. now rewrite H. }
  unfold Git.trim. rewrite Hstart, printed_snoc, join_snoc.
  assert (Hw : Git.spaceBytes word = 0%nat).
  { destruct word as [|a w]; [congruence|]. cbn [Git.noSpace] in Hns.
    apply andb_true_iff in Hns as [H _]. now apply Nat.eqb_eq in H. }
  assert (Htail : Git.blank (String Git.space (word ++ String Git.newline "")) = false).
  { unfold Git.blank, Git.trimStart. cbn [Git.trimStartFrom].
    replace (Git.spaceBytes (String Git.space (word ++ String Git.newline ""))) with 1%nat
      by reflexivity.
    exact (@blank_word word "" Git.newline Hword0 Hnl Hw). }
  rewrite app_String, <- (str_app_assoc (Git.printed init) before _).
  rewrite (@trimEnd_app (Git.printed init ++ before) _ Git.space
             (word ++ String Git.newline "") eq_refl Hsp Htail).
  cbn [Git.trimEnd]. rewrite Htail. rewrite trimEnd_word by assumption.
  now rewrite str_app_assoc.
Qed.

Lemma split_join (lines : list string) :
  lines <> [] ->
  (forall l, In l lines -> Git.noNewline l = true) ->
  Git.split Git.newline (join (String Git.newline "") lines) = lines.
Proof.
  clear minimatch. induction lines as [|l lines IH]; intros Hne Hl; [congruence|].
  assert (Hchars : forall c, In c (list_ascii_of_string l) ->
                     Ascii.eqb c Git.newline = false).
  { intros c. apply noNewline_chars. apply Hl. now left. }
  destruct lines as [|l2 lines].
  - simpl. now apply split_none.
  - change (join (String Git.newline "") (l :: l2 :: lines))
      with (l ++ String Git.newline (join (String Git.newline "") (l2 :: lines))).
    rewrite split_at by assumption. f_equal.
    apply IH; [discriminate|]. intros x Hx. apply Hl. now right.
Qed.

Lemma split_printed (lines : list string) :
  (forall l, In l lines -> Git.noNewline l = true) ->
  Git.split Git.newline (Git.printed lines) = (lines ++ [""])%list.
Proof.
  clear minimatch. induction lines as [|l lines IH]; intros Hl; [reflexivity|].
  simpl Git.printed. rewrite split_at.
  - simpl. f_equal. apply IH. intros x Hx. apply Hl. now right.
  - intros c. apply noNewline_chars. apply Hl. now left.
Qed.

Lemma noSpace_noNewline (s : string) : Git.noSpace s = true -> Git.noNewline s = true.
Proof.
  clear minimatch. induction s as [|c s IH]; intros H; [reflexivity|].
  pose proof (@noSpace_chars (String c s) c H (or_introl eq_refl)) as Hc.
  cbn [Git.noSpace] in H. apply andb_true_iff in H as [_ Hs].
  cbn [Git.noNewline]. rewrite (IH Hs), andb_true_r.
  apply negb_true_iff. now apply space1_not.
Qed.

Lemma noNewline_app (a b : string) :
  Git.noNewline (a ++ b) = Git.noNewline a && Git.noNewline b.
Proof.
  clear minimatch. induction a as [|c a IH]; simpl; [reflexivity|].
  now rewrite IH, andb_assoc.
Qed.

Lemma commitOf_noteLine (note commit : string) :
  Git.noSpace note = true -> Git.isWord commit = true ->
  Git.commitOf (Git.noteLine (note, commit)) = commit.
Proof.
  clear minimatch. intros Hn Hc. apply andb_true_iff in Hc as [Hne Hns].
  unfold Git.commitOf, Git.noteLine. cbn [fst snd].
  rewrite split_at.
  - rewrite split_none.
    + apply negb_true_iff in Hne. now rewrite Hne.
    + intros c Hin. apply space1_not; [reflexivity|].
      exact (@noSpace_chars commit c Hns Hin).
  - intros c Hin. apply space1_not; [reflexivity|].
    exact (@noSpace_chars note c Hn Hin).
Qed.

Lemma filter_all (A : Type) (f : A -> bool) (l : list A) :
  (forall x, In x l -> f x = true) -> filter f l = l.
Proof.
  clear minimatch. induction l as [|x l IH]; simpl; intros H; [reflexivity|].
  rewrite (H x) by now left. f_equal. apply IH. intros y Hy. apply H. now right.
Qed.

(** X27: [listNotedCommits] reads back the list git prints. In a
    repository, when [git notes list] prints one line per note, the note
    object, a space and the commit, both non-empty and free of white space,
    the result is the commits, in order (none for an empty list). A line
    with no space is returned whole, and of a line with two spaces after its
    first word that first word is returned. Outside a repository, or when git
    fails, the result is empty. *)
Theorem listNotedCommits_reads_list (w : Git.Repo) (g : Git.GitManager) :
  (forall entries,
     fst (Git.isGitRepo w g) = true ->
     Git.notesList w = Some (Git.printed (map Git.noteLine entries)) ->
     (forall entry, In entry entries ->
        Git.isWord (fst entry) = true /\ Git.isWord (snd entry) = true) ->
     fst (Git.listNotedCommits w g) = map snd entries)
  /\ (fst (Git.isGitRepo w g) = false \/ Git.notesList w = None ->
      fst (Git.listNotedCommits w g) = [])
  /\ (forall line, Git.noSpace line = true -> Git.commitOf line = line)
  /\ (forall first rest,
        Git.noSpace first = true ->
        Git.commitOf (first ++ String Git.space (String Git.space rest)) = first).
Proof.
  clear minimatch. split; [|split; [|split]].
  - intros entries Hrepo Hout Hwords. unfold Git.listNotedCommits.
    rewrite Hrepo, Hout. cbn [negb fst].
    destruct entries as [|e0 es] using rev_ind; [reflexivity|]. clear IHes.
    destruct (Hwords e0) as [Hn0 Hc0]; [apply in_or_app; right; now left|].
    assert (Hshape : map Git.noteLine (es ++ [e0])
                     = (map Git.noteLine es
                        ++ [(fst e0 ++ String Git.space (snd e0))%string])%list)
      by (rewrite map_app; reflexivity).
    rewrite Hshape.
    rewrite trim_printed; [| |exact Hc0].
    2:{ intros l Hl. rewrite <- Hshape in Hl.
        apply in_map_iff in Hl as (entry & <- & Hin).
        exists (fst entry), (snd entry). split; [reflexivity|].
        apply (Hwords entry Hin). }
    rewrite <- Hshape.
    rewrite split_join.
    + rewrite filter_all.
      * rewrite map_map. apply map_ext_in. intros entry Hin.
        destruct (Hwords entry Hin) as [Hn Hc].
        apply andb_true_iff in Hn as [_ Hn].
        destruct entry as [note commit]. now apply commitOf_noteLine.
      * intros l Hl. apply in_map_iff in Hl as (entry & <- & Hin).
        destruct (Hwords entry Hin) as [Hn _].
        unfold Git.noteLine. destruct (fst entry); [discriminate Hn|reflexivity].
    + destruct es; discriminate.
    + intros l Hl. apply in_map_iff in Hl as (entry & <- & Hin).
      destruct (Hwords entry Hin) as [Hn Hc].
      apply andb_true_iff in Hn as [_ Hn]. apply andb_true_iff in Hc as [_ Hc].
      unfold Git.noteLine.
      change (fst entry ++ String Git.space (snd entry))
        with (fst entry ++ String Git.space "" ++ snd entry).
      rewrite !noNewline_app.
      rewrite (@noSpace_noNewline (fst entry) Hn), (@noSpace_noNewline (snd entry) Hc).
      reflexivity.
  - unfold Git.listNotedCommits. intros [H|H].
    + now rewrite H.
    + rewrite H. now destruct (negb _).
  - intros line Hline. unfold Git.commitOf. rewrite split_none; [reflexivity|].
    intros c Hin. apply space1_not; [reflexivity|].
    exact (@noSpace_chars line c Hline Hin).
  - intros first rest Hfirst. unfold Git.commitOf. rewrite split_at.
    + reflexivity.
    + intros c Hin. apply space1_not; [reflexivity|].
      exact (@noSpace_chars first c Hfirst Hin).
Qed.

(** X28: [listFiles] reads back the files git prints. In a repository, when
    [git ls-files] prints one file per line, none of them blank or holding a
    line feed, the result is these files, in order; in general no entry of
    the result is blank. Outside a repository, or when git fails, the result
    is empty. *)
Theorem listFiles_reads_lines (w : Git.Repo) (patterns : list string) (g : Git.GitManager) :
  (forall files,
     fst (Git.isGitRepo w g) = true ->
     Git.lsFiles w patterns = Some (Git.printed files) ->
     (forall f, In f files -> Git.noNewline f = true /\ Git.trim f <> "") ->
     fst (Git.listFiles w patterns g) = files)
  /\ (forall f, In f (fst (Git.listFiles w patterns g)) -> Git.trim f <> "")
  /\ (fst (Git.isGitRepo w g) = false \/ Git.lsFiles w patterns = None ->
      fst (Git.listFiles w patterns g) = []).
Proof.
  clear minimatch. split; [|split].
  - intros files Hrepo Hout Hfiles. unfold Git.listFiles.
    rewrite Hrepo, Hout. cbn [negb fst].
    rewrite split_printed by (intros f Hf; apply Hfiles; assumption).
    rewrite filter_app. cbn [filter]. rewrite app_nil_r.
    apply filter_all. intros f Hf. destruct (Hfiles f Hf) as [_ Hb].
    destruct (Git.trim f); [congruence|reflexivity].
  - unfold Git.listFiles.
    destruct (negb (fst (Git.isGitRepo w g))); [intros f []|].
    destruct (Git.lsFiles w patterns) as [output|]; [|intros f []].
    cbn [fst]. intros f Hf. apply filter_In in Hf as [_ Hf].
    destruct (Git.trim f); [discriminate|discriminate].
  - unfold Git.listFiles. intros [H|H].
    + now rewrite H.
    + rewrite H. now destruct (negb _).
Qed.

End Properties.

(* ----------------------------------------------------------------- *)
(** *** Risk *)

(** C7, as the code has it: outside a repository, or when reading the history
    fails, [calculateRisk] returns score 0 with a reason. Otherwise, with [c]
    commits and [a] distinct authors, the score is [min(100, 2c + 5a)] for an
    ordinary path and [min(100, max(0, 2c + 5a - 20))] for a test or spec
    path: the deduction is applied before the cap, so it agrees with the
    cap-then-deduct reading whenever [2c + 5a <= 100] or the path is not a
    test. The score lies in 0..100, and [analyzeRisk] returns it and stores on
    the active task the maximum of the stored score (0 if none) and it. *)
Theorem calculateRisk_score (e : Env) (targetPath : string) :
  (isGitRepo e = false ->
     calculateRisk e targetPath = mkRiskResult 0 "Not a git repository")
  /\ (isGitRepo e = true -> gitLog e targetPath = None ->
      calculateRisk e targetPath = mkRiskResult 0 "Error accessing git logs")
  /\ (forall logs, isGitRepo e = true -> gitLog e targetPath = Some logs ->
        let c := total logs in
        let a := distinct_count (all logs) in
        let s := score (calculateRisk e targetPath) in
        s = (if isTestPath targetPath
             then Z.min 100 (Z.max 0 (2 * c + 5 * a - 20))
             else Z.min 100 (2 * c + 5 * a))%Z
        /\ (isTestPath targetPath = false \/ (2 * c + 5 * a <= 100)%Z ->
            s = claimedRiskScore c a (isTestPath targetPath))
        /\ ((0 <= c)%Z -> (0 <= s <= 100)%Z))
  /\ (forall st tid task,
        activeTaskId (session st) = Some tid -> tid <> "" ->
        JsObject.get (tasks st) tid = Some task ->
        outcome (analyzeRisk e targetPath st) = Return (calculateRisk e targetPath)
        /\ exists task',
             JsObject.get (tasks (after (analyzeRisk e targetPath st))) tid = Some task'
             /\ riskScore task'
                = Some (Z.max (match riskScore task with Some r => r | None => 0%Z end)
                              (score (calculateRisk e targetPath))))
  /\ (forall st, activeTaskId (session st) = None ->
        analyzeRisk e targetPath st = (Return (calculateRisk e targetPath), st)).
Proof.
  split; [|split; [|split; [|split]]].
  - intros H. unfold calculateRisk. now rewrite H.
  - intros H Hlog. unfold calculateRisk. now rewrite H, Hlog.
  - intros logs H Hlog c a s.
    assert (Hs : s = riskScoreOf c a (isTestPath targetPath)).
    { subst s. unfold calculateRisk. now rewrite H, Hlog. }
    assert (Ha : (0 <= a)%Z) by (subst a; unfold distinct_count; lia).
    rewrite Hs. unfold riskScoreOf, claimedRiskScore.
    destruct (isTestPath targetPath); (split; [f_equal; lia|]); split;
      try (intros [Hd|Hd]; [try discriminate Hd|]); lia.
  - intros st tid task Hact Hne Hget.
    unfold analyzeRisk, bind, getState. rewrite Hact. unfold truthy.
    destruct (String.eqb_spec tid ""); [contradiction|]. cbn [negb]. rewrite Hget.
    unfold mutateTask, modify, ret. rewrite Hget. unfold outcome, after; simpl.
    split; [reflexivity|]. eexists. split; [apply get_set_same|reflexivity].
  - intros st Hact. unfold analyzeRisk, bind, getState. now rewrite Hact.
Qed.

(* ================================================================= *)
(** ** The scenarios, checked *)

Import Scenario.

(** The helpers behave as their JavaScript counterparts. *)
Example toLowerCase_example : toLowerCase "Src/App.SPEC.ts" = "src/app.spec.ts".
Proof. reflexivity. Qed.

Example includes_example :
  includes "test" "src/app.test.ts" = true /\ includes "spec" "src/index.ts" = false.
Proof. split; reflexivity. Qed.

Example slice_last_example :
  slice_last 3 [1; 2; 3; 4; 5] = [3; 4; 5] /\ slice_last 3 [1; 2] = [1; 2].
Proof. split; reflexivity. Qed.

Example spread_example :
  JsObject.spread [("a", 1); ("b", 2)] [("b", 3); ("c", 4)]
  = [("a", 1); ("b", 3); ("c", 4)].
Proof. reflexivity. Qed.

Example join_example : join ", " ["a"; "b"; "c"] = "a, b, c".
Proof. reflexivity. Qed.

(** The first drill of the repository: propose, claim [src/**] exclusively,
    propose a second task, and see its claim on [src/index.ts] refused. *)
Example exclusive_claim_blocks_rogue :
  let held := after (claimScope matcher envA ["src/**"] true proposed) in
  let second :=
    after (proposeTask envB "Rogue Task" "Steal scope" ["src/index.ts"]
             [mkChecklistInput "1" "steal"] None held) in
  outcome (claimScope matcher envB ["src/index.ts"] false second)
  = Return (mkClaimResult false
              [mkScopeClaim "src/**" true "task_aaaaaaaa" 1714557600000]).
Proof. vm_compute. reflexivity. Qed.

(** The integrity drill: right after the grant the project is CLEAN. *)
Example clean_after_grant :
  outcome (healthCheck matcher envA claimed) = Return (mkHealthResult CLEAN []).
Proof. vm_compute. reflexivity. Qed.

(** The life cycle of a task: intent, checkpoint of the only checklist item,
    and the session is IDLE again with no active task and no claims. *)
Example checkpoint_completes_task :
  let working := after (reportIntent envA "do work" ["src/index.ts"] claimed) in
  let result := checkpoint envA "done" ["1"] working in
  currentState (session working) = EXECUTING
  /\ intentFiled (session working) = true
  /\ outcome result = Return (mkCheckpointResult "task_aaaaaaaa" 1 1 true)
  /\ currentState (session (after result)) = IDLE
  /\ activeTaskId (session (after result)) = None
  /\ activeClaims (session (after result)) = Some []
  /\ map fst (tasks (after result)) = ["task_aaaaaaaa"].
Proof. vm_compute. repeat split; reflexivity. Qed.

(** A child delegated by the parent may claim inside the parent's scope. *)
Example child_claims_inside_parent :
  let delegated :=
    after (delegateTask matcher envB "Child Task" "Do sub work" ["src/index.ts"] executing) in
  checkConflict matcher "src/index.ts" "sub_bbbbbbbb"
    (orEmpty (activeClaims (session delegated))) (tasks delegated)
  = None.
Proof. vm_compute. reflexivity. Qed.

(** One hundred and one appended entries leave one hundred. *)
Example log_is_capped :
  let filled :=
    fold_left (fun st _ => after (log envA "tick" None None st)) (repeat tt 101) fresh in
  List.length (logs filled) = 100%nat.
Proof. vm_compute. reflexivity. Qed.

(** C1, counterexample: the first task holds a shared (non-exclusive) claim
    on [src/**]; a second, unrelated task asks for [src/index.ts], which that
    pattern accepts; [checkConflict] reports the shared claim as a conflict. *)
Lemma shared_claim_blocks_request :
  checkOverlap matcher "src/index.ts" (path sharedClaim) = true
  /\ exclusive sharedClaim = false
  /\ considered "task_bbbbbbbb" (tasks rogue) sharedClaim = true
  /\ checkConflict matcher "src/index.ts" "task_bbbbbbbb"
       (orEmpty (activeClaims (session rogue))) (tasks rogue)
     = Some sharedClaim.
Proof. repeat split; vm_compute; reflexivity. Qed.

(** C2, witness: the second task's request for two paths, one of which
    conflicts, is rejected whole; and the first task's request on a session
    without claims is granted. *)
Lemma claimScope_all_or_nothing_witness :
  (outcome (claimScope matcher envB ["src/index.ts"; "docs/a.md"] true rogue)
   = Return (mkClaimResult false [sharedClaim])
   /\ claimLists (tasks (after (claimScope matcher envB ["src/index.ts"; "docs/a.md"] true rogue)))
      = claimLists (tasks rogue)
   /\ session (after (claimScope matcher envB ["src/index.ts"; "docs/a.md"] true rogue))
      = session rogue)
  /\ (outcome (claimScope matcher envA ["src/**"] false proposed)
      = Return (mkClaimResult true [])
      /\ activeClaims (session claimed) = Some [sharedClaim]).
Proof.
  split.
  - destruct (@claimScope_all_or_nothing matcher envB ["src/index.ts"; "docs/a.md"] true
                rogue "task_bbbbbbbb"
                (mkTaskContract "task_bbbbbbbb" "Rogue Task" "Steal scope" ["src/index.ts"]
                   [mkChecklistItem "1" "steal" todo] L2_LOGGED None None None None
                   (Some []) (Some []) None (now envB) (now envB)))
      as [Hrejected _].
    + reflexivity.
    + discriminate.
    + reflexivity.
    + destruct Hrejected as (Hout & _ & _ & Hlists & Hsession & _).
      * exists "src/index.ts". split; [now left|]. vm_compute. discriminate.
      * repeat split; assumption.
  - destruct (@claimScope_all_or_nothing matcher envA ["src/**"] false
                proposed "task_aaaaaaaa"
                (mkTaskContract "task_aaaaaaaa" "Parent Task" "Manage scope" ["src/**"]
                   [mkChecklistItem "1" "work" todo] L2_LOGGED None None None None
                   (Some []) (Some []) None (now envA) (now envA)))
      as [_ Hgranted].
    + reflexivity.
    + discriminate.
    + reflexivity.
    + destruct Hgranted as (Hout & _ & _ & Hcache).
      * intros p [<-|[]]. reflexivity.
      * split; [assumption|]. unfold claimed. rewrite Hcache. reflexivity.
Defined.

(** C3, counterexample: right after [proposeTask] the session is IDLE and no
    intent is filed; [checkpoint] throws a [StateTransitionError], not an
    [IntentMissingError]. *)
Lemma checkpoint_outside_EXECUTING_is_a_transition_error :
  intentFiled (session proposed) = false
  /\ currentState (session proposed) = IDLE
  /\ outcome (checkpoint envA "x" [] proposed)
     = Throw (StateTransitionError "dg_checkpoint" IDLE [EXECUTING])
  /\ outcome (checkpoint envA "x" [] proposed) <> Throw IntentMissingError.
Proof. repeat split; try (vm_compute; reflexivity). vm_compute. discriminate. Qed.

(** C3, witness: in EXECUTING with no intent filed (a step begun with
    [beginStep]), [checkpoint] throws [IntentMissingError]. *)
Lemma checkpoint_without_intent_witness :
  outcome (checkpoint envA "x" [] executing) = Throw IntentMissingError
  /\ after (checkpoint envA "x" [] executing) = executing.
Proof.
  destruct (@checkpoint_without_intent envA "x" [] executing eq_refl) as (Hst & Hexec & _).
  split; [apply Hexec; reflexivity | exact Hst].
Defined.

(** C4, the failing input: on a fresh session, [proposeTask] registers and
    activates the task and the session is still IDLE afterwards. *)
Lemma proposeTask_from_IDLE_witness :
  activeTaskId (session proposed) = Some "task_aaaaaaaa"
  /\ currentState (session proposed) = IDLE
  /\ currentState (session proposed) <> PLANNING.
Proof.
  destruct (@proposeTask_from_IDLE envA "Parent Task" "Manage scope" ["src/**"]
              [mkChecklistInput "1" "work"] None fresh eq_refl)
    as (task & _ & _ & _ & _ & _ & _ & Hidle).
  split; [reflexivity|]. unfold proposed. split; [exact Hidle|].
  rewrite Hidle. discriminate.
Defined.

(** C5, witness: the executing parent holds [src/**]; delegating
    [src/index.ts] succeeds and links the child, delegating [docs/readme.md]
    throws. *)
Lemma delegateTask_containment_witness :
  (exists sub,
      outcome (delegateTask matcher envB "Child Task" "Do sub work" ["src/index.ts"] executing)
      = Return sub
      /\ parentTaskId sub = Some "task_aaaaaaaa" /\ claims sub = Some [])
  /\ delegateTask matcher envB "Child Task" "Do sub work" ["docs/readme.md"] executing
     = (Throw (PlainError DELEGATION_FAILED), executing).
Proof.
  split.
  - destruct (@delegateTask_containment matcher envB "Child Task" "Do sub work"
                ["src/index.ts"] executing "task_aaaaaaaa"
                (mkTaskContract "task_aaaaaaaa" "Parent Task" "Manage scope" ["src/**"]
                   [mkChecklistItem "1" "work" todo] L2_LOGGED None None None None
                   (Some []) (Some [sharedClaim]) None (now envA) (now envA))
                eq_refl eq_refl eq_refl)
      as (Hheld & _ & Hshape).
    destruct Hheld as [[_ Hok] _]; [discriminate|].
    assert (Hcovered : contained matcher ["src/**"] ["src/index.ts"])
      by (constructor; [constructor; right; reflexivity | constructor]).
    destruct (Hok Hcovered) as [sub Hsub].
    exists sub. destruct (Hshape sub Hsub) as (Hp & _ & Hc & _). auto.
  - destruct (@delegateTask_containment matcher envB "Child Task" "Do sub work"
                ["docs/readme.md"] executing "task_aaaaaaaa"
                (mkTaskContract "task_aaaaaaaa" "Parent Task" "Manage scope" ["src/**"]
                   [mkChecklistItem "1" "work" todo] L2_LOGGED None None None None
                   (Some []) (Some [sharedClaim]) None (now envA) (now envA))
                eq_refl eq_refl eq_refl)
      as (Hheld & _ & _).
    destruct Hheld as [_ Hfail]; [discriminate|].
    apply Hfail. intros Hc. inversion Hc as [|? ? Hex _]; subst.
    inversion Hex as [? ? [Heq|Hm]|? ? Hex']; subst;
      [discriminate Heq | vm_compute in Hm; discriminate Hm | inversion Hex'].
Defined.

(** C6, on ordinary file names: against the cache taken when [src/**] was
    claimed, the later project state is reported DIRTY with the edited file
    MODIFIED, the created one NEW and the removed one DELETED. *)
Example healthCheck_reports_edits :
  healthCheck matcher envLater claimed
  = (Return (mkHealthResult DIRTY
               ["src/index.ts (MODIFIED)"; "src/added.ts (NEW)"; "src/new.ts (DELETED)"]),
     claimed).
Proof. reflexivity. Qed.

(** C6, the report the specification describes for the root project: the
    created file is NEW and the removed one, which the claimed pattern
    matches, is DELETED. *)
Example healthCheck_specified_report :
  knownHashes rootClaimed
  = [("README.md", "d41d8cd98f00b204e9800998ecf8427e");
     ("toString", "7215ee9c7d9dc229d2921a40e899ec5f")]
  /\ calculateFileHashes envRootLater ["*"]
     = [("README.md", "d41d8cd98f00b204e9800998ecf8427e");
        ("constructor", "b026324c6904b2a9cb4b88d6d61c81d1")]
  /\ map annotate
       (driftFindings rootMatcher (knownHashes rootClaimed)
          (calculateFileHashes envRootLater ["*"]) ["*"])
     = ["constructor (NEW)"; "toString (DELETED)"].
Proof. repeat split; reflexivity. Qed.

(** C6, witness, at the failing input: in the root project the created file
    [constructor] is reported MODIFIED and the removed file [toString] is not
    reported. *)
Lemma healthCheck_reports_drift_witness :
  outcome (healthCheck rootMatcher envRootLater rootClaimed)
  = Return (mkHealthResult DIRTY ["constructor (MODIFIED)"]).
Proof.
  destruct (@healthCheck_reports_drift rootMatcher envRootLater rootClaimed)
    as (_ & _ & Hdirty).
  - intros file hash Hread. unfold envRootLater, readHash in Hread.
    destruct (String.eqb file "README.md");
      [|destruct (String.eqb file "constructor")]; inversion Hread; discriminate.
  - intros file hash Hin. vm_compute in Hin.
    destruct Hin as [H|[H|[]]]; inversion H; discriminate.
  - destruct Hdirty as (_ & Hfound & _); [discriminate|].
    rewrite Hfound; [reflexivity|]. vm_compute. discriminate.
Defined.

(** Had the removal of [toString] been the only change in the root project,
    [healthCheck] would have answered CLEAN. *)
Example healthCheck_misses_deleted_file :
  healthCheck rootMatcher
    (mkEnv "2024-05-02T10:00:00.000Z" 1714644000000 "eeeeeeee-0000-4000-8000-000000000000"
       true [] "" true
       (fun _ => ["README.md"])
       (fun file =>
          if String.eqb file "README.md" then Some "d41d8cd98f00b204e9800998ecf8427e"
          else None)
       (fun _ => None)
       (fun _ => ExecResolved "" "")
       NoDirectory ".driftguard" (L2_LOGGED, "Basic project structure detected"))
    rootClaimed
  = (Return (mkHealthResult CLEAN []), rootClaimed).
Proof. reflexivity. Qed.

(** File names that are array indices are reported first, in ascending
    order, whatever the order git lists them in; a file named [__proto__]
    is never recorded. *)
Example enumerate_indices_first :
  JsObject.enumerate
    (fold_left (fun hashes file => assign hashes file "d41d8cd98f00b204e9800998ecf8427e")
       ["b.txt"; "10"; "__proto__"; "a.txt"; "9"; "007"] JsObject.empty)
  = [("9", "d41d8cd98f00b204e9800998ecf8427e"); ("10", "d41d8cd98f00b204e9800998ecf8427e");
     ("b.txt", "d41d8cd98f00b204e9800998ecf8427e");
     ("a.txt", "d41d8cd98f00b204e9800998ecf8427e");
     ("007", "d41d8cd98f00b204e9800998ecf8427e")].
Proof. reflexivity. Qed.

(** C7, counterexample: 40 commits by 5 authors on a test file. The code
    deducts before capping and answers 85; capping first and deducting
    afterwards, as the claim words it, gives 80. *)
Lemma test_path_deduction_precedes_cap :
  isTestPath "src/app.test.ts" = true
  /\ gitLog envA "src/app.test.ts" = Some (mkLogResult (List.concat (repeat authors 8)) 40)
  /\ distinct_count (List.concat (repeat authors 8)) = 5%Z
  /\ score (calculateRisk envA "src/app.test.ts") = 85%Z
  /\ claimedRiskScore 40 5 true = 80%Z.
Proof. repeat split; vm_compute; reflexivity. Qed.

(** C1, witness: an exclusive claim of another task on [src/**] blocks a
    request for [src/index.ts], and the conflict reported is that claim. *)
Lemma checkConflict_any_overlap_blocks_witness :
  exists c,
    checkConflict matcher "src/index.ts" "task_bbbbbbbb"
      [with_exclusive sharedClaim true] (tasks rogue) = Some c
    /\ In c [with_exclusive sharedClaim true].
Proof.
  destruct (checkConflict_any_overlap_blocks matcher "src/index.ts" "task_bbbbbbbb"
              [with_exclusive sharedClaim true] (tasks rogue))
    as ([_ Hblocks] & Hreported & _).
  destruct Hblocks as [c Hc].
  - exists (with_exclusive sharedClaim true).
    split; [now left|]. split; reflexivity.
  - exists c. split; [exact Hc|]. now apply Hreported.
Defined.

(** C7, witness: the same history on an ordinary path scores the cap, and a
    project outside git scores 0. *)
Lemma calculateRisk_score_witness :
  score (calculateRisk envA "src/index.ts") = 100%Z
  /\ analyzeRisk envA "src/index.ts" fresh
     = (Return (calculateRisk envA "src/index.ts"), fresh).
Proof.
  destruct (calculateRisk_score envA "src/index.ts") as (_ & _ & Hscore & _ & Hidle).
  split.
  - destruct (Hscore (mkLogResult (List.concat (repeat authors 8)) 40) eq_refl eq_refl)
      as (Hs & _).
    rewrite Hs. reflexivity.
  - apply Hidle. reflexivity.
Defined.


(** C9, witness: a request on a session whose log is within the bound leaves
    it within the bound. *)
Lemma log_keeps_most_recent_100_witness :
  (List.length (logs (after (perform matcher envA (Panic "lost") executing))) <= 100)%nat.
Proof.
  destruct (log_keeps_most_recent_100 matcher envA (Panic "lost") executing)
    as (_ & _ & Hbound).
  apply Hbound. vm_compute. repeat constructor.
Defined.

(** C10, witness: the first task's claim is granted in PANIC as it is in
    IDLE. *)
Lemma claimScope_ignores_focus_witness :
  outcome (claimScope matcher envA ["src/**"] false (inFocus proposed PANIC))
  = Return (mkClaimResult true [])
  /\ after (claimScope matcher envA ["src/**"] false (inFocus proposed PANIC))
     = inFocus claimed PANIC.
Proof.
  destruct (claimScope_ignores_focus matcher envA ["src/**"] false proposed)
    as (Hsame & _ & _).
  rewrite (Hsame PANIC). split; reflexivity.
Defined.

(* ----------------------------------------------------------------- *)
(** *** Further properties, on the scenarios *)

(** X1, witness: a checkpoint right after [proposeTask], in IDLE, is refused
    by the transition table. *)
Lemma transition_table_witness :
  perform matcher envA (Checkpoint "x" []) proposed
  = (Throw (StateTransitionError "dg_checkpoint" IDLE [EXECUTING]), proposed).
Proof.
  apply (proj1 (@transition_table matcher envA (Checkpoint "x" []) proposed eq_refl)).
  intros [H|[]]. discriminate H.
Defined.


(** X3, witness: the checkpoint of the only item ends the task. *)
Lemma checkpoint_commits_witness :
  currentState (session (after (checkpoint envA "done" ["1"] working))) = IDLE
  /\ activeTaskId (session (after (checkpoint envA "done" ["1"] working))) = None.
Proof.
  assert (Hne : "task_aaaaaaaa" <> "") by discriminate.
  destruct (@checkpoint_commits envA "done" ["1"] working "task_aaaaaaaa" workingTask
              eq_refl eq_refl eq_refl Hne eq_refl)
    as (_ & (H1 & _ & _ & _ & H5) & _).
  split; [exact H1|exact H5].
Defined.

(** X4, witness: the id passed is the id of an item, which ends up done. *)
Lemma markAllDone_marks_witness :
  exists i, In i (markAllDone ["1"] (checklist proposedTask))
            /\ id i = "1" /\ isDone i = true.
Proof.
  apply (proj1 (@markAllDone_marks ["1"] (checklist proposedTask)) "1");
    left; reflexivity.
Defined.


(** X6, witness: after [beginStep], a verification leaves the session without
    intent, and the checkpoint is refused. *)
Lemma step_without_intent_is_stuck_witness :
  executingWithoutIntent (after (perform matcher envA Verify executing))
  /\ perform matcher envA (Checkpoint "x" []) executing
     = (Throw IntentMissingError, executing).
Proof.
  destruct (@step_without_intent_is_stuck matcher envA Verify executing
              (conj eq_refl eq_refl) eq_refl eq_refl) as (H1 & H2 & _).
  split; [exact H1|exact (H2 "x" [])].
Defined.

(** X7, witness: the intent filed on the claimed session. *)
Lemma reportIntent_then_checkpoint_witness :
  outcome (reportIntent envA "do work" ["src/index.ts"] claimed)
  = Return (mkStepResult "task_aaaaaaaa" "step_aaaaaaaa" EXECUTING)
  /\ intentFiled (session working) = true.
Proof.
  assert (Hne : "task_aaaaaaaa" <> "") by discriminate.
  destruct (@reportIntent_then_checkpoint envA envA "do work" "done" ["src/index.ts"] ["1"]
              claimed "task_aaaaaaaa" claimedTask
              (or_intror (or_introl eq_refl)) eq_refl Hne eq_refl)
    as (H1 & _ & H3 & _).
  split; [exact H1|exact H3].
Defined.

(** X8, witness: with no test command, [verify] runs the placeholder. *)
Lemma verify_reports_failure_witness :
  exists result,
    outcome (verify envA working) = Return result
    /\ command result = NO_TEST_COMMAND
    /\ isVerified (session (after (verify envA working))) = success result.
Proof.
  assert (Hne : "task_aaaaaaaa" <> "") by discriminate.
  destruct (@verify_reports_failure envA working "task_aaaaaaaa" workingTask
              eq_refl eq_refl Hne eq_refl)
    as (result & H1 & H2 & _ & _ & _ & H6 & _).
  exists result. split; [exact H1|]. split; [exact H2|exact H6].
Defined.

(** X9, witness: the command set is the command run. *)
Lemma setTestCommand_then_verify_witness :
  outcome (setTestCommand envA "npm test" working) = Return tt
  /\ exists result,
       outcome (verify envA (after (setTestCommand envA "npm test" working)))
       = Return result
       /\ command result = "npm test".
Proof.
  assert (Hne : "task_aaaaaaaa" <> "") by discriminate.
  destruct (@setTestCommand_then_verify envA envA "npm test" working "task_aaaaaaaa"
              workingTask eq_refl Hne eq_refl)
    as (H1 & _ & _ & H4).
  split; [exact H1|exact (H4 eq_refl)].
Defined.

(** X10, witness: the scopes are exclusive after the first task is proposed
    and after its claim is granted. *)
Lemma scopes_stay_exclusive_witness :
  scopesExclusive matcher proposed /\ scopesExclusive matcher claimed.
Proof.
  destruct (@scopes_stay_exclusive matcher envA) as [Hfresh Hstep].
  assert (H1 : scopesExclusive matcher proposed).
  { apply (Hstep (ProposeTask "Parent Task" "Manage scope" ["src/**"]
                    [mkChecklistInput "1" "work"] None) fresh).
    - intros k Hk. reflexivity.
    - exact I.
    - exact Hfresh. }
  split; [exact H1|].
  apply (Hstep (ClaimScope ["src/**"] false) proposed).
  - intros k Hk. discriminate Hk.
  - exact I.
  - exact H1.
Defined.

(** X11, witness: the claimed session is driven by a proposed task, for
    which the parent guard never fires. *)
Lemma tasks_never_share_scope_witness :
  rootsOnly matcher claimed
  /\ (forall k1 k2 c1 c2,
        holds (tasks claimed) k1 c1 -> holds (tasks claimed) k2 c2 ->
        checkOverlap matcher (path c1) (path c2) = true -> k1 = k2)
  /\ forall c, ownedByParent "task_aaaaaaaa" (tasks claimed) c = false.
Proof.
  destruct (@tasks_never_share_scope matcher envA) as (Hfresh & Hstep & Hheld & Huse).
  assert (H1 : rootsOnly matcher claimed).
  { apply (Hstep (ClaimScope ["src/**"] false) proposed I).
    apply (Hstep (ProposeTask "Parent Task" "Manage scope" ["src/**"]
                    [mkChecklistInput "1" "work"] None) fresh I).
    exact Hfresh. }
  split; [exact H1|]. split.
  - intros k1 k2 c1 c2. exact (Hheld claimed k1 k2 c1 c2 H1).
  - exact (proj1 (proj2 (Huse claimed "task_aaaaaaaa" H1 eq_refl))).
Defined.


(** X13, witness: a panic leaves the tasks alone. *)
Lemma untouched_parts_witness :
  tasks (after (perform matcher envA (Panic "stuck") working)) = tasks working.
Proof.
  apply (@untouched_parts matcher envA (Panic "stuck") TasksPart working).
  intros [H|[H|[]]]; discriminate H.
Defined.

(** X14, witness: proposing the second task leaves the first one in place. *)
Lemma registry_only_grows_witness :
  registryGrows claimed
    (after (perform matcher envB
              (ProposeTask "Rogue Task" "Steal scope" ["src/index.ts"]
                 [mkChecklistInput "1" "steal"] None) claimed)).
Proof.
  apply (@registry_only_grows matcher envB); [reflexivity|].
  intros k Hk. inversion Hk. reflexivity.
Defined.

(** X15, witness: the entry is appended to a file that lacks it. *)
Lemma updateGitignore_appends_once_witness :
  exists written,
    updateGitignore true (Some "node_modules") = Some written
    /\ endsWith LF written = true
    /\ updateGitignore true (Some written) = Some written.
Proof.
  destruct (proj1 (proj2 (@updateGitignore_appends_once true (Some "node_modules")))
              eq_refl eq_refl)
    as (written & H1 & _ & _ & H4 & H5).
  exists written. split; [exact H1|]. split; [exact H4|].
  rewrite <- H1. apply H5.
Defined.

(** X16, witness: tests win over CI, and a [package.json] that holds [null]
    gives L1 although a CI configuration exists. *)
Lemma scanForStrictnessOf_levels_witness :
  fst (scanForStrictnessOf testedProject) = L3_BALANCED
  /\ fst (scanForStrictnessOf nullProject) = L1_VIBE.
Proof.
  split.
  - assert (Htested : packageJson testedProject = Json OtherEntry
              \/ exists script,
                   packageJson testedProject = Json (Script script)
                   /\ script <> "" /\ script <> NO_TEST_SPECIFIED).
    { right. exists "vitest run". split; [reflexivity|]. split; [discriminate|].
      unfold NO_TEST_SPECIFIED. simpl. discriminate. }
    exact (proj2 (proj1 (proj2 (proj2 (@scanForStrictnessOf_levels testedProject))))
             Htested).
  - exact (proj2 (proj1 (@scanForStrictnessOf_levels nullProject))
             (or_intror (or_intror eq_refl))).
Defined.

(** X17, witness: a directory first seen outside a repository stays so. *)
Lemma isGitRepo_asks_once_witness :
  fst (Git.isGitRepoCalls [outside; inside; inside] manager) = [false; false; false]
  /\ fst (Git.getChangedFiles inside
            (snd (Git.isGitRepoCalls [outside; inside; inside] manager))) = [].
Proof.
  destruct (@isGitRepo_asks_once outside [inside; inside] manager eq_refl)
    as (H1 & _ & H3 & _).
  split; [exact H1|exact (H3 eq_refl inside)].
Defined.

(** X18, witness: a file both modified and created, and a rename onto a
    modified file, appear once. *)
Lemma getChangedFiles_lists_once_witness :
  NoDup (fst (Git.getChangedFiles inside manager))
  /\ (forall f, In f (fst (Git.getChangedFiles inside manager))
                <-> In f ["a.ts"; "b.ts"; "b.ts"; "a.ts"]).
Proof.
  destruct (@getChangedFiles_lists_once inside manager) as (H1 & _ & H3).
  split; [exact H1|].
  exact (proj1 (H3 (Git.mkStatusResult ["a.ts"; "b.ts"] ["b.ts"] [] [("old.ts", "a.ts")])
                  eq_refl eq_refl)).
Defined.


(** X20, witness: the handoff after the checkpoint of the only item. *)
Lemma handoff_after_checkpoint_witness :
  exists result packet,
    outcome (checkpoint envA "done" ["1"] working) = Return result
    /\ generateHandoff (after (checkpoint envA "done" ["1"] working))
       = (Return packet, after (checkpoint envA "done" ["1"] working))
    /\ ho_status packet = IDLE.
Proof.
  assert (Hne : "task_aaaaaaaa" <> "") by discriminate.
  destruct (@handoff_after_checkpoint envA "done" ["1"] working "task_aaaaaaaa" workingTask
              eq_refl eq_refl eq_refl Hne eq_refl)
    as (result & packet & H1 & H2 & H3 & _).
  exists result, packet. split; [exact H1|]. split; [exact H2|exact H3].
Defined.


(** X22, witness: the health check right after the first grant is CLEAN. *)
Lemma healthCheck_after_grant_witness :
  orEmpty (activeClaims (session claimed)) = [sharedClaim]
  /\ outcome (healthCheck matcher envA claimed) = Return (mkHealthResult CLEAN []).
Proof.
  assert (Hne : "task_aaaaaaaa" <> "") by discriminate.
  assert (Hwf : JsObject.wf (tasks proposed)).
  { unfold JsObject.wf. change (NoDup ["task_aaaaaaaa"]).
    constructor; [intros []|constructor]. }
  assert (Hsole : forall k t, k <> "task_aaaaaaaa" ->
            JsObject.get (tasks proposed) k = Some t -> orEmpty (claims t) = []).
  { intros k t Hk Hget.
    change (tasks proposed) with [("task_aaaaaaaa", proposedTask)] in Hget.
    cbn [JsObject.get] in Hget.
    destruct (String.eqb_spec "task_aaaaaaaa" k); [congruence|discriminate Hget]. }
  assert (Hdigests : digestsNonEmpty envA).
  { intros file hash Hread. unfold envA, env, readHash in Hread.
    destruct (String.eqb file "src/index.ts");
      [|destruct (String.eqb file "src/new.ts")]; inversion Hread; discriminate. }
  destruct (@healthCheck_after_grant matcher envA ["src/**"] false proposed
              "task_aaaaaaaa" proposedTask eq_refl Hne eq_refl Hwf Hsole Hdigests eq_refl)
    as (H1 & gone & H2 & _ & H4).
  split; [exact H1|]. rewrite (H4 eq_refl) in H2. exact H2.
Defined.

(** X23, witness: the two unrelated tasks block each other. *)
Lemma blocking_is_symmetric_witness :
  checkConflict matcher "src/index.ts" "task_bbbbbbbb" [sharedClaim] (tasks rogue)
  = Some sharedClaim
  <-> checkConflict matcher "src/**" "task_aaaaaaaa"
        [mkScopeClaim "src/index.ts" true "task_bbbbbbbb" 1714557600000] (tasks rogue)
      = Some (mkScopeClaim "src/index.ts" true "task_bbbbbbbb" 1714557600000).
Proof.
  assert (Hne : "task_aaaaaaaa" <> "task_bbbbbbbb") by discriminate.
  destruct (@blocking_is_symmetric matcher (tasks rogue) "task_aaaaaaaa" "task_bbbbbbbb"
              "src/**" "src/index.ts" false true 1714557600000 1714557600000 Hne)
    as (_ & _ & H3 & _).
  exact (proj1 (H3 eq_refl eq_refl)).
Defined.

(** X24, witness: a task may delegate one of its own claim patterns. *)
Lemma validateDelegation_laws_witness :
  validateDelegation matcher ["src/**"; "docs/**"] ["docs/**"] = true.
Proof.
  apply (proj1 (proj2 (proj2 (@validateDelegation_laws matcher ["src/**"; "docs/**"])))).
  intros x [<-|[]]. right. left. reflexivity.
Defined.

(** X25, witness: the explanation repeats the intent filed. *)
Lemma explainChange_echoes_intent_witness :
  exists result,
    outcome (explainChange envA working) = Return result
    /\ er_intent result = "do work".
Proof.
  assert (Hne : "task_aaaaaaaa" <> "") by discriminate.
  destruct (@explainChange_echoes_intent envA envA "do work" ["src/index.ts"] claimed
              "task_aaaaaaaa" claimedTask
              (or_intror (or_introl eq_refl)) eq_refl Hne eq_refl)
    as (result & H1 & H2 & _).
  exists result. split; [exact H1|exact H2].
Defined.

(** X26, witness: the second of two items under one id is never marked. *)
Lemma checklist_completion_witness :
  forallb isDone (markAllDone ["1"; "1"] twins) = false.
Proof.
  apply (proj2 (proj2 (@checklist_completion ["1"; "1"] twins)) 1%nat 0%nat
           (mkChecklistItem "1" "review" todo) (mkChecklistItem "1" "write" todo)
           (le_n 1) eq_refl eq_refl eq_refl eq_refl).
Defined.

(** X27, witness: two notes, read back as their two commits. *)
Lemma listNotedCommits_reads_list_witness :
  fst (Git.listNotedCommits inside manager) = ["e83c517"; "a94a8fe"].
Proof.
  apply (proj1 (@listNotedCommits_reads_list inside manager) notes eq_refl eq_refl).
  intros entry [<-|[<-|[]]]; split; reflexivity.
Defined.

(** X28, witness: two files, one with a space in its name. *)
Lemma listFiles_reads_lines_witness :
  fst (Git.listFiles inside ["src/**"; "docs/**"] manager)
  = ["src/index.ts"; "docs/read me.md"].
Proof.
  apply (proj1 (@listFiles_reads_lines inside ["src/**"; "docs/**"] manager)
           ["src/index.ts"; "docs/read me.md"] eq_refl eq_refl).
  intros f [<-|[<-|[]]]; (split; [reflexivity|]); vm_compute; discriminate.
Defined.

(* ----------------------------------------------------------------- *)
(** *** Text in code units and Unicode white space *)

(** Sixty times [é] is 120 bytes and 60 code units: [reportIntent] logs it
    whole. One hundred and one times it is cut after a hundred characters. *)
Example slice_counts_code_units :
  String.length (String.concat "" (repeat "é" 60)) = 120%nat
  /\ utf16_length (String.concat "" (repeat "é" 60)) = 60%nat
  /\ str_slice0 100 (String.concat "" (repeat "é" 60)) = String.concat "" (repeat "é" 60)
  /\ str_slice0 100 (String.concat "" (repeat "é" 101)) = String.concat "" (repeat "é" 100).
Proof. repeat split; vm_compute; reflexivity. Qed.

(** A supplementary character takes two code units; cut in the middle, its
    high surrogate is kept (U+D835 for U+1D4B3). *)
Example slice_cuts_surrogate_pair :
  utf16_length "a𝒳b" = 4%nat
  /\ str_slice0 3 "a𝒳b" = "a𝒳"
  /\ str_slice0 2 "a𝒳b"
     = String "a" (String (ascii_of_nat 237) (String (ascii_of_nat 160)
                     (String (ascii_of_nat 181) ""))).
Proof. repeat split; vm_compute; reflexivity. Qed.

(** U+00A0 and U+3000 are trimmed like the space; a line that holds nothing
    but a no-break space is not a file. *)
Example trim_removes_unicode_space :
  Git.trim (String (ascii_of_nat 194) (String (ascii_of_nat 160) " a  b")
            ++ String (ascii_of_nat 227) (String (ascii_of_nat 128)
                 (String (ascii_of_nat 128) (String (ascii_of_nat 9) ""))))
  = "a  b"
  /\ fst (Git.listFiles
            (Git.mkRepo true None None
               (fun _ => Some (Git.printed
                  ["a.ts"; String (ascii_of_nat 194) (String (ascii_of_nat 160) ""); "b.ts"])))
            ["*"] manager)
     = ["a.ts"; "b.ts"].
Proof. split; vm_compute; reflexivity. Qed.
